(** * pydantic-exportables: records, keyed collections and the streaming exporter

    A shallow embedding of
      - [src/pydantic_exportables/jsonexportable.py]
        ([JSONExportable], [JSONExportableRootDict]) and
      - [src/pyutils/exportable.py]
        ([CSVExportable], [export_csv], [export_json], [export_txt], [export]),
    followed by the properties of the specification stated against it. *)

From Stdlib Require Import ZArith String Ascii.
From stdpp Require Import gmap strings list sorting pretty.

Local Open Scope string_scope.
Set Warnings "-clear-no-such-hyp".

(** ** Python exceptions *)

(** The exception classes the two modules raise or catch.  [CancelledError]
    derives from [BaseException] only, so an [except Exception] clause does
    not catch it; [BaseException_other] stands for the remaining such classes
    ([KeyboardInterrupt], [SystemExit]). *)
Inductive ExnClass :=
| NotImplementedError
| AttributeError
| KeyError
| ValueError
| TypeError
| AssertionError
| FileExistsError
| OSError
| Exception_other (name : string)
| CancelledError
| BaseException_other (name : string).

Record Exn := mkExn { exn_class : ExnClass; exn_msg : string }.

#[global] Instance ExnClass_eq_dec : EqDecision ExnClass.
Proof. solve_decision. Defined.
#[global] Instance Exn_eq_dec : EqDecision Exn.
Proof. solve_decision. Defined.

(** [isinstance(err, Exception)] *)
Definition is_Exception (e : Exn) : bool :=
  match exn_class e with
  | CancelledError | BaseException_other _ => false
  | _ => true
  end.

Definition is_CancelledError (e : Exn) : bool :=
  match exn_class e with CancelledError => true | _ => false end.

Definition is_KeyError (e : Exn) : bool :=
  match exn_class e with KeyError => true | _ => false end.

(** The outcome of evaluating a Python expression: a value, or a raised
    exception. *)
Inductive Exc (A : Type) : Type :=
| Ok (a : A)
| Raise (e : Exn).
Arguments Ok {A} a.
Arguments Raise {A} e.

Definition returns {A} (r : Exc A) : Prop := ∃ a, r = Ok a.
Definition raises {A} (r : Exc A) : Prop := ∃ e, r = Raise e.

Definition exc_bind {A B} (r : Exc A) (k : A → Exc B) : Exc B :=
  match r with Ok a => k a | Raise e => Raise e end.

(** ** Python dicts

    A [dict] keeps its keys in insertion order: an association list without
    repeated keys. *)

(** [d[key]], [None] standing for [KeyError]. *)
Fixpoint dict_get {K V} `{EqDecision K} (d : list (K * V)) (key : K) : option V :=
  match d with
  | [] => None
  | (k, v) :: d' => if decide (k = key) then Some v else dict_get d' key
  end.

(** [d[key] = value]: an existing key keeps its position, a new key goes last. *)
Fixpoint dict_set {K V} `{EqDecision K} (d : list (K * V)) (key : K) (value : V) : list (K * V) :=
  match d with
  | [] => [(key, value)]
  | (k, v) :: d' =>
      if decide (k = key) then (k, value) :: d' else (k, v) :: dict_set d' key value
  end.

(** [del d[key]] *)
Fixpoint dict_del {K V} `{EqDecision K} (d : list (K * V)) (key : K) : list (K * V) :=
  match d with
  | [] => []
  | (k, v) :: d' => if decide (k = key) then d' else (k, v) :: dict_del d' key
  end.

(** The double quote character, as a string. *)
Definition dquote : string := String "034"%char EmptyString.

(** [sep.join(parts)] *)
Fixpoint join (sep : string) (parts : list string) : string :=
  match parts with
  | [] => ""
  | [p] => p
  | p :: ps => p ++ sep ++ join sep ps
  end.

(** ** Records ([pydantic_exportables.JSONExportable]) *)

Module JSONExportable.

(** A field value: a scalar, or a nested record.  A record (a pydantic model
    instance) is its class, its instance [__dict__] (field name to value, in
    declaration order) and [model_fields_set], the names of the fields that
    were explicitly set. *)
Inductive Value :=
| VNone
| VBool (b : bool)
| VInt (z : Z)
| VStr (s : string)
| VModel (m : Model)
with Model :=
| mkModel (cls : string) (dict : list (string * Value)) (model_fields_set : gset string).

Definition cls (m : Model) : string := let 'mkModel c _ _ := m in c.
Definition dict (m : Model) : list (string * Value) := let 'mkModel _ d _ := m in d.
Definition model_fields_set (m : Model) : gset string := let 'mkModel _ _ s := m in s.

Definition attribute_error (m : Model) (name : string) : Exn :=
  mkExn AttributeError ("'" ++ cls m ++ "' object has no attribute '" ++ name ++ "'").

(** [getattr(self, name)] for a field name: the value stored in the instance
    [__dict__], [AttributeError] when there is none. *)
Definition getattr (self : Model) (name : string) : Exc Value :=
  match dict_get (dict self) name with
  | Some v => Ok v
  | None => Raise (attribute_error self name)
  end.

(** [getattr] in continuation form: the same lookup, with the value handed to
    [found].  [update] below reads the fields of [new] through it. *)
Definition getattr_k {A} (self : Model) (name : string)
    (found : Value → A) (missing : Exn → A) : A :=
  (fix lookup (d : list (string * Value)) : A :=
     match d with
     | [] => missing (attribute_error self name)
     | (k, v) :: d' => if decide (k = name) then found v else lookup d'
     end) (dict self).

Section Methods.

(** The index type of the records ([Idx]), with Python's [==] on it. *)
Context {IdxType : Type} `{EqDecision IdxType}.

(** [index]: the property a subclass overrides to give its records an
    identity.  [base_index] is the implementation of the base class. *)
Variable index : Model → Exc IdxType.

Definition not_implemented : Exn := mkExn NotImplementedError "".

Definition base_index (self : Model) : Exc IdxType := Raise not_implemented.

(** A class attribute [name] of class [c] that is a [property]: its setter,
    as the change it makes to the instance.  Pydantic fields are not class
    attributes, so this is [None] at every field name. *)
Variable class_property : string → string → option (Model → Value → Model * Exc ()).

(** [_set_skip_validation] (lines 94-101) *)
Definition _set_skip_validation (self : Model) (name : string) (value : Value) : Model * Exc () :=
  match class_property (cls self) name with
  | Some fset => fset self value
  | None =>
      (mkModel (cls self) (dict_set (dict self) name value) ({[ name ]} ∪ model_fields_set self),
       Ok ())
  end.

(** [self.index != new.index], left operand first. *)
Definition index_ne (self new : Model) : Exc bool :=
  match index self with
  | Raise e => Raise e
  | Ok i =>
      match index new with
      | Raise e => Raise e
      | Ok j => Ok (bool_decide (i ≠ j))
      end
  end.

(** The [for key in ...] loop of [update]: [body] gives the instance and the
    flag after one round; an exception ends the loop with the instance as it
    is at that point. *)
Fixpoint for_keys (body : Model → bool → string → Model * Exc bool)
    (keys : list string) (self : Model) (updated : bool) : Model * Exc bool :=
  match keys with
  | [] => (self, Ok updated)
  | key :: keys' =>
      match body self updated key with
      | (self', Ok updated') => for_keys body keys' self' updated'
      | (self', Raise e) => (self', Raise e)
      end
  end.

(** [old.update(value, ...)] has mutated the object held in field [key]: the
    field holds the merged record, [model_fields_set] is as before. *)
Definition store_nested (self : Model) (key : string) (old' : Model) : Model :=
  mkModel (cls self) (dict_set (dict self) key (VModel old')) (model_fields_set self).

(** [update] (lines 340-362).  The result is the instance [self] after the
    call, and the value returned or the exception raised. *)
Fixpoint update (self new : Model) (match_index : bool) {struct new} : Model * Exc bool :=
  match (if match_index then index_ne self new else Ok false) with
  | Raise e => (self, Raise e)
  | Ok true => (self, Ok false)
  | Ok false =>
      for_keys
        (fun self updated key =>
           getattr_k new key
             (fun value =>
                let overwrite :=
                  match _set_skip_validation self key value with
                  | (self', Ok _) => (self', Ok true)
                  | (self', Raise e) => (self', Raise e)
                  end in
                match value with
                | VModel value' =>
                    match getattr self key with
                    | Raise e => (self, Raise e)
                    | Ok (VModel old) =>
                        match update old value' match_index with
                        | (old', Ok changed) =>
                            (store_nested self key old', Ok (if changed then true else updated))
                        | (old', Raise e) => (store_nested self key old', Raise e)
                        end
                    | Ok _ => overwrite
                    end
                | _ => overwrite
                end)
             (fun e => (self, Raise e)))
        (elements (model_fields_set new)) self false
  end.

(** Python's [hash] on an index value and on an [int]. *)
Variable hash_index : IdxType → Z.
Variable hash_int : Z → Z.

(** [__hash__] (lines 278-283).  [id_self] is [id(self)], the identity of the
    object. *)
Definition __hash__ (self : Model) (id_self : Z) : Exc Z :=
  match index self with
  | Ok i => Ok (hash_index i)
  | Raise e =>
      match exn_class e with
      | NotImplementedError => Ok (hash_int id_self)
      | _ => Raise e
      end
  end.

End Methods.

(** *** Registered transformations *)

(** [type(obj)]: the run-time type of a value. *)
Inductive PyType :=
| NoneType
| TBool
| TInt
| TStr
| TClass (name : string).

#[global] Instance PyType_eq_dec : EqDecision PyType.
Proof. solve_decision. Defined.

Definition type (obj : Value) : PyType :=
  match obj with
  | VNone => NoneType
  | VBool _ => TBool
  | VInt _ => TInt
  | VStr _ => TStr
  | VModel m => TClass (cls m)
  end.

Definition repr_type (t : PyType) : string :=
  "<class '" ++
  match t with
  | NoneType => "NoneType"
  | TBool => "bool"
  | TInt => "int"
  | TStr => "str"
  | TClass name => name
  end ++ "'>".

(** What a call of [transform] does besides returning: the registered
    functions it calls and the lines it logs. *)
Inductive Event :=
| Called (source : PyType) (in_obj : Value)
| Logged_error (msg : string)
| Logged_debug (msg : string).

(** A record class: its name and its [_transformations] register, from the
    type of the input to the conversion function. *)
Record Class := mkClass {
  __name__ : string;
  _transformations : list (PyType * (Value → Exc Value));
}.

(** [register_transformation] (lines 110-118) *)
Definition register_transformation (c : Class) (obj_type : PyType)
    (method : Value → Exc Value) : Class :=
  mkClass (__name__ c) (dict_set (_transformations c) obj_type method).

(** The [except Exception] clause of [transform]. *)
Definition transform_failed (c : Class) (in_obj : Value) (calls : list Event) (err : Exn)
    : list Event * Exc Value :=
  if is_Exception err then
    (app calls
       [Logged_error ("failed to transform " ++ repr_type (type in_obj) ++ " to "
                      ++ repr_type (TClass (__name__ c)));
        Logged_debug (exn_msg err)],
     Ok VNone)
  else (calls, Raise err).

(** [transform] (lines 120-131) *)
Definition transform (c : Class) (in_obj : Value) : list Event * Exc Value :=
  if decide (type in_obj = TClass (__name__ c)) then ([], Ok in_obj)
  else
    match dict_get (_transformations c) (type in_obj) with
    | None => transform_failed c in_obj [] (mkExn KeyError (repr_type (type in_obj)))
    | Some method =>
        match method in_obj with
        | Ok out => ([Called (type in_obj) in_obj], Ok out)
        | Raise err => transform_failed c in_obj [Called (type in_obj) in_obj] err
        end
    end.

(** [transform_many] (lines 133-136) *)
Fixpoint transform_many (c : Class) (in_objs : list Value) : list Event * Exc (list Value) :=
  match in_objs with
  | [] => ([], Ok [])
  | obj :: in_objs' =>
      match transform c obj with
      | (ev, Raise e) => (ev, Raise e)
      | (ev, Ok out) =>
          match transform_many c in_objs' with
          | (ev', Raise e) => (app ev ev', Raise e)
          | (ev', Ok outs) =>
              (app ev ev', Ok match out with VNone => outs | _ => out :: outs end)
          end
      end
  end.

End JSONExportable.

(** ** Keyed collections ([pydantic_exportables.JSONExportableRootDict]) *)

Module JSONExportableRootDict.

Import JSONExportable.

(** The collection: [root], the backing dict from index to record, and the
    [_sorted] flag. *)
Record RootDict (IdxType : Type) := mkRootDict {
  root : list (IdxType * Model);
  _sorted : bool;
}.
Arguments mkRootDict {IdxType} root _sorted.
Arguments root {IdxType} r.
Arguments _sorted {IdxType} r.

Section Methods.

Context {IdxType : Type} `{Countable IdxType}.

(** Python's order on the keys ([<=]), which [sorted] sorts by. *)
Variable key_le : relation IdxType.
Context `{!RelDecision key_le}.

(** [str(key)] *)
Variable str : IdxType → string.

Variable index : Model → Exc IdxType.
Variable class_property : string → string → option (Model → Value → Model * Exc ()).

(** [a != b] on records (pydantic's [BaseModel.__eq__], negated). *)
Variable model_ne : Model → Model → bool.

(** The JSON text of one record in the source view and in the DB view (the
    record's own [json_src] and [json_db]), as pydantic's serializer gives it
    for the keyword arguments of the call. *)
Variable record_json_src : Model → Exc string.
Variable record_json_db : Model → Exc string.

#[local] Abbreviation RootDict := (RootDict IdxType).

(** A collection as the class creates it: [_sorted] is [True]. *)
Definition new_RootDict (root : list (IdxType * Model)) : RootDict :=
  mkRootDict root true.

Definition key_error (key : IdxType) : Exn := mkExn KeyError (str key).

(** [keys], [values], [items] (lines 411-425): views of [root]. *)
Definition keys (self : RootDict) : list IdxType := (root self).*1.
Definition values (self : RootDict) : list Model := (root self).*2.
Definition items (self : RootDict) : list (IdxType * Model) := root self.

(** [add] (lines 386-387) *)
Definition add (self : RootDict) (item : Model) : RootDict * Exc () :=
  match index item with
  | Raise e => (self, Raise e)
  | Ok i => (mkRootDict (dict_set (root self) i item) (_sorted self), Ok ())
  end.

(** [__setitem__] (lines 389-391): the key passed is not used. *)
Definition __setitem__ (self : RootDict) (key : IdxType) (item : Model) : RootDict * Exc () :=
  add self item.

(** [__getitem__] (lines 393-395) *)
Definition __getitem__ (self : RootDict) (key : IdxType) : Exc Model :=
  match dict_get (root self) key with
  | Some item => Ok item
  | None => Raise (key_error key)
  end.

(** [__delitem__] (lines 397-399) *)
Definition __delitem__ (self : RootDict) (key : IdxType) : RootDict * Exc () :=
  match dict_get (root self) key with
  | Some _ => (mkRootDict (dict_del (root self) key) (_sorted self), Ok ())
  | None => (self, Raise (key_error key))
  end.

(** [__len__] (lines 401-403) *)
Definition __len__ (self : RootDict) : nat := length (root self).

(** [sorted(keys)] *)
Definition sorted (l : list IdxType) : list IdxType := merge_sort key_le l.

(** [__iter__] (lines 405-409) *)
Definition __iter__ (self : RootDict) : list IdxType :=
  if _sorted self then sorted (keys self) else keys self.

(** [__contains__] (lines 417-421), for a key and for a record *)
Definition __contains__ (self : RootDict) (item : IdxType) : bool :=
  bool_decide (is_Some (dict_get (root self) item)).

Definition __contains__record (self : RootDict) (item : Model) : Exc bool :=
  exc_bind (index item) (λ i, Ok (__contains__ self i)).

(** [root[key] = item] *)
Definition root_set (self : RootDict) (key : IdxType) (item : Model) : RootDict :=
  mkRootDict (dict_set (root self) key item) (_sorted self).

(** [{key for key in keys if cond(key)}] *)
Fixpoint set_comprehension (cond : IdxType → Exc bool) (keys : list IdxType)
    : Exc (gset IdxType) :=
  match keys with
  | [] => Ok ∅
  | key :: keys' =>
      match cond key with
      | Raise e => Raise e
      | Ok b =>
          match set_comprehension cond keys' with
          | Raise e => Raise e
          | Ok s => Ok (if b then {[ key ]} ∪ s else s)
          end
      end
  end.

(** [new[key] != self[key]] *)
Definition differ (self new : RootDict) (key : IdxType) : Exc bool :=
  exc_bind (__getitem__ new key) (λ n,
  exc_bind (__getitem__ self key) (λ s, Ok (model_ne n s))).

(** The first loop of [update] (lines 441-443): each record of [self] under a
    key of [updated] is updated from the record of [new] under that key. *)
Fixpoint update_records (self new : RootDict) (match_index : bool)
    (updated : list IdxType) (updated_idx : gset IdxType) : RootDict * Exc (gset IdxType) :=
  match updated with
  | [] => (self, Ok updated_idx)
  | key :: updated' =>
      match __getitem__ self key with
      | Raise e => (self, Raise e)
      | Ok old =>
          match __getitem__ new key with
          | Raise e => (self, Raise e)
          | Ok item =>
              match JSONExportable.update index class_property old item match_index with
              | (old', Raise e) => (root_set self key old', Raise e)
              | (old', Ok _) =>
                  update_records (root_set self key old') new match_index updated'
                    (updated_idx ∪ {[ key ]})
              end
          end
      end
  end.

(** The second loop of [update] (lines 445-446) *)
Fixpoint add_records (self new : RootDict) (added : list IdxType) : RootDict * Exc () :=
  match added with
  | [] => (self, Ok ())
  | key :: added' =>
      match __getitem__ new key with
      | Raise e => (self, Raise e)
      | Ok item => add_records (root_set self key item) new added'
      end
  end.

(** [update] (lines 427-448).  The result is the collection [self] after the
    call, and the pair [(added, updated_idx)] returned or the exception
    raised. *)
Definition update (self new : RootDict) (match_index : bool)
    : RootDict * Exc (gset IdxType * gset IdxType) :=
  let new_ids : gset IdxType := list_to_set (__iter__ new) in
  let old_ids : gset IdxType := list_to_set (__iter__ self) in
  let added := new_ids ∖ old_ids in
  let updated := new_ids ∩ old_ids in
  match set_comprehension (differ self new) (elements updated) with
  | Raise e => (self, Raise e)
  | Ok updated =>
      match update_records self new match_index (elements updated) ∅ with
      | (self, Raise e) => (self, Raise e)
      | (self, Ok updated_idx) =>
          match add_records self new (elements added) with
          | (self, Raise e) => (self, Raise e)
          | (self, Ok _) => (self, Ok (added, updated_idx))
          end
      end
  end.

(** One entry of the whole-collection JSON text: the key as a string between
    double quotes, a colon, a space, and the record's text. *)
Definition json_entry (key : IdxType) (text : string) : string :=
  dquote ++ str key ++ dquote ++ ": " ++ text.

(** The list comprehension of [json_src] and [json_db]: one entry for each
    pair of [entries], in their order. *)
Fixpoint json_entries (render : Model → Exc string) (entries : list (IdxType * Model))
    : Exc (list string) :=
  match entries with
  | [] => Ok []
  | (key, value) :: entries' =>
      exc_bind (render value) (λ text,
      exc_bind (json_entries render entries') (λ rest,
      Ok (json_entry key text :: rest)))
  end.

Definition newline : string := String "010"%char EmptyString.

Definition json_object (parts : list string) : string :=
  "{" ++ join ("," ++ newline) parts ++ "}".

(** [json_src] (lines 460-471) *)
Definition json_src (self : RootDict) : Exc string :=
  exc_bind (json_entries record_json_src (items self)) (λ parts, Ok (json_object parts)).

(** [json_db] (lines 473-484) *)
Definition json_db (self : RootDict) : Exc string :=
  exc_bind (json_entries record_json_db (items self)) (λ parts, Ok (json_object parts)).

End Methods.

End JSONExportableRootDict.

(** ** The counting collaborator ([pyutils.eventcounter.EventCounter]) *)

Module EventCounter.

(** Modelled from the spec: the module [eventcounter] is not part of the
    sources at hand.  A counter has a name and one tally for each category;
    [log] increments the tally of a category, [merge_child] folds the tallies
    of another counter into this one, preserving category names. *)
Record EventCounter := mkEventCounter {
  name : string;
  tallies : gmap string nat;
}.

Definition new (name : string) : EventCounter := mkEventCounter name ∅.

Definition get_value (self : EventCounter) (category : string) : nat :=
  default 0%nat (tallies self !! category).

Definition log (self : EventCounter) (category : string) : EventCounter :=
  mkEventCounter (name self) (<[ category := S (get_value self category) ]> (tallies self)).

Definition merge_child (self other : EventCounter) : EventCounter :=
  mkEventCounter (name self)
    (union_with (λ a b, Some (a + b)%nat) (tallies self) (tallies other)).

End EventCounter.

(** ** The streaming exporter ([pyutils.exportable]) *)

Module Exportable.

Import EventCounter.

(** *** Strings *)

(** [s.lower()], on ASCII letters. *)
Definition lower_ascii (c : ascii) : ascii :=
  let n := nat_of_ascii c in
  if ((65 <=? n) && (n <=? 90))%nat then ascii_of_nat (n + 32) else c.

Fixpoint lower (s : string) : string :=
  match s with
  | EmptyString => EmptyString
  | String c s' => String (lower_ascii c) (lower s')
  end.

(** [s.endswith(suffix)] *)
Definition endswith (s suffix : string) : bool :=
  bool_decide (list_ascii_of_string suffix `suffix_of` list_ascii_of_string s).

Definition newline : string := String "010"%char EmptyString.

(** [os.linesep] *)
Definition linesep : string := newline.

(** *** The destination: files and standard output *)

Inductive Node :=
| RegularFile (content : string)
| Directory.

Inductive Level := ERROR | WARNING | INFO | DEBUG.

(** What an export call can observe and change: the file system (no entry at
    a path that does not exist), the text printed on standard output, the
    lines handed to the logger, and the paths at which [open] fails whatever
    is at them, each with the exception [open] raises there (the directory of
    the path is missing, the permission is refused, ...). *)
Record World := mkWorld {
  fs : gmap string Node;
  stdout : string;
  logged : list (Level * string);
  unopenable : gmap string Exn;
}.

(** [os.path.exists], [os.path.isfile] *)
Definition exists_ (w : World) (path : string) : bool :=
  bool_decide (is_Some (fs w !! path)).

Definition isfile (w : World) (path : string) : bool :=
  match fs w !! path with
  | Some (RegularFile _) => true
  | _ => false
  end.

Definition error (w : World) (msg : string) : World :=
  mkWorld (fs w) (stdout w) (logged w ++ [(ERROR, msg)]) (unopenable w).

Definition debug (w : World) (msg : string) : World :=
  mkWorld (fs w) (stdout w) (logged w ++ [(DEBUG, msg)]) (unopenable w).

(** [print(line)] *)
Definition print (w : World) (line : string) : World :=
  mkWorld (fs w) (stdout w ++ line ++ newline) (logged w) (unopenable w).

Inductive Mode := mode_w | mode_a.

Definition repr_mode (m : Mode) : string :=
  match m with mode_w => "w" | mode_a => "a" end.

(** [repr(s)] of a [str]: the text between single quotes, or between double
    quotes when it holds a single quote and no double quote; the quote in
    use and the backslash are escaped by a backslash; tab, newline and
    carriage return are written as a backslash and [t], [n] or [r], and the
    other control characters as a backslash, [x] and two hexadecimal digits.
    Text that is not ASCII is taken to be printable. *)
Definition hex_digit (n : nat) : ascii :=
  default "0"%char (list_ascii_of_string "0123456789abcdef" !! n).

Definition backslash : ascii := ascii_of_nat 92.

Definition escape_ascii (quote c : ascii) : string :=
  let n := nat_of_ascii c in
  if bool_decide (c = quote) || bool_decide (c = backslash) then
    String backslash (String c EmptyString)
  else if bool_decide (n = 9%nat) then String backslash "t"
  else if bool_decide (n = 10%nat) then String backslash "n"
  else if bool_decide (n = 13%nat) then String backslash "r"
  else if bool_decide (n < 32)%nat || bool_decide (n = 127%nat) then
    String backslash
      (String "x" (String (hex_digit (n / 16)) (String (hex_digit (n mod 16)) EmptyString)))
  else String c EmptyString.

Fixpoint escape (quote : ascii) (s : string) : string :=
  match s with
  | EmptyString => EmptyString
  | String c s' => escape_ascii quote c ++ escape quote s'
  end.

Definition repr_str (s : string) : string :=
  let holds (c : ascii) := bool_decide (c ∈ list_ascii_of_string s) in
  let quote := if holds "'"%char && negb (holds "034"%char) then "034"%char else "'"%char in
  String quote (escape quote s ++ String quote EmptyString).

(** What [open(path, mode)] does when it succeeds: mode [w] creates the file
    or empties it, mode [a] creates it when there is none. *)
Definition opened (w : World) (path : string) (mode : Mode) : World :=
  match mode, fs w !! path with
  | mode_a, Some _ => w
  | _, _ =>
      mkWorld (<[ path := RegularFile "" ]> (fs w)) (stdout w) (logged w) (unopenable w)
  end.

(** [open(path, mode)] for writing: it raises at a path that cannot be
    opened and at a directory ([IsADirectoryError], an [OSError]), and it
    changes nothing then. *)
Definition open (w : World) (path : string) (mode : Mode) : Exc World :=
  match unopenable w !! path with
  | Some err => Raise err
  | None =>
      match fs w !! path with
      | Some Directory => Raise (mkExn OSError ("[Errno 21] Is a directory: " ++ repr_str path))
      | _ => Ok (opened w path mode)
      end
  end.

(** [file.write(data)]: the data goes at the end of the file. *)
Definition write (path : string) (w : World) (data : string) : World :=
  match fs w !! path with
  | Some (RegularFile content) =>
      mkWorld (<[ path := RegularFile (content ++ data) ]> (fs w)) (stdout w) (logged w)
        (unopenable w)
  | _ => w
  end.

(** The content of the file at [path], if there is a regular file. *)
Definition read (w : World) (path : string) : option string :=
  match fs w !! path with
  | Some (RegularFile content) => Some content
  | _ => None
  end.

(** *** Exportable records *)

(** A CSV cell: [str | int | float | bool]; a float is held as its text. *)
Inductive Cell :=
| CStr (s : string)
| CInt (z : Z)
| CFloat (text : string)
| CBool (b : bool).

(** [str(cell)] *)
Definition str (c : Cell) : string :=
  match c with
  | CStr s => s
  | CInt z => pretty z
  | CFloat text => text
  | CBool true => "True"
  | CBool false => "False"
  end.

(** A record handed to the exporter, as the methods the exporter calls on it:
    each gives the value it returns or the exception it raises.
    ([TXTExportable.txt_row], [CSVExportable.csv_headers],
    [CSVExportable._csv_row], [JSONExportable.json_src]) *)
Record Exportable := mkExportable {
  txt_row : string → Exc string;
  csv_headers : Exc (list string);
  _csv_row : Exc (list (string * option Cell));
  json_src : Exc string;
}.

Definition not_implemented : Exn := mkExn NotImplementedError "".

(** The abstract methods of the base classes (lines 61-64, 77-80, 86-89). *)
Definition abstract_txt_row (format : string) : Exc string := Raise not_implemented.
Definition abstract_csv_headers : Exc (list string) := Raise not_implemented.
Definition abstract__csv_row : Exc (list (string * option Cell)) := Raise not_implemented.

(** [_clear_None] (lines 91-98) *)
Definition _clear_None (res : list (string * option Cell)) : list (string * Cell) :=
  (λ '(key, value),
     (key, match value with None => CStr "" | Some c => c end)) <$> res.

(** [csv_row] (lines 82-84) *)
Definition csv_row (self : Exportable) : Exc (list (string * Cell)) :=
  exc_bind (_csv_row self) (λ res, Ok (_clear_None res)).

(** [JSONExportable.index] of the base class (lines 136-139) and
    [JSONExportable.__hash__] (lines 151-153); [index] is what the record's
    [index] property evaluates to. *)
Definition base_index {IdxType} : Exc IdxType := Raise not_implemented.

Definition __hash__ {IdxType} (hash_index : IdxType → Z) (index : Exc IdxType) : Exc Z :=
  exc_bind index (λ i, Ok (hash_index i)).

(** *** The input sequence *)

(** One element of the asynchronous sequence: the record, and what the
    destination does when the row of this record is written to it: [None],
    the row is written; [Some err], the write raises [err] and writes
    nothing. *)
Record Item := mkItem {
  exportable : Exportable;
  write_error : option Exn;
}.

(** The asynchronous sequence: the records it yields, and how it ends after
    the last one: [None], it is exhausted; [Some err], fetching the next
    element raises [err] (a cancellation, for instance). *)
Record AsyncIterable := mkAsyncIterable {
  yielded : list Item;
  ending : option Exn;
}.

(** *** The exporters *)

Section Exporters.

(** The CSV writer of the library ([aiocsv.AsyncDictWriter] with the [excel]
    dialect): the header line it writes for the field names, and the line it
    writes for a row dict, or the exception it raises for that row. *)
Variable dictwriter_header : list string → string.
Variable dictwriter_row : list string → list (string * Cell) → Exc string.

(** The loop over the records.  For each record the row is rendered and
    written by [emit]; an exception that the [except] clause of the loop body
    catches ([caught]) is logged and tallied under [errors], and the loop goes
    on; any other exception leaves the loop.  The result is the world and
    the counter after the loop, and the exception that left it, if any. *)
Fixpoint export_rows (caught : Exn → bool) (message : Exn → string)
    (render : Exportable → Exc string) (emit : World → string → World)
    (items : list Item) (w : World) (stats : EventCounter)
    : World * EventCounter * option Exn :=
  match items with
  | [] => (w, stats, None)
  | item :: items' =>
      match exc_bind (render (exportable item))
              (λ text, match write_error item with
                       | None => Ok text
                       | Some err => Raise err
                       end) with
      | Ok text =>
          export_rows caught message render emit items' (emit w text) (log stats "rows")
      | Raise err =>
          if caught err then
            export_rows caught message render emit items'
              (error w (message err)) (log stats "errors")
          else (w, stats, Some err)
      end
  end.

(** The loop over the whole sequence: after the last record the sequence
    ends, or fetching the next element raises. *)
Definition async_for (caught : Exn → bool) (message : Exn → string)
    (render : Exportable → Exc string) (emit : World → string → World)
    (iterable : AsyncIterable) (w : World) (stats : EventCounter)
    : World * EventCounter * option Exn :=
  match export_rows caught message render emit (yielded iterable) w stats with
  | (w', stats', None) => (w', stats', ending iterable)
  | other => other
  end.

(** [assert type(filename) is str and len(filename) > 0] *)
Definition assertion_error : Exn := mkExn AssertionError "filename has to be str".

Definition file_exists_error (filename : string) : Exn :=
  mkExn FileExistsError ("Cannot export to " ++ filename).

(** The file name an exporter writes to (lines 248-249, 303-304, 344-345). *)
Definition with_suffix (filename suffix : string) : string :=
  if endswith (lower filename) suffix then filename else filename ++ "." ++ suffix.

(** The test of lines 251, 306 and 347. *)
Definition cannot_export (w : World) (filename : string) (force append : bool) : bool :=
  exists_ w filename && (negb (isfile w filename) || negb (force || append)).

(** The mode the file is opened in (lines 254-256, 308-310, 349-351). *)
Definition open_mode (w : World) (filename : string) (append : bool) : Mode :=
  if append && isfile w filename then mode_a else mode_w.

(** The clauses [except CancelledError] and [except Exception] that close
    [export_json] and [export_txt]. *)
Definition finish (r : World * EventCounter * option Exn) : World * Exc EventCounter :=
  match r with
  | (w, stats, None) => (w, Ok stats)
  | (w, stats, Some err) =>
      if is_CancelledError err then (debug w "Cancelled", Ok stats)
      else if is_Exception err then (error w (exn_msg err), Ok stats)
      else (w, Raise err)
  end.

(** [export_json] (lines 286-324) *)
Definition export_json (iterable : AsyncIterable) (filename : string) (force append : bool)
    (w : World) : World * Exc EventCounter :=
  if decide (filename = "") then (w, Raise assertion_error)
  else
    let stats := EventCounter.new "JSON" in
    finish
      (if decide (filename = "-") then
         async_for is_Exception exn_msg json_src print iterable w stats
       else
         let filename := with_suffix filename "json" in
         if cannot_export w filename force append then
           (w, stats, Some (file_exists_error filename))
         else
           match open w filename (open_mode w filename append) with
           | Raise err => (w, stats, Some err)
           | Ok w =>
               async_for is_Exception exn_msg json_src
                 (λ w text, write filename w (text ++ linesep)) iterable w stats
           end).

(** [export_txt] (lines 327-365) *)
Definition export_txt (iterable : AsyncIterable) (filename : string) (force append : bool)
    (w : World) : World * Exc EventCounter :=
  if decide (filename = "") then (w, Raise assertion_error)
  else
    let stats := EventCounter.new "Text" in
    finish
      (if decide (filename = "-") then
         async_for is_Exception exn_msg (λ e, txt_row e "rich") print iterable w stats
       else
         let filename := with_suffix filename "txt" in
         if cannot_export w filename force append then
           (w, stats, Some (file_exists_error filename))
         else
           match open w filename (open_mode w filename append) with
           | Raise err => (w, stats, Some err)
           | Ok w =>
               async_for is_Exception exn_msg (λ e, txt_row e "")
                 (λ w text, write filename w (text ++ linesep)) iterable w stats
           end).

(** The row printed on standard output by [export_csv] (line 236): the cells
    of the row under the header fields, joined by the delimiter.  A field
    the row lacks raises [KeyError], whose text is the [repr] of the field. *)
Fixpoint cells (row : list (string * Cell)) (fields : list string) : Exc (list string) :=
  match fields with
  | [] => Ok []
  | key :: fields' =>
      match dict_get row key with
      | None => Raise (mkExn KeyError (repr_str key))
      | Some c => exc_bind (cells row fields') (λ rest, Ok (str c :: rest))
      end
  end.

Definition delimiter : string := ",".

Definition stdout_row (fields : list string) (e : Exportable) : Exc string :=
  exc_bind (csv_row e) (λ row,
  exc_bind (cells row fields) (λ texts, Ok (join delimiter texts))).

Definition written_row (fields : list string) (e : Exportable) : Exc string :=
  exc_bind (csv_row e) (dictwriter_row fields).

(** The clause [except CancelledError] of the two inner [try] blocks of
    [export_csv] (lines 244-245, 276-277). *)
Definition except_cancelled (r : World * EventCounter * option Exn)
    : World * EventCounter * option Exn :=
  match r with
  | (w, stats, Some err) =>
      if is_CancelledError err then (debug w "Cancelled", stats, None) else r
  | _ => r
  end.

(** The closing clause [except Exception] of [export_csv] (lines 281-283). *)
Definition except_exception (r : World * EventCounter * option Exn) : World * Exc EventCounter :=
  match r with
  | (w, stats, None) => (w, Ok stats)
  | (w, stats, Some err) =>
      if is_Exception err then (error w (exn_msg err), Ok stats) else (w, Raise err)
  end.

(** [export_csv] (lines 211-283) *)
Definition export_csv (iterable : AsyncIterable) (filename : string) (force append : bool)
    (w : World) : World * Exc EventCounter :=
  let w := debug w "starting" in
  if decide (filename = "") then (w, Raise assertion_error)
  else
    let stats := EventCounter.new "CSV" in
    match yielded iterable with
    | [] =>
        match ending iterable with
        | Some err => except_exception (w, stats, Some err)
        | None => (debug w "empty iterable given", Ok stats)
        end
    | first :: _ =>
        match csv_headers (exportable first) with
        | Raise err => except_exception (w, stats, Some err)
        | Ok fields =>
            if decide (filename = "-") then
              except_exception (except_cancelled
                match async_for is_KeyError
                        (λ err, "CSVExportable object does not have field: " ++ exn_msg err)
                        (stdout_row fields) print iterable
                        (print w (join delimiter fields)) stats with
                | (w, stats, None) => (debug w "export finished", stats, None)
                | other => other
                end)
            else
              let filename := with_suffix filename "csv" in
              if cannot_export w filename force append then
                except_exception (w, stats, Some (file_exists_error filename))
              else
                let mode := open_mode w filename append in
                let append := append && isfile w filename in
                let w := debug w ("opening " ++ filename ++ " for writing in mode="
                                  ++ repr_mode mode) in
                match open w filename mode with
                | Raise err => except_exception (w, stats, Some err)
                | Ok w =>
                    let w :=
                      if append then w else write filename w (dictwriter_header fields) in
                    except_exception (except_cancelled
                      (async_for is_Exception exn_msg (written_row fields) (write filename)
                         iterable w stats))
                end
        end
    end.

Definition EXPORT_FORMATS : list string := ["txt"; "json"; "csv"].

(** [get_args(EXPORT_FORMAT)] *)
Definition get_args_EXPORT_FORMAT : list string := ["txt"; "json"; "csv"].

(** The format [export] goes by (lines 379-382). *)
Definition resolve_format (format filename : string) : string :=
  if decide (filename ≠ "-") then
    foldl (λ format export_format,
             if endswith filename export_format
                && bool_decide (export_format ∈ get_args_EXPORT_FORMAT)
             then export_format else format)
          format EXPORT_FORMATS
  else format.

(** [export] (lines 368-403).  The [return] in the [finally] clause makes
    the call return the counter whatever was raised. *)
Definition export (iterable : AsyncIterable) (format filename : string) (force append : bool)
    (w : World) : World * Exc EventCounter :=
  let w := debug w "starting" in
  let stats := EventCounter.new "write" in
  let format := resolve_format format filename in
  let except (w : World) (err : Exn) :=
    if is_Exception err then (error w (exn_msg err), Ok (log stats "errors"))
    else (w, Ok stats) in
  let merged (r : World * Exc EventCounter) :=
    match r with
    | (w, Ok child) => (w, Ok (merge_child stats child))
    | (w, Raise err) => except w err
    end in
  if decide (format = "txt") then merged (export_txt iterable filename force append w)
  else if decide (format = "json") then merged (export_json iterable filename force append w)
  else if decide (format = "csv") then merged (export_csv iterable filename force append w)
  else except w (mkExn ValueError ("Unknown format: " ++ format)).

End Exporters.

End Exportable.

(** ** Sample classes and records

    A record class [Tank] with the fields [id: int = 0], which is its index,
    [name: str], empty by default, and [turret: Turret | None = None],
    and a record class [Turret] with the field [gun: int = 0], which defines
    no index.  A sample record is given by the values of its fields and the
    names of those that were set, the others holding their defaults. *)

Module Sample.

Import JSONExportable.

Definition index (self : Model) : Exc Z :=
  if decide (cls self = "Tank") then
    match getattr self "id" with
    | Ok (VInt z) => Ok z
    | Ok _ => Raise (mkExn TypeError "id")
    | Raise e => Raise e
    end
  else base_index self.

Definition no_property : string → string → option (Model → Value → Model * Exc ()) :=
  λ _ _, None.

(** Equality of records as pydantic defines it: the same class and equal
    field values. *)
Fixpoint value_eqb (a b : Value) {struct a} : bool :=
  match a, b with
  | VNone, VNone => true
  | VBool x, VBool y => bool_decide (x = y)
  | VInt x, VInt y => bool_decide (x = y)
  | VStr x, VStr y => bool_decide (x = y)
  | VModel m, VModel n => model_eqb m n
  | _, _ => false
  end
with model_eqb (m n : Model) {struct m} : bool :=
  match m with
  | mkModel c d _ =>
      bool_decide (c = cls n)
      && bool_decide (length d = length (dict n))
      && (fix all (d : list (string * Value)) : bool :=
            match d with
            | [] => true
            | (k, v) :: d' =>
                match dict_get (dict n) k with
                | Some v' => value_eqb v v'
                | None => false
                end && all d'
            end) d
  end.

Definition model_ne (a b : Model) : bool := negb (model_eqb a b).

Definition tank (id : Z) (name : string) (set : list string) : Model :=
  mkModel "Tank" [("id", VInt id); ("name", VStr name); ("turret", VNone)] (list_to_set set).

Definition turret (gun : Z) (set : list string) : Model :=
  mkModel "Turret" [("gun", VInt gun)] (list_to_set set).

Definition tank_with (id : Z) (name : string) (t : Model) (set : list string) : Model :=
  mkModel "Tank" [("id", VInt id); ("name", VStr name); ("turret", VModel t)] (list_to_set set).

End Sample.

(** ** The merge, field by field *)

Module Merge.

Import JSONExportable.

Section Merge.

Context {IdxType : Type} `{EqDecision IdxType}.
Variable index : Model → Exc IdxType.
Variable class_property : string → string → option (Model → Value → Model * Exc ()).
Variable match_index : bool.

(** The two records have the same identity. *)
Definition same_identity (a b : Model) : Prop :=
  ∃ i, index a = Ok i ∧ index b = Ok i.

(** One round of the loop of [update], for the field [key] of [new]. *)
Definition round (new self : Model) (updated : bool) (key : string) : Model * Exc bool :=
  match getattr new key with
  | Raise e => (self, Raise e)
  | Ok value =>
      let overwrite :=
        match _set_skip_validation class_property self key value with
        | (self', Ok _) => (self', Ok true)
        | (self', Raise e) => (self', Raise e)
        end in
      match value with
      | VModel value' =>
          match getattr self key with
          | Raise e => (self, Raise e)
          | Ok (VModel old) =>
              match update index class_property old value' match_index with
              | (old', Ok changed) =>
                  (store_nested self key old', Ok (if changed then true else updated))
              | (old', Raise e) => (store_nested self key old', Raise e)
              end
          | Ok _ => overwrite
          end
      | _ => overwrite
      end
  end.

(** The field [key] holds a nested record on both sides: the two records. *)
Definition nested_pair (a b : Model) (key : string) : option (Model * Model) :=
  match getattr b key, getattr a key with
  | Ok (VModel value), Ok (VModel old) => Some (old, value)
  | _, _ => None
  end.

(** What the field [key] of [a] holds after the merge of [b] into [a]: the
    nested record of [a] merged with the one of [b] when both sides hold
    one, the value of [b] otherwise. *)
Definition merged_field (a b : Model) (key : string) : Exc Value :=
  match nested_pair a b key with
  | Some (old, value) => Ok (VModel (update index class_property old value match_index).1)
  | None => getattr b key
  end.

(** The field [key] makes the merge report a change: it is overwritten, or
    the nested merge reports a change. *)
Definition field_changed (a b : Model) (key : string) : bool :=
  match nested_pair a b key with
  | Some (old, value) =>
      match (update index class_property old value match_index).2 with
      | Ok changed => changed
      | Raise _ => false
      end
  | None => true
  end.

(** The round for the field [key] raises nothing: [b] has the attribute, and
    when it is a nested record, [a] has the attribute too and, when both
    sides hold nested records, the nested merge returns. *)
Definition field_merges (a b : Model) (key : string) : Prop :=
  match getattr b key with
  | Raise _ => False
  | Ok (VModel value) =>
      match getattr a key with
      | Raise _ => False
      | Ok (VModel old) => returns (update index class_property old value match_index).2
      | Ok _ => True
      end
  | Ok _ => True
  end.

End Merge.

End Merge.

(** ** The whole-collection view, entry by entry *)

Module View.

Import JSONExportable JSONExportableRootDict.

Section View.

Context {IdxType : Type} `{Countable IdxType}.
Variable key_le : relation IdxType.
Context `{!RelDecision key_le}.
Variable str : IdxType → string.

(** The pairs of the collection in iteration order: for each key that
    [__iter__] gives, the key and the record under it. *)
Definition items_in_iteration_order (self : RootDict IdxType) : list (IdxType * Model) :=
  omap (λ key, (λ value, (key, value)) <$> dict_get (root self) key) (__iter__ key_le self).

(** The whole-collection JSON text whose entries follow the iteration order
    of the collection. *)
Definition json_in_iteration_order (render : Model → Exc string) (self : RootDict IdxType)
    : Exc string :=
  exc_bind (json_entries str render (items_in_iteration_order self))
    (λ parts, Ok (json_object parts)).

(** The whole-collection JSON text whose entries are those of the backing
    dict, in its order, [text] being the JSON text of each record. *)
Definition json_in_storage_order (text : Model → string) (self : RootDict IdxType) : string :=
  json_object ((λ '(key, value), json_entry str key (text value)) <$> root self).

End View.

End View.

(** Sample collections of the class [JSONExportableRootDict[int, Tank]]: the
    keys are integers and the records are tanks.  (The class has to be
    parametrised by the class of its records: a collection of the bare class
    [JSONExportableRootDict] validates its records as [JSONExportable], and
    keeps none of the fields of a tank.) *)

Module SampleDict.

Import JSONExportable JSONExportableRootDict Sample.

(** The JSON text of a sample record: its name. *)
Definition record_json (self : Model) : Exc string :=
  match getattr self "name" with
  | Ok (VStr s) => Ok s
  | Ok _ => Raise (mkExn TypeError "name")
  | Raise e => Raise e
  end.

Definition record_text (self : Model) : string :=
  match record_json self with Ok s => s | Raise _ => "" end.

Definition str (key : Z) : string := pretty key.

Definition update := JSONExportableRootDict.update Z.le str index no_property model_ne.

(** Two tanks stored in descending order of their keys. *)
Definition descending : RootDict Z :=
  new_RootDict [(2%Z, tank 2 "b" ["id"; "name"]); (1%Z, tank 1 "a" ["id"; "name"])].

(** A collection holding a named tank under key 0, and one holding under the
    same key a tank on which no field was set. *)
Definition named : RootDict Z := new_RootDict [(0%Z, tank 0 "x" ["name"])].
Definition unset : RootDict Z := new_RootDict [(0%Z, tank 0 "" [])].

End SampleDict.

(** ** The rows of an export, record by record *)

Module Rows.

Import EventCounter Exportable.

Section Rows.

Variable render : Exportable → Exc string.

(** What becomes of one record: the row written for it, or the exception
    that rendering it or writing its row raises. *)
Definition outcome (item : Item) : Exc string :=
  exc_bind (render (exportable item))
    (λ text, match write_error item with
             | None => Ok text
             | Some err => Raise err
             end).

(** The rows of the records that do not fail, in the order of the input. *)
Definition rows (items : list Item) : list string :=
  omap (λ item, match outcome item with Ok text => Some text | Raise _ => None end) items.

(** The exceptions of the records that fail, in the order of the input. *)
Definition failures (items : list Item) : list Exn :=
  omap (λ item, match outcome item with Ok _ => None | Raise err => Some err end) items.

End Rows.

(** The text of the rows written one after the other, each as [wrap] makes
    it; [lines]: each row followed by [terminator]. *)
Definition written (wrap : string → string) (rows : list string) : string :=
  foldr (λ row rest, wrap row ++ rest) "" rows.

Definition lines (terminator : string) (rows : list string) : string :=
  written (λ row, row ++ terminator) rows.

(** The messages logged at level [ERROR]. *)
Definition errors_logged (w : World) : list string :=
  omap (λ '(level, msg), match level with ERROR => Some msg | _ => None end) (logged w).

(** What a file opened by an exporter holds before the first write: what
    it held, when it is opened for appending; nothing otherwise. *)
Definition kept (w : World) (path : string) (append : bool) : string :=
  if append && isfile w path then default "" (read w path) else "".

(** The export isolated the failures of the records of [items]: the call
    returned its counter, with one row tallied for each record that did not
    fail and one error for each record that failed, and one error line was
    logged for each failure. *)
Definition isolated (failed : list Exn) (written : list string) (message : Exn → string)
    (w w' : World) (result : Exc EventCounter) : Prop :=
  ∃ stats, result = Ok stats
    ∧ get_value stats "rows" = length written
    ∧ get_value stats "errors" = length failed
    ∧ errors_logged w' = (errors_logged w ++ (message <$> failed))%list.

(** The text went to the end of the file at [path], which held [before] when
    it was opened; the text went to standard output. *)
Definition written_to_file (w w' : World) (path before text : string) : Prop :=
  fs w' = <[ path := RegularFile (before ++ text) ]> (fs w) ∧ stdout w' = stdout w.

Definition written_to_stdout (w w' : World) (text : string) : Prop :=
  fs w' = fs w ∧ stdout w' = stdout w ++ text.

(** Writing a row and logging an error commute. *)
Definition commutes_with_error (emit : World → string → World) : Prop :=
  ∀ w msg text, emit (error w msg) text = error (emit w text) msg.

(** The export was refused: files and standard output are as they were, and
    the call returned a counter in which nothing is tallied. *)
Definition refused (w w' : World) (result : Exc EventCounter) : Prop :=
  fs w' = fs w ∧ stdout w' = stdout w
  ∧ ∃ stats, result = Ok stats ∧ ∀ category, get_value stats category = 0%nat.

End Rows.

(** Sample records and destinations for the exporter. *)

Module SampleExport.

Import EventCounter Exportable.

Definition crlf : string := String "013"%char (String "010"%char EmptyString).

(** A CSV writer that joins the cells by commas, without quoting. *)
Definition dictwriter_header (fields : list string) : string :=
  join "," fields ++ crlf.

Definition dictwriter_row (fields : list string) (row : list (string * Cell)) : Exc string :=
  if bool_decide (row.*1 ⊆ fields) then
    Ok (join "," ((λ key, default "" (str <$> dict_get row key)) <$> fields) ++ crlf)
  else Raise (mkExn ValueError "dict contains fields not in fieldnames").

(** A record with one column [n], and a record that cannot be rendered. *)
Definition numbered (n : Z) : Item :=
  mkItem (mkExportable (λ _, Ok (pretty n)) (Ok ["n"]) (Ok [("n", Some (CInt n))])
            (Ok (pretty n)))
         None.

Definition value_error : Exn := mkExn ValueError "cannot render".

Definition broken : Item :=
  mkItem (mkExportable (λ _, Raise value_error) (Ok ["n"]) (Raise value_error)
            (Raise value_error))
         None.

(** Five records, the third of which fails to render. *)
Definition five : AsyncIterable :=
  mkAsyncIterable [numbered 1; numbered 2; broken; numbered 4; numbered 5] None.

(** A world with no file, nothing printed and nothing logged, in which
    every path can be opened. *)
Definition empty_world : World := mkWorld ∅ "" [] ∅.

(** A world in which the file [out.json] exists, and can be opened. *)
Definition world_with_file : World :=
  mkWorld {[ "out.json" := RegularFile "old" ]} "" [] ∅.

Definition export := Exportable.export dictwriter_header dictwriter_row.
Definition export_csv := Exportable.export_csv dictwriter_header dictwriter_row.

End SampleExport.

(** ** Sequences that end early *)

Module Endings.

Import Exportable.

(** The sequence [iterable] without its end: the same records, then
    exhaustion. *)
Definition exhausted (iterable : AsyncIterable) : AsyncIterable :=
  mkAsyncIterable (yielded iterable) None.

(** The line logged for a sequence that ends by raising [err]. *)
Definition log_early_end (w : World) (err : Exn) : World :=
  if is_CancelledError err then debug w "Cancelled" else error w (exn_msg err).

End Endings.

(** ** Well-formed records *)

Module Records.

Import JSONExportable.

(** Pydantic keeps [model_fields_set] among the fields of the instance: every
    name in it has a value in the instance [__dict__], in the record and in
    the records nested in it. *)
Fixpoint fields_set_are_fields (m : Model) : bool :=
  match m with
  | mkModel _ d fs =>
      forallb (λ key, bool_decide (is_Some (dict_get d key))) (elements fs)
      && (fix nested (d : list (string * Value)) : bool :=
            match d with
            | [] => true
            | (_, VModel v) :: d' => fields_set_are_fields v && nested d'
            | _ :: d' => nested d'
            end) d
  end.

(** The number of records in a record, itself included. *)
Fixpoint model_size (m : Model) : nat :=
  match m with
  | mkModel _ d _ =>
      S ((fix nested (d : list (string * Value)) : nat :=
            match d with
            | [] => 0
            | (_, VModel v) :: d' => model_size v + nested d'
            | _ :: d' => nested d'
            end) d)
  end.

End Records.

(** ** The parameters of a dump ([_export_helper], [obj_db], [obj_src],
       [json_db], [json_src]) *)

Module ExportParams.

(** The dicts the code passes around are objects: the class-level
    [_exclude_export_DB_fields] is the same object in every call, and
    [params] holds a reference to it.  An object is a location of the heap. *)
Abbreviation Loc := positive.

(** A value held in [params] and in the keyword arguments: [None], a bool, or
    a dict ([TypeExcludeDict]), by reference. *)
Inductive Param :=
| PNone
| PBool (b : bool)
| PRef (l : Loc).

#[global] Instance Param_eq_dec : EqDecision Param.
Proof. solve_decision. Defined.

(** The dict objects: each from field name to value. *)
Abbreviation Heap := (gmap Loc (list (string * Param))).

Definition deref (h : Heap) (l : Loc) : list (string * Param) := default [] (h !! l).

(** A new dict object. *)
Definition alloc (h : Heap) (d : list (string * Param)) : Loc * Heap :=
  let l := fresh (dom h) in (l, <[ l := d ]> h).

(** [d.update(other)] for a dict [other]: the keys of [other] in their order. *)
Definition dict_update {K V} `{EqDecision K} (d other : list (K * V)) : list (K * V) :=
  foldl (λ d kv, dict_set d kv.1 kv.2) d other.

Definition type_name (p : Param) : string :=
  match p with PNone => "NoneType" | PBool _ => "bool" | PRef _ => "dict" end.

(** [obj.update]: the attribute lookup; only a dict has the method. *)
Definition update_method (obj : Param) : Exc Loc :=
  match obj with
  | PRef l => Ok l
  | _ => Raise (mkExn AttributeError
                  ("'" ++ type_name obj ++ "' object has no attribute 'update'"))
  end.

(** [d.update(arg)] on the dict at [l]: the dict is changed in place. *)
Definition update_dict (h : Heap) (l : Loc) (arg : Param) : Heap * Exc () :=
  match arg with
  | PRef l' => (<[ l := dict_update (deref h l) (deref h l') ]> h, Ok ())
  | _ => (h, Raise (mkExn TypeError ("'" ++ type_name arg ++ "' object is not iterable")))
  end.

Definition key_error (key : string) : Exn := mkExn KeyError ("'" ++ key ++ "'").

(** The body of the [try]: [params[f].update(kwargs[f])], then
    [del kwargs[f]].  The result is the heap and [kwargs] after it, and the
    exception raised, if any. *)
Definition merge_kwarg (h : Heap) (params kwargs : list (string * Param)) (f : string)
    : Heap * list (string * Param) * option Exn :=
  match dict_get params f with
  | None => (h, kwargs, Some (key_error f))
  | Some obj =>
      match update_method obj with
      | Raise e => (h, kwargs, Some e)
      | Ok l =>
          match dict_get kwargs f with
          | None => (h, kwargs, Some (key_error f))
          | Some arg =>
              match update_dict h l arg with
              | (h', Ok _) => (h', dict_del kwargs f, None)
              | (h', Raise e) => (h', kwargs, Some e)
              end
          end
      end
  end.

(** [{f: True for f in fields}] *)
Definition include_of (fields : list string) : list (string * Param) :=
  foldl (λ d f, dict_set d f (PBool true)) [] fields.

(** The [fields is not None] branch, the same in both versions of the helper. *)
Definition only_fields (h : Heap) (params : list (string * Param)) (fields : list string)
    : Heap * Exc (list (string * Param)) :=
  match dict_get params "exclude" with
  | None => (h, Raise (key_error "exclude"))
  | Some _ =>
      let params := dict_del params "exclude" in
      let '(l, h) := alloc h (include_of fields) in
      let params := dict_set params "include" (PRef l) in
      let params := dict_set params "exclude_defaults" (PBool false) in
      let params := dict_set params "exclude_unset" (PBool false) in
      let params := dict_set params "exclude_none" (PBool false) in
      (h, Ok params)
  end.

(** The result of a helper: the heap, the lines logged at level [DEBUG], and
    the value returned or the exception raised. *)
Definition Result (A : Type) : Type := Heap * list string * Exc A.

(** One of the two [if f in kwargs: try: ... except Exception as err: debug]
    of the helper of [pydantic_exportables]. *)
Definition merge_logged (f : string) (h : Heap) (params kwargs : list (string * Param))
    (log : list string) : Heap * list (string * Param) * list string :=
  if bool_decide (is_Some (dict_get kwargs f)) then
    match merge_kwarg h params kwargs f with
    | (h', kwargs', None) => (h', kwargs', log)
    | (h', kwargs', Some err) =>
        (h', kwargs', app log ["'" ++ f ++ "' caused an error: " ++ exn_msg err])
    end
  else (h, kwargs, log).

(** [_export_helper] of [pydantic_exportables] (lines 222-246) *)
Definition _export_helper (h : Heap) (params : list (string * Param))
    (fields : option (list string)) (kwargs : list (string * Param))
    : Result (list (string * Param)) :=
  match fields with
  | Some fields =>
      match only_fields h params fields with
      | (h', Ok params') => (h', [], Ok (dict_update params' kwargs))
      | (h', Raise e) => (h', [], Raise e)
      end
  | None =>
      let '(h, kwargs, log) := merge_logged "exclude" h params kwargs [] in
      let '(h, kwargs, log) := merge_logged "include" h params kwargs log in
      (h, log, Ok (dict_update params kwargs))
  end.

Module Pyutils.

(** One round of [for f in [...]: try: ... except: pass]. *)
Definition merge_silent (f : string) (h : Heap) (params kwargs : list (string * Param))
    : Heap * list (string * Param) :=
  (merge_kwarg h params kwargs f).1.

(** [_export_helper] of [pyutils] (lines 118-134) *)
Definition _export_helper (h : Heap) (params : list (string * Param))
    (fields : option (list string)) (kwargs : list (string * Param))
    : Heap * Exc (list (string * Param)) :=
  match fields with
  | Some fields =>
      match only_fields h params fields with
      | (h', Ok params') => (h', Ok (dict_update params' kwargs))
      | (h', Raise e) => (h', Raise e)
      end
  | None =>
      let '(h, kwargs) :=
        foldl (λ '(h, kwargs) f, merge_silent f h params kwargs) (h, kwargs)
          ["exclude"; "include"] in
      (h, Ok (dict_update params kwargs))
  end.

End Pyutils.

(** The class-level settings of a record class, the dicts by reference. *)
Record Settings := mkSettings {
  _exclude_export_DB_fields : Param;
  _exclude_export_src_fields : Param;
  _include_export_DB_fields : Param;
  _include_export_src_fields : Param;
  _export_DB_by_alias : bool;
  _exclude_defaults : bool;
  _exclude_unset : bool;
  _exclude_none : bool;
}.

Definition params_db (c : Settings) : list (string * Param) :=
  [("exclude", _exclude_export_DB_fields c);
   ("include", _include_export_DB_fields c);
   ("exclude_defaults", PBool (_exclude_defaults c));
   ("by_alias", PBool (_export_DB_by_alias c))].

Definition params_src (c : Settings) : list (string * Param) :=
  [("exclude", _exclude_export_src_fields c);
   ("include", _include_export_src_fields c);
   ("exclude_unset", PBool (_exclude_unset c));
   ("exclude_none", PBool (_exclude_none c));
   ("by_alias", PBool (negb (_export_DB_by_alias c)))].

(** The parameters of the four dumps of a class. *)
Definition class_params (c : Settings) (params : list (string * Param)) : Prop :=
  params = params_db c ∨ params = params_src c.

Section Dumps.

(** [self.model_dump] and [self.model_dump_json] of pydantic, for the record
    at hand, called with [params] as the keyword arguments: they read the
    heap. *)
Context {Obj : Type}.
Variable model_dump : Heap → list (string * Param) → Exc Obj.
Variable model_dump_json : Heap → list (string * Param) → Exc string.

(** The four dumps: [params] is handed to the helper, by keyword and with
    the keyword arguments [kwargs] of the caller, and its result to the dump.
    A keyword argument named [params] is one too many for the helper. *)
Definition dump_with {A} (dump : Heap → list (string * Param) → Exc A)
    (params : list (string * Param)) (h : Heap)
    (fields : option (list string)) (kwargs : list (string * Param)) : Result A :=
  if bool_decide (is_Some (dict_get kwargs "params")) then
    (h, [], Raise (mkExn TypeError
                     ("JSONExportable._export_helper() got multiple values for "
                      ++ "keyword argument 'params'")))
  else
    match _export_helper h params fields kwargs with
    | (h', log, Ok params') => (h', log, dump h' params')
    | (h', log, Raise e) => (h', log, Raise e)
    end.

(** [obj_db] (lines 285-293) *)
Definition obj_db (c : Settings) := dump_with model_dump (params_db c).

(** [obj_src] (lines 295-304) *)
Definition obj_src (c : Settings) := dump_with model_dump (params_src c).

(** [json_db] (lines 306-314) *)
Definition json_db (c : Settings) := dump_with model_dump_json (params_db c).

(** [json_src] (lines 316-325) *)
Definition json_src (c : Settings) := dump_with model_dump_json (params_src c).

End Dumps.

End ExportParams.

(** ** Parsing records from raw objects ([from_obj], [from_objs]) *)

Module Parsing.

Import JSONExportable.

(** [pydantic.ValidationError] *)
Definition ValidationError : ExnClass := Exception_other "ValidationError".

Definition is_ValidationError (e : Exn) : bool :=
  bool_decide (exn_class e = ValidationError).

Section Parsing.

(** The raw objects, and [model_validate] of the class of a given name. *)
Context {Obj : Type}.
Variable model_validate : string → Obj → Exc Model.

(** [from_obj] (lines 139-161).  [in_type] is the class to validate with,
    by its name. *)
Definition from_obj (c : Class) (obj : Obj) (in_type : option string)
    : list Event * Exc Value :=
  match in_type with
  | None =>
      match model_validate (__name__ c) obj with
      | Ok m => ([], Ok (VModel m))
      | Raise err =>
          if is_ValidationError err then
            ([Logged_error ("could not parse object as " ++ __name__ c);
              Logged_debug (exn_msg err)],
             Ok VNone)
          else ([], Raise err)
      end
  | Some in_name =>
      match model_validate in_name obj with
      | Ok obj_in => transform c (VModel obj_in)
      | Raise err =>
          if is_ValidationError err then
            ([Logged_error ("could not parse object (" ++ in_name ++ ") as " ++ __name__ c);
              Logged_debug (exn_msg err)],
             Ok VNone)
          else ([], Raise err)
      end
  end.

(** [from_objs] (lines 163-174) *)
Fixpoint from_objs (c : Class) (objs : list Obj) (in_type : option string)
    : list Event * Exc (list Value) :=
  match objs with
  | [] => ([], Ok [])
  | obj :: objs' =>
      match from_obj c obj in_type with
      | (ev, Raise e) => (ev, Raise e)
      | (ev, Ok out) =>
          match from_objs c objs' in_type with
          | (ev', Raise e) => (app ev ev', Raise e)
          | (ev', Ok outs) =>
              (app ev ev', Ok match out with VNone => outs | _ => out :: outs end)
          end
      end
  end.

End Parsing.

End Parsing.

(** ** Sample inputs for the edge cases *)

Module SampleEdges.

Import EventCounter Exportable SampleExport.

Definition cancelled : Exn := mkExn CancelledError "".

(** An empty sequence, a sequence cancelled after two records, and a
    sequence cancelled before its first record. *)
Definition nothing : AsyncIterable := mkAsyncIterable [] None.

Definition two_then_cancelled : AsyncIterable :=
  mkAsyncIterable [numbered 1; numbered 2] (Some cancelled).

Definition cancelled_at_once : AsyncIterable := mkAsyncIterable [] (Some cancelled).

(** A world in which the directory [nodir] is missing: [open] raises
    [FileNotFoundError], an [OSError], at [nodir/out.json]. *)
Definition no_such_directory : Exn :=
  mkExn OSError "[Errno 2] No such file or directory: 'nodir/out.json'".

Definition world_without_directory : World :=
  mkWorld ∅ "" [] {[ "nodir/out.json" := no_such_directory ]}.

(** A world in which [out.json] is a directory. *)
Definition world_with_directory : World :=
  mkWorld {[ "out.json" := Directory ]} "" [] ∅.

(** A record whose row has no value in the column [note]. *)
Definition with_gap : Exportable :=
  mkExportable (λ _, Ok "1") (Ok ["n"; "note"]) (Ok [("n", Some (CInt 1)); ("note", None)])
    (Ok "1").

End SampleEdges.

Module SampleParams.

Import ExportParams.

(** A class with the field [secret] excluded from its DB dumps, in the dict
    at location 1; the caller holds a dict at location 2. *)
Definition with_exclude : Settings :=
  mkSettings (PRef 1) PNone PNone PNone true true true true.

(** The settings of the base class. *)
Definition base : Settings :=
  mkSettings PNone PNone PNone PNone true true true true.

Definition heap : gmap positive (list (string * Param)) :=
  {[ 1%positive := [("secret", PBool true)]; 2%positive := [("name", PBool true)] ]}.

(** A dump that shows the parameters it is given. *)
Definition show_params (h : gmap positive (list (string * Param)))
    (params : list (string * Param)) : Exc (list (string * Param)) :=
  Ok params.

End SampleParams.

Module SampleParsing.

Import JSONExportable Sample.

(** The class [Tank], with nothing registered. *)
Definition Tank : Class := mkClass "Tank" [].

(** Raw objects are integers: a tank is validated from its id, which is not
    negative; no other class validates anything. *)
Definition model_validate (name : string) (obj : Z) : Exc Model :=
  if decide (name = "Tank") then
    if decide (0 ≤ obj)%Z then Ok (tank obj "" ["id"])
    else Raise (mkExn Parsing.ValidationError "id: negative")
  else Raise (mkExn Parsing.ValidationError "no such class").

End SampleParsing.

(** * Properties *)

(** ** Dicts *)

Section DictFacts.

Context {K V : Type} `{EqDecision K}.
Implicit Types (d : list (K * V)) (k : K) (v : V).

Lemma dict_get_set_eq d k v : dict_get (dict_set d k v) k = Some v.
Proof.
  induction d as [|[k' v'] d IH]; simpl.
  - by rewrite decide_True.
  - destruct (decide (k' = k)) as [->|Hne]; simpl.
    + by rewrite decide_True.
    + by rewrite decide_False.
Qed.

Lemma dict_get_set_ne d k k' v : k ≠ k' → dict_get (dict_set d k v) k' = dict_get d k'.
Proof.
  intros Hne. induction d as [|[k0 v0] d IH]; simpl.
  - by rewrite decide_False.
  - destruct (decide (k0 = k)) as [->|Hne0]; simpl.
    + by rewrite !decide_False.
    + by rewrite IH.
Qed.

Lemma dict_get_Some_elem d k v : dict_get d k = Some v → (k, v) ∈ d.
Proof.
  induction d as [|[k0 v0] d IH]; simpl; [done|].
  destruct (decide (k0 = k)) as [->|Hne].
  - intros [= ->]. left.
  - intros Hd. right. by apply IH.
Qed.

Lemma dict_get_None d k : dict_get d k = None ↔ k ∉ d.*1.
Proof.
  induction d as [|[k0 v0] d IH]; simpl.
  - split; [intros _; apply not_elem_of_nil | done].
  - rewrite not_elem_of_cons. destruct (decide (k0 = k)) as [->|Hne].
    + split; [done | intros [? _]; done].
    + rewrite IH. split; [intros ?; split; done | intros [_ ?]; done].
Qed.

Lemma dict_get_is_Some d k : is_Some (dict_get d k) ↔ k ∈ d.*1.
Proof.
  rewrite <-not_eq_None_Some, dict_get_None.
  destruct (decide (k ∈ d.*1)); naive_solver.
Qed.

Lemma dict_get_NoDup d k v : NoDup d.*1 → (k, v) ∈ d → dict_get d k = Some v.
Proof.
  induction d as [|[k0 v0] d IH]; simpl.
  - intros _ Hin. by apply elem_of_nil in Hin.
  - rewrite NoDup_cons. intros [Hnot Hnd] Hin.
    apply elem_of_cons in Hin as [[= -> ->]|Hin].
    + by rewrite decide_True.
    + rewrite decide_False; [by apply IH|].
      intros ->. apply Hnot. apply list_elem_of_fmap. by exists (k, v).
Qed.

Lemma dict_set_keys d k v :
  (dict_set d k v).*1 = if decide (k ∈ d.*1) then d.*1 else (d.*1 ++ [k])%list.
Proof.
  induction d as [|[k0 v0] d IH].
  - done.
  - cbn [dict_set]. destruct (decide (k0 = k)) as [->|Hne].
    + rewrite !fmap_cons. cbn [fst]. rewrite decide_True; [done | left].
    + rewrite !fmap_cons, IH. cbn [fst].
      destruct (decide (k ∈ d.*1)) as [Hin|Hnin].
      * rewrite decide_True; [done | by right].
      * rewrite decide_False; [done|]. rewrite not_elem_of_cons. naive_solver.
Qed.

End DictFacts.

(** ** Records: [update] *)

Section UpdateFacts.

Import JSONExportable Merge.

Context {IdxType : Type} `{EqDecision IdxType}.
Variable index : Model → Exc IdxType.
Variable class_property : string → string → option (Model → Value → Model * Exc ()).

Lemma getattr_k_getattr {A} (self : Model) name (found : Value → A) (missing : Exn → A) :
  getattr_k self name found missing
  = match getattr self name with Ok v => found v | Raise e => missing e end.
Proof.
  unfold getattr_k, getattr. generalize (attribute_error self name). intros e.
  induction (dict self) as [|[k v] d IH]; simpl; [done|].
  by destruct (decide (k = name)).
Qed.

Lemma for_keys_ext body body' keys self updated :
  (∀ s u key, body s u key = body' s u key) →
  for_keys body keys self updated = for_keys body' keys self updated.
Proof.
  intros Hext. revert self updated.
  induction keys as [|key keys IH]; intros self updated; simpl; [done|].
  rewrite Hext. destruct (body' self updated key) as [s [u|e]]; [apply IH | done].
Qed.

(** [update] is its guard followed by the rounds of its loop. *)
Lemma update_unfold (self new : Model) (match_index : bool) :
  update index class_property self new match_index
  = match (if match_index then index_ne index self new else Ok false) with
    | Raise e => (self, Raise e)
    | Ok true => (self, Ok false)
    | Ok false =>
        for_keys (round index class_property match_index new)
          (elements (model_fields_set new)) self false
    end.
Proof.
  destruct new as [c d fs]. cbn [update].
  destruct (if match_index then _ else _) as [[|]|e]; [done| |done].
  apply for_keys_ext. intros s u key.
  rewrite getattr_k_getattr. unfold round.
  destruct (getattr (mkModel c d fs) key) as [[| | | |m]|e]; reflexivity.
Qed.

Lemma getattr_ext (s s' : Model) key :
  cls s' = cls s → dict_get (dict s') key = dict_get (dict s) key →
  getattr s' key = getattr s key.
Proof. unfold getattr, attribute_error. by intros -> ->. Qed.

Lemma getattr_dict_get (s s' : Model) key :
  getattr s' key = getattr s key → cls s' = cls s →
  dict_get (dict s') key = dict_get (dict s) key.
Proof.
  unfold getattr. intros Hg _.
  destruct (dict_get (dict s') key), (dict_get (dict s) key); congruence.
Qed.

Section Rounds.

Variable match_index : bool.
Variable b : Model.

#[local] Abbreviation round := (round index class_property match_index b).
#[local] Abbreviation merged_field := (merged_field index class_property match_index).
#[local] Abbreviation field_changed := (field_changed index class_property match_index).
#[local] Abbreviation field_merges := (field_merges index class_property match_index).

(** What one round does to the instance. *)
Lemma round_spec (s s1 : Model) (u : bool) (key : string) (r1 : Exc bool) :
  class_property (cls s) key = None →
  round s u key = (s1, r1) →
  cls s1 = cls s
  ∧ (∀ k, k ≠ key →
       getattr s1 k = getattr s k ∧ (k ∈ model_fields_set s1 ↔ k ∈ model_fields_set s))
  ∧ (∀ u1, r1 = Ok u1 →
       getattr s1 key = merged_field s b key
       ∧ (key ∈ model_fields_set s1 ↔ key ∈ model_fields_set s ∨ nested_pair s b key = None)
       ∧ (u1 = true ↔ u = true ∨ field_changed s b key = true))
  ∧ (field_merges s b key → returns r1).
Proof.
  intros Hprop Hround.
  assert (Hover : ∀ value,
    match _set_skip_validation class_property s key value with
    | (self', Ok _) => (self', Ok true)
    | (self', Raise e) => (self', Raise e)
    end = (mkModel (cls s) (dict_set (dict s) key value) ({[ key ]} ∪ model_fields_set s), Ok true)).
  { intros value. unfold _set_skip_validation. by rewrite Hprop. }
  assert (Hset : ∀ value fs,
    let s' := mkModel (cls s) (dict_set (dict s) key value) fs in
    cls s' = cls s ∧ getattr s' key = Ok value
    ∧ ∀ k, k ≠ key → getattr s' k = getattr s k).
  { intros value fs. cbn. split; [done|]. split.
    - unfold getattr. cbn. by rewrite dict_get_set_eq.
    - intros k Hk. apply getattr_ext; [done|]. cbn. by apply dict_get_set_ne. }
  unfold Merge.round in Hround. unfold Merge.merged_field, Merge.field_changed,
    Merge.field_merges, nested_pair.
  destruct (getattr b key) as [value|e] eqn:Hb.
  2:{ injection Hround as <- <-. repeat split; try done. }
  assert (Hcase : (∃ value' old, value = VModel value' ∧ getattr s key = Ok (VModel old))
                  ∨ ((s1, r1) = (mkModel (cls s) (dict_set (dict s) key value)
                                    ({[ key ]} ∪ model_fields_set s), Ok true)
                     ∧ match value with
                       | VModel _ => match getattr s key with
                                     | Ok (VModel _) | Raise _ => False
                                     | Ok _ => True
                                     end
                       | _ => True
                       end)
                  ∨ (∃ value' e, value = VModel value' ∧ getattr s key = Raise e
                                 ∧ (s1, r1) = (s, Raise e))).
  { destruct value as [| | | |value']; rewrite ?Hover in Hround;
      try (right; left; by split).
    destruct (getattr s key) as [[| | | |old]|e]; rewrite ?Hover in Hround;
      try (right; left; by split).
    - left. by exists value', old.
    - right. right. by exists value', e. }
  destruct Hcase as [(value' & old & -> & Hs)|[[Heq Hshape]|(value' & e & -> & Hs & Heq)]].
  - rewrite Hs in Hround |- *.
    destruct (update index class_property old value' match_index) as [old' rn] eqn:Hup.
    destruct (Hset (VModel old') (model_fields_set s)) as (Hcls & Hkey & Hother).
    assert (s1 = store_nested s key old') as ->
      by (destruct rn; by injection Hround as <- _).
    split; [done|]. split; [intros k Hk; split; [by apply Hother | done]|].
    split.
    + intros u1 ->. destruct rn as [changed|]; [|done]. injection Hround as <-.
      split; [done|]. split; [cbn; naive_solver|].
      cbn. destruct changed; naive_solver.
    + intros [changed Hret]. cbn in Hret. subst rn. injection Hround as <-. by eexists.
  - injection Heq as -> ->.
    destruct (Hset value ({[ key ]} ∪ model_fields_set s)) as (Hcls & Hkey & Hother).
    assert (Hnone : match value with
                    | VModel value0 =>
                        match getattr s key with
                        | Ok (VModel old) => Some (old, value0)
                        | _ => None
                        end
                    | _ => None
                    end = None).
    { destruct value as [| | | |value']; try done.
      by destruct (getattr s key) as [[| | | |old]|]. }
    split; [done|]. split.
    { intros k Hk. split; [by apply Hother|]. cbn. set_solver. }
    split.
    + intros u1 [= <-]. rewrite Hnone. split; [done|]. split; [cbn; set_solver | naive_solver].
    + intros _. by eexists.
  - injection Heq as -> ->. rewrite Hs. repeat split; try done.
Qed.

(** The specification of a field depends on the instance through the value
    of that field only. *)
Lemma field_spec_ext (s s' : Model) key :
  getattr s' key = getattr s key →
  merged_field s' b key = merged_field s b key
  ∧ nested_pair s' b key = nested_pair s b key
  ∧ field_changed s' b key = field_changed s b key
  ∧ (field_merges s' b key ↔ field_merges s b key).
Proof.
  intros Hg. unfold Merge.merged_field, Merge.field_changed, Merge.field_merges, nested_pair.
  by rewrite Hg.
Qed.

(** What the loop does to the instance. *)
Lemma for_keys_spec (keys : list string) :
  NoDup keys →
  ∀ (s s' : Model) (u : bool) (r : Exc bool),
  (∀ key, key ∈ keys → class_property (cls s) key = None) →
  for_keys round keys s u = (s', r) →
  cls s' = cls s
  ∧ (∀ k, k ∉ keys →
       getattr s' k = getattr s k ∧ (k ∈ model_fields_set s' ↔ k ∈ model_fields_set s))
  ∧ (∀ u', r = Ok u' →
       (∀ key, key ∈ keys →
          getattr s' key = merged_field s b key
          ∧ (key ∈ model_fields_set s' ↔ key ∈ model_fields_set s ∨ nested_pair s b key = None))
       ∧ (u' = true ↔ u = true ∨ ∃ key, key ∈ keys ∧ field_changed s b key = true))
  ∧ ((∀ key, key ∈ keys → field_merges s b key) → returns r).
Proof.
  induction 1 as [|key keys Hnotin Hnodup IH]; intros s s' u r Hprop Hloop.
  - injection Hloop as <- <-. split; [done|]. split; [done|]. split.
    + intros u' [= <-]. split; [intros key Hin; by apply elem_of_nil in Hin|].
      split; [by left | intros [?|(key & Hin & _)]; [done | by apply elem_of_nil in Hin]].
    + intros _. by eexists.
  - cbn [for_keys] in Hloop.
    destruct (round s u key) as [s1 r1] eqn:Hround.
    apply round_spec in Hround as (Hcls1 & Hother1 & Hkey1 & Hret1); [|apply Hprop; left].
    destruct r1 as [u1|e].
    + apply IH in Hloop as (Hcls & Hother & Hkeys & Hret).
      2:{ intros k Hk. rewrite Hcls1. apply Hprop. by right. }
      destruct (Hkey1 u1 eq_refl) as (Hval1 & Hset1 & Hu1).
      assert (Hsame : ∀ k, k ∈ keys → getattr s1 k = getattr s k).
      { intros k Hk. apply Hother1. by intros ->. }
      split; [congruence|]. split.
      { intros k Hk. apply not_elem_of_cons in Hk as [Hne Hk].
        destruct (Hother k Hk) as [-> ->]. by apply Hother1. }
      split.
      * intros u' ->. destruct (Hkeys u' eq_refl) as [Hfields Hu']. split.
        -- intros k Hk. apply elem_of_cons in Hk as [->|Hk].
           ++ destruct (Hother key Hnotin) as [-> ->]. done.
           ++ destruct (Hfields k Hk) as [-> ->].
              destruct (field_spec_ext s s1 k (Hsame k Hk)) as (-> & -> & _).
              split; [done|]. destruct (Hother1 k) as [_ ->]; [by intros ->|done].
        -- rewrite Hu', Hu1. split.
           ++ intros [[?|?]|(k & Hk & Hch)]; [by left | right; exists key; split; [left|done] |].
              right. exists k. split; [by right|].
              by destruct (field_spec_ext s s1 k (Hsame k Hk)) as (_ & _ & <- & _).
           ++ intros [?|(k & Hk & Hch)]; [by left; left|].
              apply elem_of_cons in Hk as [->|Hk]; [by left; right|].
              right. exists k. split; [done|].
              by destruct (field_spec_ext s s1 k (Hsame k Hk)) as (_ & _ & -> & _).
      * intros Hall. apply Hret. intros k Hk.
        destruct (field_spec_ext s s1 k (Hsame k Hk)) as (_ & _ & _ & ->).
        apply Hall. by right.
    + injection Hloop as <- <-. split; [done|]. split.
      { intros k Hk. apply not_elem_of_cons in Hk as [Hne Hk]. by apply Hother1. }
      split; [done|]. intros Hall. apply Hret1, Hall. left.
Qed.

End Rounds.

End UpdateFacts.

(** ** Records: the claims on [update], [__hash__] and [transform] *)

Section RecordClaims.

Import JSONExportable Merge.

Context {IdxType : Type} `{EqDecision IdxType}.
Variable index : Model → Exc IdxType.
Variable class_property : string → string → option (Model → Value → Model * Exc ()).

(** C2.  Merge identity guard: when the identities of [a] and [b] differ,
    [a.update(b, match_index=True)] returns [False], raises nothing and
    leaves [a] as it is. *)
Theorem merge_identity_guard (a b : Model) (i j : IdxType) :
  index a = Ok i → index b = Ok j → i ≠ j →
  update index class_property a b true = (a, Ok false).
Proof.
  intros Ha Hb Hne. rewrite update_unfold. unfold index_ne. rewrite Ha, Hb.
  by rewrite bool_decide_eq_true_2.
Qed.

(** C3, as amended.  Merge asymmetry: for [a] and [b] with the same identity,
    after [a.update(b)] every field unset on [b] is as it was on [a], whether
    the call returns or raises; when the call returns, every field set on [b]
    holds the value of [b], or, when both sides hold nested records, the
    nested record of [a] merged with the one of [b], and the call reports a
    change exactly when some field was overwritten or some nested merge
    reported a change; the call returns when every round of its loop does. *)
Theorem merge_asymmetry (match_index : bool) (a b a' : Model) (r : Exc bool) :
  same_identity index a b →
  (∀ key, key ∈ model_fields_set b → class_property (cls a) key = None) →
  update index class_property a b match_index = (a', r) →
  (∀ key, key ∉ model_fields_set b →
     getattr a' key = getattr a key
     ∧ (key ∈ model_fields_set a' ↔ key ∈ model_fields_set a))
  ∧ (∀ changed, r = Ok changed →
       (∀ key, key ∈ model_fields_set b →
          getattr a' key = merged_field index class_property match_index a b key
          ∧ (key ∈ model_fields_set a'
             ↔ key ∈ model_fields_set a ∨ nested_pair a b key = None))
       ∧ (changed = true
          ↔ ∃ key, key ∈ model_fields_set b
                   ∧ field_changed index class_property match_index a b key = true))
  ∧ ((∀ key, key ∈ model_fields_set b →
        field_merges index class_property match_index a b key) → returns r).
Proof.
  intros (i & Ha & Hb) Hprop. rewrite update_unfold.
  assert ((if match_index then index_ne index a b else Ok false) = Ok false) as ->.
  { destruct match_index; [|done]. unfold index_ne. rewrite Ha, Hb.
    by rewrite bool_decide_eq_false_2; [|intros Hne; apply Hne]. }
  intros Hloop. apply for_keys_spec in Hloop as (_ & Hother & Hkeys & Hret).
  - split; [intros key Hkey; apply Hother; by rewrite elem_of_elements|].
    split.
    + intros changed ->. destruct (Hkeys changed eq_refl) as [Hfields Hch]. split.
      * intros key Hkey. apply Hfields. by rewrite elem_of_elements.
      * rewrite Hch. split.
        -- intros [?|(key & Hkey & ?)]; [done|]. exists key. by rewrite <-elem_of_elements.
        -- intros (key & Hkey & ?). right. exists key. by rewrite elem_of_elements.
    + intros Hall. apply Hret. intros key Hkey. apply Hall. by rewrite <-elem_of_elements.
  - apply NoDup_elements.
  - intros key Hkey. apply Hprop. by rewrite <-elem_of_elements.
Qed.

Variable hash_index : IdxType → Z.
Variable hash_int : Z → Z.

(** C8.  No identity: for a record [self] whose class defines no index, the
    [index] property raises [NotImplementedError]; [__hash__] of
    [pydantic_exportables] falls back by itself to the hash of the identity
    of the object, [__hash__] of [pyutils] raises [NotImplementedError], and
    a merge by identity with [self] on either side raises
    [NotImplementedError] and changes nothing. *)
Theorem no_identity_condition (self other : Model) (id_self : Z) :
  index self = base_index self →
  exn_class not_implemented = NotImplementedError
  ∧ __hash__ index hash_index hash_int self id_self = Ok (hash_int id_self)
  ∧ Exportable.__hash__ hash_index (index self) = Raise not_implemented
  ∧ update index class_property self other true = (self, Raise not_implemented)
  ∧ (returns (index other) →
     update index class_property other self true = (other, Raise not_implemented)).
Proof.
  intros Hbase. unfold base_index in Hbase. split; [done|]. split.
  { unfold __hash__. by rewrite Hbase. }
  split; [by rewrite Hbase|]. split.
  - rewrite update_unfold. unfold index_ne. by rewrite Hbase.
  - intros [i Hi]. rewrite update_unfold. unfold index_ne. by rewrite Hi, Hbase.
Qed.

(** C10.  [transform] on an object whose type is the class itself returns
    that object, calls no registered function and logs nothing, whatever the
    register of the class holds, also when a function is registered for the
    class itself. *)
Theorem transform_same_class (c : Class) (in_obj : Value) :
  type in_obj = TClass (__name__ c) →
  transform c in_obj = ([], Ok in_obj)
  ∧ ∀ method,
      transform (register_transformation c (TClass (__name__ c)) method) in_obj
      = ([], Ok in_obj).
Proof.
  intros Htype. split.
  - unfold transform. by rewrite decide_True.
  - intros method. unfold transform. cbn. by rewrite decide_True.
Qed.

End RecordClaims.

(** ** Keyed collections *)

Section RootDictFacts.

Import JSONExportable JSONExportableRootDict View.

Context {IdxType : Type} `{Countable IdxType}.
Variable key_le : relation IdxType.
Context `{!RelDecision key_le}.
Variable str : IdxType → string.
Variable index : Model → Exc IdxType.
Variable class_property : string → string → option (Model → Value → Model * Exc ()).
Variable model_ne : Model → Model → bool.

#[local] Abbreviation RootDict := (RootDict IdxType).
#[local] Abbreviation update := (update key_le str index class_property model_ne).
#[local] Abbreviation differ := (differ str model_ne).

Lemma iter_Permutation (self : RootDict) : __iter__ key_le self ≡ₚ keys self.
Proof.
  unfold __iter__, sorted. destruct (_sorted self); [|done].
  apply merge_sort_Permutation.
Qed.

Lemma elem_of_iter (self : RootDict) key : key ∈ __iter__ key_le self ↔ key ∈ keys self.
Proof. by rewrite iter_Permutation. Qed.

Lemma getitem_returns (self : RootDict) key :
  key ∈ keys self → returns (__getitem__ str self key).
Proof.
  intros Hin. apply dict_get_is_Some in Hin as [item Hitem].
  exists item. unfold __getitem__. by rewrite Hitem.
Qed.

Lemma set_comprehension_spec (cond : IdxType → Exc bool) (l : list IdxType) (s : gset IdxType) :
  set_comprehension cond l = Ok s →
  ∀ key, key ∈ s ↔ key ∈ l ∧ cond key = Ok true.
Proof.
  revert s. induction l as [|k l IH]; intros s; simpl.
  - intros [= <-] key. rewrite elem_of_nil. set_solver.
  - destruct (cond k) as [c|] eqn:Hc; [|done].
    destruct (set_comprehension cond l) as [s'|]; [|done].
    intros [= <-] key. specialize (IH s' eq_refl key).
    rewrite elem_of_cons. destruct c.
    + rewrite elem_of_union, elem_of_singleton, IH. split.
      * intros [->|[? ?]]; [by split; [left|] | by split; [right|]].
      * intros [[->|?] ?]; [by left | by right].
    + rewrite IH. split.
      * intros [? ?]. by split; [right|].
      * intros [[->|?] ?]; [congruence | done].
Qed.

Lemma update_records_root_keys (new : RootDict) match_index (l : list IdxType) :
  ∀ (self self' : RootDict) acc r,
  update_records str index class_property self new match_index l acc = (self', r) →
  keys self' = keys self.
Proof.
  induction l as [|k l IH]; intros self self' acc r; simpl.
  - by intros [= <- _].
  - unfold __getitem__ at 1. destruct (dict_get (root self) k) as [old|] eqn:Hold.
    2:{ by intros [= <- _]. }
    assert (Hkeys : keys (root_set self k
                     (JSONExportable.update index class_property old
                        (default old (dict_get (root new) k)) match_index).1) = keys self).
    { unfold keys, root_set. cbn. rewrite dict_set_keys.
      rewrite decide_True; [done|]. apply dict_get_is_Some. by eexists. }
    destruct (__getitem__ str new k) as [item|] eqn:Hitem; [|by intros [= <- _]].
    unfold __getitem__ in Hitem. destruct (dict_get (root new) k); [|done].
    injection Hitem as ->. cbn in Hkeys.
    destruct (JSONExportable.update index class_property old item match_index) as [old' [b|e]].
    + intros Hrec. apply IH in Hrec. by rewrite Hrec.
    + by intros [= <- _].
Qed.

Lemma update_records_spec (new : RootDict) match_index (l : list IdxType) :
  ∀ (self self' : RootDict) acc s,
  update_records str index class_property self new match_index l acc = (self', Ok s) →
  s = acc ∪ list_to_set l.
Proof.
  induction l as [|k l IH]; intros self self' acc s; simpl.
  - intros [= _ <-]. set_solver.
  - destruct (__getitem__ str self k) as [old|]; [|done].
    destruct (__getitem__ str new k) as [item|]; [|done].
    destruct (JSONExportable.update index class_property old item match_index) as [old' [b|e]];
      [|done].
    intros Hrec. apply IH in Hrec. set_solver.
Qed.

(** The two sets [update] returns: [added] holds the keys of [new] that are
    not in [self], and [updated_idx] holds every key of both whose records
    differ, whatever the merge of the two records reported. *)
Lemma update_sets (self new self' : RootDict) match_index (added updated_idx : gset IdxType) :
  update self new match_index = (self', Ok (added, updated_idx)) →
  added = list_to_set (keys new) ∖ list_to_set (keys self)
  ∧ (∀ key, key ∈ updated_idx
            ↔ key ∈ keys new ∧ key ∈ keys self ∧ differ self new key = Ok true)
  ∧ added ## updated_idx
  ∧ added ∪ updated_idx ⊆ list_to_set (keys new).
Proof.
  unfold JSONExportableRootDict.update.
  destruct (set_comprehension _ _) as [updated|] eqn:Hcomp; [|done].
  destruct (update_records _ _ _ _ _ _ _ _) as [self1 [s|]] eqn:Hrec; [|done].
  destruct (add_records _ _ _ _) as [self2 [[]|]]; [|done].
  intros [= _ <- <-].
  apply update_records_spec in Hrec. subst s.
  pose proof (set_comprehension_spec _ _ _ Hcomp) as Hupd.
  assert (Hin : ∀ key, key ∈ (∅ : gset IdxType) ∪ list_to_set (elements updated)
                       ↔ key ∈ keys new ∧ key ∈ keys self ∧ differ self new key = Ok true).
  { intros key. rewrite elem_of_union, elem_of_list_to_set, elem_of_elements, Hupd.
    rewrite elem_of_elements, elem_of_intersection, !elem_of_list_to_set, !elem_of_iter.
    set_solver. }
  assert (Hadded : (list_to_set (__iter__ key_le new) : gset IdxType)
                   ∖ list_to_set (__iter__ key_le self)
                   = list_to_set (keys new) ∖ list_to_set (keys self)).
  { apply set_eq. intros key.
    by rewrite !elem_of_difference, !elem_of_list_to_set, !elem_of_iter. }
  rewrite Hadded. split; [done|]. split; [done|]. split.
  - intros key. rewrite Hin, elem_of_difference, !elem_of_list_to_set. naive_solver.
  - intros key. rewrite elem_of_union, Hin, elem_of_difference, !elem_of_list_to_set.
    naive_solver.
Qed.

(** The whole-collection JSON text has one entry for each pair of the
    backing dict, in the order of the dict. *)
Lemma json_entries_storage_order (render : Model → Exc string) (text : Model → string)
    (entries : list (IdxType * Model)) :
  (∀ value, value ∈ entries.*2 → render value = Ok (text value)) →
  json_entries str render entries
  = Ok ((λ '(key, value), json_entry str key (text value)) <$> entries).
Proof.
  induction entries as [|[key value] entries IH]; intros Hrender; [done|].
  cbn [json_entries]. rewrite Hrender; [|left]. cbn [exc_bind].
  rewrite IH; [done|]. intros v Hv. apply Hrender. by right.
Qed.

Lemma omap_dict_get_items (whole d : list (IdxType * Model)) :
  (∀ key value, (key, value) ∈ d → dict_get whole key = Some value) →
  omap (λ key, (λ value, (key, value)) <$> dict_get whole key) d.*1 = d.
Proof.
  induction d as [|[key value] d IH]; intros Hget; [done|].
  rewrite fmap_cons. cbn [omap list_omap fst]. rewrite (Hget key value); [|left].
  cbn. f_equal. apply IH. intros k v Hin. apply Hget. by right.
Qed.

Lemma items_in_iteration_order_storage (self : RootDict) :
  NoDup (keys self) → __iter__ key_le self = keys self →
  items_in_iteration_order key_le self = root self.
Proof.
  unfold items_in_iteration_order. intros Hnodup ->.
  apply omap_dict_get_items. intros key value. by apply dict_get_NoDup.
Qed.

End RootDictFacts.

Section RootDictClaims.

Import JSONExportable JSONExportableRootDict View.

Context {IdxType : Type} `{Countable IdxType}.
Variable key_le : relation IdxType.
Context `{!RelDecision key_le}.
Variable str : IdxType → string.


End RootDictClaims.

Section SampleDictFacts.

Import JSONExportable JSONExportableRootDict View Sample SampleDict.

(** C1, at a failing input.  [named] and [unset] are collections of the
    class [JSONExportableRootDict[int, Tank]], whose records are kept as
    tanks: [named] holds a tank named [x] under key 0, [unset] holds under
    key 0 a tank on which no field was set.  The two records differ, their
    merge reports no change and leaves the record as it is, and [update]
    returns key 0 among the updated keys. *)
Theorem update_reports_unchanged_key :
  let old := tank 0 "x" ["name"] in
  let new := tank 0 "" [] in
  model_ne new old = true
  ∧ JSONExportable.update index no_property old new true = (old, Ok false)
  ∧ update named unset true = (named, Ok (∅, {[ 0%Z ]})).
Proof. split; [|split]; vm_compute; reflexivity. Qed.



End SampleDictFacts.

(** ** The exporter: counters, destinations and the loop over the records *)

Section ExporterFacts.

Import EventCounter Exportable Rows.

Lemma string_app_assoc (a b c : string) : (a ++ b) ++ c = a ++ b ++ c.
Proof.
  induction a as [|x a IH]; [done|].
  change (String x ((a ++ b) ++ c) = String x (a ++ b ++ c)). by rewrite IH.
Qed.

Lemma string_app_empty_r (a : string) : a ++ "" = a.
Proof.
  induction a as [|x a IH]; [done|].
  change (String x (a ++ "") = String x a). by rewrite IH.
Qed.

Lemma get_value_new name category : get_value (EventCounter.new name) category = 0%nat.
Proof. unfold get_value. cbn. by rewrite lookup_empty. Qed.

Lemma get_value_log (stats : EventCounter) (category category' : string) :
  get_value (log stats category) category'
  = if decide (category = category') then S (get_value stats category')
    else get_value stats category'.
Proof.
  unfold get_value, log. cbn. destruct (decide (category = category')) as [->|Hne].
  - by rewrite lookup_insert_eq.
  - by rewrite lookup_insert_ne.
Qed.

Lemma get_value_merge_child (stats child : EventCounter) (category : string) :
  get_value (merge_child stats child) category
  = (get_value stats category + get_value child category)%nat.
Proof.
  unfold get_value, merge_child. cbn. rewrite lookup_union_with.
  destruct (tallies stats !! category), (tallies child !! category); cbn; lia.
Qed.

Lemma errors_logged_error (w : World) msg :
  errors_logged (error w msg) = (errors_logged w ++ [msg])%list.
Proof. unfold errors_logged, error. cbn. by rewrite omap_app. Qed.

Lemma errors_logged_debug (w : World) msg : errors_logged (debug w msg) = errors_logged w.
Proof. unfold errors_logged, debug. cbn. rewrite omap_app. cbn. by rewrite app_nil_r. Qed.

Lemma errors_logged_foldl_error (w : World) (msgs : list string) :
  errors_logged (foldl error w msgs) = (errors_logged w ++ msgs)%list.
Proof.
  revert w. induction msgs as [|msg msgs IH]; intros w; cbn.
  - by rewrite app_nil_r.
  - by rewrite IH, errors_logged_error, <-List.app_assoc.
Qed.

Lemma foldl_error_unchanged (w : World) (msgs : list string) :
  fs (foldl error w msgs) = fs w ∧ stdout (foldl error w msgs) = stdout w.
Proof.
  revert w. induction msgs as [|msg msgs IH]; intros w; [done|].
  cbn. by destruct (IH (error w msg)) as [-> ->].
Qed.

Lemma write_commutes path (wrap : string → string) :
  commutes_with_error (λ w text, write path w (wrap text)).
Proof. intros w msg text. unfold write, error. cbn. by destruct (fs w !! path) as [[|]|]. Qed.

Lemma print_commutes : commutes_with_error print.
Proof. by intros w msg text. Qed.

Lemma foldl_emit_error emit (w : World) msg (texts : list string) :
  commutes_with_error emit →
  foldl emit (error w msg) texts = error (foldl emit w texts) msg.
Proof.
  intros Hcomm. revert w. induction texts as [|text texts IH]; intros w; [done|].
  cbn. by rewrite Hcomm, IH.
Qed.

(** The rows written to a file go to its end, one after the other. *)
Lemma foldl_write path (wrap : string → string) (texts : list string) :
  ∀ (w : World) content,
  fs w !! path = Some (RegularFile content) →
  let w' := foldl (λ w text, write path w (wrap text)) w texts in
  fs w' = <[ path := RegularFile (content ++ written wrap texts) ]> (fs w)
  ∧ stdout w' = stdout w ∧ logged w' = logged w.
Proof.
  induction texts as [|text texts IH]; intros w content Hfile; cbn.
  - rewrite string_app_empty_r. by rewrite insert_id.
  - destruct (IH (write path w (wrap text)) (content ++ wrap text)) as (Hfs & Hout & Hlog).
    { unfold write. rewrite Hfile. cbn. by rewrite lookup_insert_eq. }
    rewrite Hfs, Hout, Hlog. unfold write. rewrite Hfile. cbn.
    by rewrite insert_insert_eq, !string_app_assoc.
Qed.

Lemma foldl_print (texts : list string) :
  ∀ w : World,
  let w' := foldl print w texts in
  fs w' = fs w ∧ stdout w' = stdout w ++ lines newline texts ∧ logged w' = logged w.
Proof.
  induction texts as [|text texts IH]; intros w; cbn.
  - by rewrite string_app_empty_r.
  - destruct (IH (print w text)) as (-> & -> & ->). cbn. by rewrite !string_app_assoc.
Qed.

(** The loop over the records isolates every failure its [except] clause
    catches: it goes through all the records, writes the rows of those that
    do not fail in the order of the input, and logs and tallies one error for
    each of the others. *)
Lemma export_rows_isolated caught message render emit (items : list Item) :
  commutes_with_error emit →
  Forall (λ err, caught err = true) (failures render items) →
  ∀ (w : World) (stats : EventCounter),
  ∃ stats',
    export_rows caught message render emit items w stats
    = (foldl error (foldl emit w (rows render items)) (message <$> failures render items),
       stats', None)
    ∧ get_value stats' "rows" = (get_value stats "rows" + length (rows render items))%nat
    ∧ get_value stats' "errors"
      = (get_value stats "errors" + length (failures render items))%nat.
Proof.
  intros Hcomm. induction items as [|item items IH]; intros Hcaught w stats.
  - exists stats. cbn. by rewrite !Nat.add_0_r.
  - cbn [export_rows]. unfold rows, failures in *. cbn [omap list_omap] in *.
    fold (outcome render item) in *.
    destruct (outcome render item) as [text|err] eqn:Hout.
    + destruct (IH Hcaught (emit w text) (log stats "rows")) as (stats' & -> & Hrows & Herrs).
      exists stats'. split; [done|]. rewrite Hrows, Herrs, !get_value_log.
      split; repeat case_decide; try done; cbn; lia.
    + apply Forall_cons in Hcaught as [-> Hcaught].
      destruct (IH Hcaught (error w (message err)) (log stats "errors"))
        as (stats' & -> & Hrows & Herrs).
      exists stats'. split.
      * cbn. by rewrite foldl_emit_error.
      * rewrite Hrows, Herrs, !get_value_log.
        split; repeat case_decide; try done; cbn; lia.
Qed.

End ExporterFacts.

Section ExporterLoops.

Import EventCounter Exportable Rows.

Lemma open_spec (w : World) path append :
  let w' := opened w path (open_mode w path append) in
  fs w' = <[ path := RegularFile (kept w path append) ]> (fs w)
  ∧ stdout w' = stdout w ∧ logged w' = logged w.
Proof.
  unfold open_mode, kept, opened, isfile, read.
  destruct append; cbn; [|done].
  destruct (fs w !! path) as [[content|]|] eqn:Hfile; cbn; [|done..].
  by rewrite insert_id.
Qed.

(** A destination that is accepted is no directory. *)
Lemma cannot_export_not_directory (w : World) path force append :
  cannot_export w path force append = false → fs w !! path ≠ Some Directory.
Proof.
  unfold cannot_export, exists_, isfile. intros Hcan Hdir. rewrite Hdir in Hcan.
  by rewrite bool_decide_eq_true_2 in Hcan by (by eexists).
Qed.

(** [open] at an accepted destination: it succeeds unless the path cannot be
    opened. *)
Lemma open_accepted (w : World) path force append mode :
  cannot_export w path force append = false →
  open w path mode
  = match unopenable w !! path with
    | Some err => Raise err
    | None => Ok (opened w path mode)
    end.
Proof.
  intros Hcan%cannot_export_not_directory. unfold open.
  destruct (unopenable w !! path); [done|]. by destruct (fs w !! path) as [[|]|].
Qed.

Lemma errors_logged_ext (w w' : World) : logged w' = logged w → errors_logged w' = errors_logged w.
Proof. unfold errors_logged. by intros ->. Qed.

(** The loop over the whole sequence, writing to the file at [path]. *)
Lemma async_for_file caught message render (wrap : string → string) path
    (iterable : AsyncIterable) (w : World) (stats : EventCounter) content :
  ending iterable = None →
  Forall (λ err, caught err = true) (failures render (yielded iterable)) →
  fs w !! path = Some (RegularFile content) →
  ∃ w' stats',
    async_for caught message render (λ w text, write path w (wrap text)) iterable w stats
    = (w', stats', None)
    ∧ fs w' = <[ path := RegularFile (content ++ written wrap (rows render (yielded iterable))) ]>
                (fs w)
    ∧ stdout w' = stdout w
    ∧ errors_logged w'
      = (errors_logged w ++ (message <$> failures render (yielded iterable)))%list
    ∧ get_value stats' "rows"
      = (get_value stats "rows" + length (rows render (yielded iterable)))%nat
    ∧ get_value stats' "errors"
      = (get_value stats "errors" + length (failures render (yielded iterable)))%nat.
Proof.
  intros Hend Hcaught Hfile. unfold async_for.
  destruct (export_rows_isolated caught message render _ (yielded iterable)
              (write_commutes path wrap) Hcaught w stats) as (stats' & -> & Hrows & Herrs).
  rewrite Hend. eexists _, stats'. split; [done|].
  destruct (foldl_write path wrap (rows render (yielded iterable)) w content Hfile)
    as (Hfs & Hout & Hlog).
  destruct (foldl_error_unchanged
              (foldl (λ w text, write path w (wrap text)) w (rows render (yielded iterable)))
              (message <$> failures render (yielded iterable))) as [-> ->].
  rewrite errors_logged_foldl_error, (errors_logged_ext w _ Hlog). done.
Qed.

(** The loop over the whole sequence, printing on standard output. *)
Lemma async_for_stdout caught message render (iterable : AsyncIterable) (w : World)
    (stats : EventCounter) :
  ending iterable = None →
  Forall (λ err, caught err = true) (failures render (yielded iterable)) →
  ∃ w' stats',
    async_for caught message render print iterable w stats = (w', stats', None)
    ∧ fs w' = fs w
    ∧ stdout w' = stdout w ++ lines newline (rows render (yielded iterable))
    ∧ errors_logged w'
      = (errors_logged w ++ (message <$> failures render (yielded iterable)))%list
    ∧ get_value stats' "rows"
      = (get_value stats "rows" + length (rows render (yielded iterable)))%nat
    ∧ get_value stats' "errors"
      = (get_value stats "errors" + length (failures render (yielded iterable)))%nat.
Proof.
  intros Hend Hcaught. unfold async_for.
  destruct (export_rows_isolated caught message render _ (yielded iterable)
              print_commutes Hcaught w stats) as (stats' & -> & Hrows & Herrs).
  rewrite Hend. eexists _, stats'. split; [done|].
  destruct (foldl_print (rows render (yielded iterable)) w) as (Hfs & Hout & Hlog).
  destruct (foldl_error_unchanged (foldl print w (rows render (yielded iterable)))
              (message <$> failures render (yielded iterable))) as [-> ->].
  rewrite errors_logged_foldl_error, (errors_logged_ext w _ Hlog). done.
Qed.

(** The body of [export_json] and [export_txt] for a file. *)
Lemma to_file_isolated render (iterable : AsyncIterable) path force append (w : World) name :
  ending iterable = None →
  cannot_export w path force append = false →
  unopenable w !! path = None →
  Forall (λ err, is_Exception err = true) (failures render (yielded iterable)) →
  let r :=
    finish
      (if cannot_export w path force append then
         (w, EventCounter.new name, Some (file_exists_error path))
       else
         match open w path (open_mode w path append) with
         | Raise err => (w, EventCounter.new name, Some err)
         | Ok w =>
             async_for is_Exception exn_msg render (λ w text, write path w (text ++ linesep))
               iterable w (EventCounter.new name)
         end) in
  isolated (failures render (yielded iterable)) (rows render (yielded iterable)) exn_msg
    w r.1 r.2
  ∧ written_to_file w r.1 path (kept w path append)
      (lines linesep (rows render (yielded iterable))).
Proof.
  intros Hend Hcan Hopen Hcaught.
  rewrite (open_accepted w path force append _ Hcan), Hopen, Hcan.
  destruct (open_spec w path append) as (Hfs & Hout & Hlog).
  destruct (async_for_file is_Exception exn_msg render (λ row, row ++ linesep) path iterable
              (opened w path (open_mode w path append)) (EventCounter.new name)
              (kept w path append) Hend Hcaught)
    as (w' & stats' & -> & Hfs' & Hout' & Hlog' & Hrows & Herrs).
  { rewrite Hfs. apply lookup_insert_eq. }
  cbn. split.
  - exists stats'. rewrite Hrows, Herrs, !get_value_new, Hlog', (errors_logged_ext w _ Hlog).
    done.
  - split; [|congruence]. by rewrite Hfs', Hfs, insert_insert_eq.
Qed.

(** The body of [export_json] and [export_txt] for standard output. *)
Lemma to_stdout_isolated render (iterable : AsyncIterable) (w : World) name :
  ending iterable = None →
  Forall (λ err, is_Exception err = true) (failures render (yielded iterable)) →
  let r := finish (async_for is_Exception exn_msg render print iterable w
                     (EventCounter.new name)) in
  isolated (failures render (yielded iterable)) (rows render (yielded iterable)) exn_msg
    w r.1 r.2
  ∧ written_to_stdout w r.1 (lines newline (rows render (yielded iterable))).
Proof.
  intros Hend Hcaught.
  destruct (async_for_stdout is_Exception exn_msg render iterable w (EventCounter.new name)
              Hend Hcaught) as (w' & stats' & -> & Hfs' & Hout' & Hlog' & Hrows & Herrs).
  cbn. split; [|done].
  exists stats'. by rewrite Hrows, Herrs, !get_value_new, Hlog'.
Qed.

End ExporterLoops.

(** ** The exporter: the claims *)

Section ExporterClaims.

Import EventCounter Exportable Rows.

Variable dictwriter_header : list string → string.
Variable dictwriter_row : list string → list (string * Cell) → Exc string.

#[local] Abbreviation export_csv := (export_csv dictwriter_header dictwriter_row).
#[local] Abbreviation export := (export dictwriter_header dictwriter_row).
#[local] Abbreviation written_row := (written_row dictwriter_row).

Lemma export_csv_file_isolated (iterable : AsyncIterable) filename force append (w : World)
    first rest fields :
  filename ≠ "" → filename ≠ "-" → ending iterable = None →
  yielded iterable = first :: rest →
  csv_headers (exportable first) = Ok fields →
  let path := with_suffix filename "csv" in
  cannot_export w path force append = false →
  unopenable w !! path = None →
  Forall (λ err, is_Exception err = true) (failures (written_row fields) (yielded iterable)) →
  let r := export_csv iterable filename force append w in
  isolated (failures (written_row fields) (yielded iterable))
    (rows (written_row fields) (yielded iterable)) exn_msg w r.1 r.2
  ∧ written_to_file w r.1 path (kept w path append)
      ((if append && isfile w path then "" else dictwriter_header fields)
       ++ written id (rows (written_row fields) (yielded iterable))).
Proof.
  intros Hname Hfile Hend Hyield Hheaders path Hcan Hopen Hcaught.
  unfold Exportable.export_csv. rewrite decide_False by done.
  rewrite Hyield, Hheaders, decide_False by done. fold path.
  change (cannot_export (debug w "starting") path force append)
    with (cannot_export w path force append). rewrite Hcan.
  change (isfile (debug w "starting") path) with (isfile w path).
  change (open_mode (debug w "starting") path append) with (open_mode w path append).
  set (w1 := debug (debug w "starting") _).
  rewrite (open_accepted w1 path force append (open_mode w path append) Hcan).
  change (unopenable w1 !! path) with (unopenable w !! path). rewrite Hopen.
  destruct (open_spec w1 path append) as (Hfs & Hout & Hlog).
  change (kept w1 path append) with (kept w path append) in Hfs.
  change (open_mode w1 path append) with (open_mode w path append) in Hfs, Hout, Hlog.
  set (w2 := opened w1 path (open_mode w path append)) in *.
  set (header := if append && isfile w path then "" else dictwriter_header fields).
  set (w3 := if append && isfile w path then w2 else write path w2 (dictwriter_header fields)).
  assert (Hw3 : fs w3 = <[ path := RegularFile (kept w path append ++ header) ]> (fs w)
                ∧ stdout w3 = stdout w ∧ errors_logged w3 = errors_logged w).
  { assert (Hw2 : errors_logged w2 = errors_logged w).
    { rewrite (errors_logged_ext w1 w2 Hlog). unfold w1.
      by rewrite !errors_logged_debug. }
    unfold w3, header. destruct (append && isfile w path).
    - by rewrite string_app_empty_r.
    - unfold write. rewrite Hfs, lookup_insert_eq. cbn. by rewrite insert_insert_eq. }
  destruct Hw3 as (Hfs3 & Hout3 & Hlog3).
  rewrite <-Hyield.
  destruct (async_for_file is_Exception exn_msg (written_row fields) id path iterable
              w3 (EventCounter.new "CSV") (kept w path append ++ header) Hend Hcaught)
    as (w' & stats' & Hloop & Hfs' & Hout' & Hlog' & Hrows & Herrs).
  { rewrite Hfs3. apply lookup_insert_eq. }
  change (λ (w : World) (text : string), write path w (id text)) with (write path) in Hloop.
  rewrite Hloop. cbn. split.
  - exists stats'. by rewrite Hrows, Herrs, !get_value_new, Hlog', Hlog3.
  - split; [|congruence].
    by rewrite Hfs', Hfs3, insert_insert_eq, string_app_assoc.
Qed.

Lemma export_csv_stdout_isolated (iterable : AsyncIterable) force append (w : World)
    first rest fields :
  ending iterable = None →
  yielded iterable = first :: rest →
  csv_headers (exportable first) = Ok fields →
  Forall (λ err, is_KeyError err = true) (failures (stdout_row fields) (yielded iterable)) →
  let r := export_csv iterable "-" force append w in
  isolated (failures (stdout_row fields) (yielded iterable))
    (rows (stdout_row fields) (yielded iterable))
    (λ err, "CSVExportable object does not have field: " ++ exn_msg err) w r.1 r.2
  ∧ written_to_stdout w r.1
      (lines newline (join delimiter fields :: rows (stdout_row fields) (yielded iterable))).
Proof.
  intros Hend Hyield Hheaders Hcaught.
  unfold Exportable.export_csv. rewrite decide_False by done.
  rewrite Hyield, Hheaders, decide_True by done. rewrite <-Hyield.
  set (w1 := print (debug w "starting") (join delimiter fields)).
  destruct (async_for_stdout is_KeyError
              (λ err, "CSVExportable object does not have field: " ++ exn_msg err)
              (stdout_row fields) iterable w1 (EventCounter.new "CSV") Hend Hcaught)
    as (w' & stats' & -> & Hfs' & Hout' & Hlog' & Hrows & Herrs).
  cbn. split.
  - exists stats'. rewrite Hrows, Herrs, !get_value_new, errors_logged_debug, Hlog'.
    change (errors_logged w1) with (errors_logged (debug w "starting")).
    by rewrite errors_logged_debug.
  - unfold written_to_stdout. change (stdout (debug w' "export finished")) with (stdout w').
    split; [done|]. rewrite Hout'. unfold w1, lines. cbn. by rewrite !string_app_assoc.
Qed.

(** Row isolation, where the code keeps it.  For JSON and text exports, to a
    file or to standard output, and for CSV exports to a file: when the
    destination is accepted, the file can be opened and the sequence ends
    normally, every record whose rendering or writing raises an ordinary
    exception is logged and tallied as one error, the export goes on with
    the next record, and the rows of the records that do not fail are
    written in the order of the input.  The loop of a CSV export to
    standard output catches [KeyError] only: it does so for the records that
    lack a column of the header. *)
Lemma row_isolation (iterable : AsyncIterable) (filename : string) (force append : bool)
    (w : World) :
  filename ≠ "" → ending iterable = None →
  let items := yielded iterable in
  let ordinary := λ err, is_Exception err = true in
  (filename ≠ "-" →
   (let path := with_suffix filename "json" in
    cannot_export w path force append = false →
    unopenable w !! path = None →
    Forall ordinary (failures json_src items) →
    let r := export_json iterable filename force append w in
    isolated (failures json_src items) (rows json_src items) exn_msg w r.1 r.2
    ∧ written_to_file w r.1 path (kept w path append) (lines linesep (rows json_src items)))
   ∧ (let path := with_suffix filename "txt" in
      let render := λ e, txt_row e "" in
      cannot_export w path force append = false →
      unopenable w !! path = None →
      Forall ordinary (failures render items) →
      let r := export_txt iterable filename force append w in
      isolated (failures render items) (rows render items) exn_msg w r.1 r.2
      ∧ written_to_file w r.1 path (kept w path append) (lines linesep (rows render items)))
   ∧ (∀ first rest fields,
        items = first :: rest → csv_headers (exportable first) = Ok fields →
        let path := with_suffix filename "csv" in
        let render := written_row fields in
        cannot_export w path force append = false →
        unopenable w !! path = None →
        Forall ordinary (failures render items) →
        let r := export_csv iterable filename force append w in
        isolated (failures render items) (rows render items) exn_msg w r.1 r.2
        ∧ written_to_file w r.1 path (kept w path append)
            ((if append && isfile w path then "" else dictwriter_header fields)
             ++ written id (rows render items))))
  ∧ (Forall ordinary (failures json_src items) →
     let r := export_json iterable "-" force append w in
     isolated (failures json_src items) (rows json_src items) exn_msg w r.1 r.2
     ∧ written_to_stdout w r.1 (lines newline (rows json_src items)))
  ∧ (let render := λ e, txt_row e "rich" in
     Forall ordinary (failures render items) →
     let r := export_txt iterable "-" force append w in
     isolated (failures render items) (rows render items) exn_msg w r.1 r.2
     ∧ written_to_stdout w r.1 (lines newline (rows render items)))
  ∧ (∀ first rest fields,
       items = first :: rest → csv_headers (exportable first) = Ok fields →
       let render := stdout_row fields in
       Forall (λ err, is_KeyError err = true) (failures render items) →
       let r := export_csv iterable "-" force append w in
       isolated (failures render items) (rows render items)
         (λ err, "CSVExportable object does not have field: " ++ exn_msg err) w r.1 r.2
       ∧ written_to_stdout w r.1 (lines newline (join delimiter fields :: rows render items))).
Proof.
  intros Hname Hend items ordinary. split; [|split; [|split]].
  - intros Hfile. split; [|split].
    + intros path Hcan Hopen Hcaught. unfold export_json.
      rewrite !decide_False by done. by apply to_file_isolated.
    + intros path render Hcan Hopen Hcaught. unfold export_txt.
      rewrite !decide_False by done. by apply to_file_isolated.
    + intros first rest fields Hyield Hheaders path render Hcan Hopen Hcaught.
      by eapply export_csv_file_isolated.
  - intros Hcaught. unfold export_json. rewrite decide_False, decide_True by done.
    by apply to_stdout_isolated.
  - intros render Hcaught. unfold export_txt. rewrite decide_False, decide_True by done.
    by apply to_stdout_isolated.
  - intros first rest fields Hyield Hheaders render Hcaught.
    by eapply export_csv_stdout_isolated.
Qed.

Lemma finish_refused (w : World) (stats : EventCounter) path :
  finish (w, stats, Some (file_exists_error path))
  = (error w ("Cannot export to " ++ path), Ok stats).
Proof. done. Qed.

Lemma export_csv_refused (iterable : AsyncIterable) filename (w : World) :
  filename ≠ "" → filename ≠ "-" →
  exists_ w (with_suffix filename "csv") = true →
  let r := export_csv iterable filename false false w in
  fs r.1 = fs w ∧ stdout r.1 = stdout w
  ∧ (r.2 = Ok (EventCounter.new "CSV") ∨ ∃ err, is_Exception err = false ∧ r.2 = Raise err).
Proof.
  intros Hname Hfile Hexists. unfold Exportable.export_csv.
  rewrite decide_False by done.
  assert (Hexc : ∀ (w' : World) err,
    fs w' = fs w → stdout w' = stdout w →
    let r := except_exception (w', EventCounter.new "CSV", Some err) in
    fs r.1 = fs w ∧ stdout r.1 = stdout w
    ∧ (r.2 = Ok (EventCounter.new "CSV") ∨ ∃ err, is_Exception err = false ∧ r.2 = Raise err)).
  { intros w' err Hfs Hout. cbn. destruct (is_Exception err) eqn:Herr; cbn.
    - split; [done|]. split; [done|]. by left.
    - split; [done|]. split; [done|]. right. by exists err. }
  destruct (yielded iterable) as [|first rest].
  - destruct (ending iterable) as [err|]; [by apply Hexc|].
    cbn. split; [done|]. split; [done|]. by left.
  - destruct (csv_headers (exportable first)) as [fields|err]; [|by apply Hexc].
    rewrite decide_False by done.
    change (cannot_export (debug w "starting") (with_suffix filename "csv") false false)
      with (cannot_export w (with_suffix filename "csv") false false).
    assert (cannot_export w (with_suffix filename "csv") false false = true) as ->
      by (unfold cannot_export; by rewrite Hexists, orb_true_r).
    by apply Hexc.
Qed.

(** C5, as amended.  When the file an export would write to exists and
    neither [force] nor [append] is set, no file is written or changed and
    the call returns its counter with nothing tallied: the JSON and text
    exporters raise [FileExistsError] before the first record is read, catch
    it and log it; the CSV exporter does so once the first record has given
    its headers; [export] returns a counter with nothing tallied, and
    nothing is raised to the caller. *)
Theorem destination_exists (iterable : AsyncIterable) (filename : string) (w : World) :
  filename ≠ "" → filename ≠ "-" →
  (let path := with_suffix filename "json" in
   exists_ w path = true →
   export_json iterable filename false false w
   = (error w ("Cannot export to " ++ path), Ok (EventCounter.new "JSON")))
  ∧ (let path := with_suffix filename "txt" in
     exists_ w path = true →
     export_txt iterable filename false false w
     = (error w ("Cannot export to " ++ path), Ok (EventCounter.new "Text")))
  ∧ (let path := with_suffix filename "csv" in
     exists_ w path = true →
     (let r := export_csv iterable filename false false w in
      fs r.1 = fs w ∧ stdout r.1 = stdout w)
     ∧ ∀ first rest fields,
         yielded iterable = first :: rest → csv_headers (exportable first) = Ok fields →
         export_csv iterable filename false false w
         = (error (debug w "starting") ("Cannot export to " ++ path),
            Ok (EventCounter.new "CSV")))
  ∧ (∀ format,
       let resolved := resolve_format format filename in
       resolved ∈ EXPORT_FORMATS →
       exists_ w (with_suffix filename resolved) = true →
       let r := export iterable format filename false false w in
       refused w r.1 r.2).
Proof.
  intros Hname Hfile.
  assert (Hjson : exists_ w (with_suffix filename "json") = true →
    export_json iterable filename false false w
    = (error w ("Cannot export to " ++ with_suffix filename "json"),
       Ok (EventCounter.new "JSON"))).
  { intros Hexists. unfold export_json. rewrite !decide_False by done.
    unfold cannot_export. by rewrite Hexists, orb_true_r. }
  assert (Htxt : exists_ w (with_suffix filename "txt") = true →
    export_txt iterable filename false false w
    = (error w ("Cannot export to " ++ with_suffix filename "txt"),
       Ok (EventCounter.new "Text"))).
  { intros Hexists. unfold export_txt. rewrite !decide_False by done.
    unfold cannot_export. by rewrite Hexists, orb_true_r. }
  split; [done|]. split; [done|]. split.
  - intros path Hexists. split.
    + by destruct (export_csv_refused iterable filename w Hname Hfile Hexists) as (? & ? & _).
    + intros first rest fields Hyield Hheaders. unfold Exportable.export_csv.
      rewrite decide_False by done. rewrite Hyield, Hheaders, decide_False by done.
      change (cannot_export (debug w "starting") (with_suffix filename "csv") false false)
        with (cannot_export w path false false).
      unfold cannot_export. by rewrite Hexists, orb_true_r.
  - intros format resolved Hin Hexists. unfold Exportable.export. fold resolved.
    assert (Hzero : ∀ name category,
      get_value (merge_child (EventCounter.new "write") (EventCounter.new name)) category
      = 0%nat).
    { intros name category. by rewrite get_value_merge_child, !get_value_new. }
    unfold EXPORT_FORMATS in Hin. rewrite !elem_of_cons, elem_of_nil in Hin.
    destruct Hin as [Heq|[Heq|[Heq|[]]]]; rewrite Heq in Hexists |- *.
    + rewrite decide_True by done.
      assert (Hexists' : exists_ (debug w "starting") (with_suffix filename "txt") = true)
        by done.
      unfold export_txt. rewrite !decide_False by done.
      unfold cannot_export. rewrite Hexists', orb_true_r. cbn.
      split; [done|]. split; [done|]. eexists. split; [done|]. apply Hzero.
    + rewrite decide_False, decide_True by done.
      assert (Hexists' : exists_ (debug w "starting") (with_suffix filename "json") = true)
        by done.
      unfold export_json. rewrite !decide_False by done.
      unfold cannot_export. rewrite Hexists', orb_true_r. cbn.
      split; [done|]. split; [done|]. eexists. split; [done|]. apply Hzero.
    + rewrite !decide_False, decide_True by done.
      destruct (export_csv_refused iterable filename (debug w "starting") Hname Hfile Hexists)
        as (Hfs & Hout & Hres).
      destruct (Exportable.export_csv _ _ iterable filename false false (debug w "starting"))
        as [w' res]. cbn in Hfs, Hout, Hres.
      destruct Hres as [->|(err & Herr & ->)].
      * split; [done|]. split; [done|]. eexists. split; [done|]. apply Hzero.
      * rewrite Herr. split; [done|]. split; [done|]. eexists. split; [done|].
        intros category. apply get_value_new.
Qed.

(** C9, as amended.  When the format [export] goes by is none of the three
    formats, no exporter runs and nothing is written; the [ValueError] is
    caught inside the call, logged, and tallied as one error in the counter,
    which the call returns. *)
Theorem unknown_format (iterable : AsyncIterable) (format filename : string)
    (force append : bool) (w : World) :
  resolve_format format filename ∉ EXPORT_FORMATS →
  export iterable format filename force append w
  = (error (debug w "starting") ("Unknown format: " ++ resolve_format format filename),
     Ok (log (EventCounter.new "write") "errors")).
Proof.
  intros Hnot. unfold Exportable.export, EXPORT_FORMATS in *.
  rewrite !not_elem_of_cons in Hnot. destruct Hnot as (? & ? & ? & _).
  by rewrite !decide_False by done.
Qed.

(** [export] returns its counter, whatever happens. *)
Lemma export_returns (iterable : AsyncIterable) (format filename : string)
    (force append : bool) (w : World) :
  returns (export iterable format filename force append w).2.
Proof.
  unfold Exportable.export.
  assert (Hexcept : ∀ w' err, returns
    (if is_Exception err
     then (error w' (exn_msg err), Ok (log (EventCounter.new "write") "errors"))
     else (w', Ok (EventCounter.new "write"))).2).
  { intros w' err. destruct (is_Exception err); by eexists. }
  assert (Hmerged : ∀ r : World * Exc EventCounter, returns
    (match r with
     | (w', Ok child) => (w', Ok (merge_child (EventCounter.new "write") child))
     | (w', Raise err) =>
         if is_Exception err
         then (error w' (exn_msg err), Ok (log (EventCounter.new "write") "errors"))
         else (w', Ok (EventCounter.new "write"))
     end).2).
  { intros [w' [child|err]]; [by eexists | apply Hexcept]. }
  repeat case_decide; try apply Hmerged. apply Hexcept.
Qed.

(** On standard output the format asked for is the format used. *)
Lemma resolve_format_stdout (format : string) : resolve_format format "-" = format.
Proof. done. Qed.

Lemma endswith_known (filename known other : string) :
  endswith filename known = true →
  ¬ list_ascii_of_string known `suffix_of` list_ascii_of_string other →
  endswith filename other
  = bool_decide (list_ascii_of_string other `suffix_of` list_ascii_of_string known).
Proof.
  unfold endswith. intros Hknown%bool_decide_eq_true Hnot. apply bool_decide_ext. split.
  - intros Hother. by destruct (suffix_weak_total _ _ _ Hother Hknown).
  - intros Hother. by etrans.
Qed.

(** A file name that ends with a dot and one of the three formats, in lower
    case, makes [export] go by that format. *)
Lemma resolve_format_suffix (format filename ext : string) :
  ext ∈ EXPORT_FORMATS → endswith filename ("." ++ ext) = true →
  resolve_format format filename = ext.
Proof.
  unfold EXPORT_FORMATS. rewrite !elem_of_cons, elem_of_nil. intros Hext Hsuffix.
  assert (Hne : filename ≠ "-").
  { intros ->. by destruct Hext as [->|[->|[->|[]]]]. }
  assert (Hends : ∀ other : string,
    ¬ list_ascii_of_string ("." ++ ext) `suffix_of` list_ascii_of_string other →
    endswith filename other
    = bool_decide (list_ascii_of_string other `suffix_of` list_ascii_of_string ("." ++ ext)))
    by (intros other; by apply endswith_known).
  unfold resolve_format, EXPORT_FORMATS. rewrite decide_True by done. cbn [foldl].
  destruct Hext as [->|[->|[->|[]]]];
    rewrite (Hends "txt"), (Hends "json"), (Hends "csv")
      by (apply (bool_decide_unpack _); vm_compute; exact I);
    vm_compute; reflexivity.
Qed.

End ExporterClaims.

(** ** The claims at sample inputs *)

Section SampleExportFacts.

Import EventCounter Exportable Rows SampleExport.

(** C5 fails as stated: the file [out.json] exists and neither [force] nor
    [append] is set; [export_json] and [export] raise nothing to the caller,
    they return a counter in which nothing is tallied. *)
Lemma destination_exists_not_raised :
  let direct := export_json five "out.json" false false world_with_file in
  let dispatched := export five "json" "out.json" false false world_with_file in
  direct.2 = Ok (EventCounter.new "JSON")
  ∧ ¬ raises direct.2
  ∧ returns dispatched.2
  ∧ ¬ raises dispatched.2
  ∧ fs dispatched.1 = fs world_with_file.
Proof.
  cbn zeta. split; [by vm_compute|]. split; [intros [err Herr]; by vm_compute in Herr|].
  split; [apply export_returns|]. split; [|by vm_compute].
  intros [err Herr]. by vm_compute in Herr.
Qed.

(** C6, at a failing input.  For the file name [data.CSV] and the format
    [json] asked for, [export] goes by [json], although an exporter takes the
    name to end with [csv] whatever the case of its letters: the rows go,
    as JSON, to the file [data.CSV.json]. *)
Theorem suffix_override_case_sensitive :
  resolve_format "json" "data.CSV" = "json"
  ∧ with_suffix "data.CSV" "csv" = "data.CSV"
  ∧ resolve_format "json" "data.csv" = "csv"
  ∧ let w' := (export five "json" "data.CSV" false false empty_world).1 in
    read w' "data.CSV.json" = Some (lines linesep ["1"; "2"; "4"; "5"])
    ∧ read w' "data.CSV" = None.
Proof.
  split; [vm_compute; reflexivity|]. split; [vm_compute; reflexivity|].
  split; [vm_compute; reflexivity|]. cbn zeta.
  split; vm_compute; reflexivity.
Qed.

(** C7, at a failing input.  Of five records exported as CSV to standard
    output, the third cannot be rendered ([ValueError]): the loop, which
    catches [KeyError] only, is left there, with two rows printed after the
    header, no error tallied, and the exception logged by the handler that
    closes [export_csv]; the fourth and the fifth record are never written.
    The same records exported as CSV to a file give four rows and one error:
    the loop that writes to a file catches [Exception]. *)
Theorem csv_stdout_stops_at_failure :
  let r := export_csv five "-" false false empty_world in
  let to_file := export_csv five "out" false false empty_world in
  stdout r.1 = lines newline ["n"; "1"; "2"]
  ∧ errors_logged r.1 = ["cannot render"]
  ∧ (∃ stats, r.2 = Ok stats
       ∧ get_value stats "rows" = 2%nat ∧ get_value stats "errors" = 0%nat)
  ∧ (¬ isolated (failures (stdout_row ["n"]) (yielded five))
         (rows (stdout_row ["n"]) (yielded five))
         (λ err, "CSVExportable object does not have field: " ++ exn_msg err)
         empty_world r.1 r.2)
  ∧ (∃ stats, to_file.2 = Ok stats
       ∧ get_value stats "rows" = 4%nat ∧ get_value stats "errors" = 1%nat)
  ∧ read to_file.1 "out.csv"
    = Some (dictwriter_header ["n"] ++ written (λ row, row ++ crlf) ["1"; "2"; "4"; "5"]).
Proof.
  cbn zeta. split; [vm_compute; reflexivity|]. split; [vm_compute; reflexivity|]. split.
  { eexists. split; [vm_compute; reflexivity|]. split; vm_compute; reflexivity. }
  split.
  { intros (stats & Hstats & Hrows & _). vm_compute in Hstats. injection Hstats as <-.
    by vm_compute in Hrows. }
  split.
  { eexists. split; [vm_compute; reflexivity|]. split; vm_compute; reflexivity. }
  vm_compute. reflexivity.
Qed.

(** C9 fails as stated: for the format [xml] nothing is raised to the
    caller; [export] returns its counter, in which the failure is tallied as
    one error. *)
Lemma unknown_format_not_raised :
  let r := export five "xml" "-" false false empty_world in
  (¬ raises r.2)
  ∧ (∃ stats, r.2 = Ok stats ∧ get_value stats "errors" = 1%nat).
Proof.
  cbn zeta. split; [intros [err Herr]; by vm_compute in Herr|].
  eexists. split; by vm_compute.
Qed.

(** Row isolation at the five records, exported as JSON to a file. *)
Lemma five_records_isolated :
  let r := export_json five "out" false false empty_world in
  cannot_export empty_world "out.json" false false = false
  ∧ isolated [value_error] ["1"; "2"; "4"; "5"] exn_msg empty_world r.1 r.2
  ∧ written_to_file empty_world r.1 "out.json" "" (lines linesep ["1"; "2"; "4"; "5"]).
Proof.
  assert (Hname : "out" ≠ "") by done.
  assert (Hfile : "out" ≠ "-") by done.
  assert (Hcan : cannot_export empty_world (with_suffix "out" "json") false false = false)
    by (vm_compute; reflexivity).
  assert (Hopen : unopenable empty_world !! with_suffix "out" "json" = None)
    by (vm_compute; reflexivity).
  assert (Hcaught : Forall (λ err, is_Exception err = true) (failures json_src (yielded five)))
    by (vm_compute; repeat constructor).
  split; [exact Hcan|].
  exact (proj1 (proj1 (row_isolation dictwriter_header dictwriter_row five "out" false false
                         empty_world Hname eq_refl) Hfile) Hcan Hopen Hcaught).
Qed.

Lemma destination_exists_witness :
  exists_ world_with_file "out.json" = true
  ∧ export_json five "out.json" false false world_with_file
    = (error world_with_file "Cannot export to out.json", Ok (EventCounter.new "JSON")).
Proof.
  assert (Hname : "out.json" ≠ "") by done.
  assert (Hfile : "out.json" ≠ "-") by done.
  assert (Hexists : exists_ world_with_file (with_suffix "out.json" "json") = true)
    by (vm_compute; reflexivity).
  split; [exact Hexists|].
  exact (proj1 (destination_exists dictwriter_header dictwriter_row five "out.json"
                  world_with_file Hname Hfile) Hexists).
Defined.

Lemma unknown_format_witness :
  (resolve_format "xml" "-" ∉ EXPORT_FORMATS)
  ∧ export five "xml" "-" false false empty_world
    = (error (debug empty_world "starting") "Unknown format: xml",
       Ok (log (EventCounter.new "write") "errors")).
Proof.
  assert (Hnot : resolve_format "xml" "-" ∉ EXPORT_FORMATS)
    by (apply (bool_decide_unpack _); vm_compute; exact I).
  split; [exact Hnot|].
  exact (unknown_format dictwriter_header dictwriter_row five "xml" "-" false false
           empty_world Hnot).
Defined.

End SampleExportFacts.

Section SampleRecordFacts.

Import JSONExportable Merge Sample.

(** C3 fails as stated: two tanks with the same identity hold a turret
    each, and the turret is set on [b]; the class of the turrets defines no
    index, so the nested merge by identity raises [NotImplementedError]: the
    call raises, and the turret of [a] is neither overwritten nor merged. *)
Lemma merge_stops_at_nested_without_index :
  let a := tank_with 1 "a" (turret 3 ["gun"]) ["id"; "name"; "turret"] in
  let b := tank_with 1 "" (turret 4 ["gun"]) ["id"; "turret"] in
  same_identity index a b
  ∧ "turret" ∈ model_fields_set b
  ∧ nested_pair a b "turret" = Some (turret 3 ["gun"], turret 4 ["gun"])
  ∧ update index no_property a b true = (a, Raise not_implemented).
Proof.
  cbn zeta. split; [exists 1%Z; split; reflexivity|].
  split; [apply (bool_decide_unpack _); vm_compute; exact I|].
  split; vm_compute; reflexivity.
Qed.

Lemma merge_identity_guard_witness :
  index (tank 1 "a" ["id"; "name"]) = Ok 1%Z
  ∧ index (tank 2 "b" ["id"; "name"]) = Ok 2%Z
  ∧ update index no_property (tank 1 "a" ["id"; "name"]) (tank 2 "b" ["id"; "name"]) true
    = (tank 1 "a" ["id"; "name"], Ok false).
Proof.
  split; [reflexivity|]. split; [reflexivity|].
  apply (merge_identity_guard index no_property _ _ 1%Z 2%Z); [reflexivity | reflexivity | lia].
Defined.

Lemma merge_asymmetry_witness :
  let a := tank_with 1 "a" (turret 3 ["gun"]) ["id"; "name"; "turret"] in
  let b := tank_with 1 "" (turret 4 ["gun"]) ["id"; "turret"] in
  let a' := (update index no_property a b false).1 in
  same_identity index a b
  ∧ getattr a' "name" = getattr a "name".
Proof.
  intros a b a'.
  assert (Hid : same_identity index a b) by (exists 1%Z; split; reflexivity).
  assert (Hprop : ∀ key, key ∈ model_fields_set b → no_property (cls a) key = None)
    by (intros key _; reflexivity).
  assert (Hrun : update index no_property a b false
                 = (a', (update index no_property a b false).2))
    by (unfold a'; destruct (update index no_property a b false); reflexivity).
  assert (Hunset : "name" ∉ model_fields_set b)
    by (apply (bool_decide_unpack _); vm_compute; exact I).
  split; [exact Hid|].
  exact (proj1 (proj1 (merge_asymmetry index no_property false a b a' _ Hid Hprop Hrun)
                  "name" Hunset)).
Defined.

Lemma no_identity_condition_witness :
  index (turret 3 ["gun"]) = base_index (turret 3 ["gun"])
  ∧ __hash__ index (λ i, i) (λ n, n) (turret 3 ["gun"]) 140737%Z = Ok 140737%Z
  ∧ update index no_property (turret 3 ["gun"]) (turret 4 ["gun"]) true
    = (turret 3 ["gun"], Raise not_implemented).
Proof.
  assert (Hbase : index (turret 3 ["gun"]) = base_index (turret 3 ["gun"])) by reflexivity.
  destruct (no_identity_condition index no_property (λ i, i) (λ n, n)
              (turret 3 ["gun"]) (turret 4 ["gun"]) 140737%Z Hbase)
    as (_ & Hhash & _ & Hupdate & _).
  split; [exact Hbase|]. split; [exact Hhash | exact Hupdate].
Defined.

Lemma transform_same_class_witness :
  let c := mkClass "Tank" [(TClass "Tank", λ _, Ok VNone)] in
  let in_obj := VModel (tank 1 "a" ["id"; "name"]) in
  type in_obj = TClass (__name__ c)
  ∧ transform c in_obj = ([], Ok in_obj).
Proof.
  intros c in_obj.
  assert (Htype : type in_obj = TClass (__name__ c)) by reflexivity.
  split; [exact Htype|].
  exact (proj1 (transform_same_class c in_obj Htype)).
Defined.

End SampleRecordFacts.

(** ** The exporter: empty input, early ends, refused destinations *)

Section ExporterEdges.

Import EventCounter Exportable Rows Endings.

Variable dictwriter_header : list string → string.
Variable dictwriter_row : list string → list (string * Cell) → Exc string.

#[local] Abbreviation export_csv := (export_csv dictwriter_header dictwriter_row).
#[local] Abbreviation export := (export dictwriter_header dictwriter_row).
#[local] Abbreviation written_row := (written_row dictwriter_row).

(** The loop over a sequence goes the same way up to the end of the
    sequence, whatever that end is. *)
Lemma async_for_ending caught message render emit (iterable : AsyncIterable) (w w' : World)
    (stats stats' : EventCounter) :
  async_for caught message render emit (mkAsyncIterable (yielded iterable) None) w stats
  = (w', stats', None) →
  async_for caught message render emit iterable w stats = (w', stats', ending iterable).
Proof.
  unfold async_for. cbn.
  destruct (export_rows _ _ _ _ _ _ _) as [[w1 stats1] [err|]]; [done|].
  by intros [= -> ->].
Qed.

(** What the clauses that close [export_json] and [export_txt] do with an
    ordinary exception. *)
Lemma finish_ordinary (w : World) (stats : EventCounter) (err : Exn) :
  is_Exception err = true →
  finish (w, stats, Some err) = (error w (exn_msg err), Ok stats).
Proof.
  intros Herr. unfold finish. rewrite Herr.
  assert (is_CancelledError err = false) as ->; [|done].
  unfold is_Exception in Herr. unfold is_CancelledError. by destruct (exn_class err).
Qed.

(** X1.  An empty sequence: the CSV export returns its counter with nothing
    tallied and touches no file, whatever the destination and the flags, also
    when the destination exists; the JSON and text exports to an accepted
    file that can be opened create the file, or empty it unless they append
    to it. *)
Theorem export_of_empty_sequence (iterable : AsyncIterable) (filename : string)
    (force append : bool) (w : World) :
  filename ≠ "" → filename ≠ "-" →
  yielded iterable = [] → ending iterable = None →
  export_csv iterable filename force append w
  = (debug (debug w "starting") "empty iterable given", Ok (EventCounter.new "CSV"))
  ∧ (let path := with_suffix filename "json" in
     cannot_export w path force append = false →
     unopenable w !! path = None →
     let r := export_json iterable filename force append w in
     r.2 = Ok (EventCounter.new "JSON")
     ∧ fs r.1 = <[ path := RegularFile (kept w path append) ]> (fs w))
  ∧ (let path := with_suffix filename "txt" in
     cannot_export w path force append = false →
     unopenable w !! path = None →
     let r := export_txt iterable filename force append w in
     r.2 = Ok (EventCounter.new "Text")
     ∧ fs r.1 = <[ path := RegularFile (kept w path append) ]> (fs w)).
Proof.
  intros Hname Hfile Hnil Hend. split; [|split].
  - unfold Exportable.export_csv. rewrite decide_False by done. by rewrite Hnil, Hend.
  - intros path Hcan Hopen. unfold export_json. rewrite !decide_False by done.
    fold path. rewrite Hcan, (open_accepted w path force append _ Hcan), Hopen.
    unfold async_for. rewrite Hnil, Hend. cbn.
    split; [done|]. by destruct (open_spec w path append) as (-> & _).
  - intros path Hcan Hopen. unfold export_txt. rewrite !decide_False by done.
    fold path. rewrite Hcan, (open_accepted w path force append _ Hcan), Hopen.
    unfold async_for. rewrite Hnil, Hend. cbn.
    split; [done|]. by destruct (open_spec w path append) as (-> & _).
Qed.

(** When every failure of a record is caught, nothing leaves the loop before
    the end of the sequence. *)
Lemma async_for_no_escape caught message render emit (items : list Item) (w : World)
    (stats : EventCounter) :
  commutes_with_error emit →
  Forall (λ err, caught err = true) (failures render items) →
  ∃ w' stats',
    async_for caught message render emit (mkAsyncIterable items None) w stats
    = (w', stats', None).
Proof.
  intros Hcomm Hcaught. unfold async_for. cbn.
  destruct (export_rows_isolated caught message render emit items Hcomm Hcaught w stats)
    as (stats' & -> & _). by eexists _, _.
Qed.

Lemma finish_early_end caught message render emit (iterable : AsyncIterable) (w : World)
    (stats : EventCounter) err :
  ending iterable = Some err →
  is_CancelledError err = true ∨ is_Exception err = true →
  commutes_with_error emit →
  Forall (λ err, caught err = true) (failures render (yielded iterable)) →
  let r0 := finish (async_for caught message render emit (exhausted iterable) w stats) in
  finish (async_for caught message render emit iterable w stats)
  = (log_early_end r0.1 err, r0.2)
  ∧ returns r0.2.
Proof.
  intros Hend Hkind Hcomm Hcaught.
  destruct (async_for_no_escape caught message render emit (yielded iterable) w stats
              Hcomm Hcaught) as (w' & stats' & Hloop).
  unfold exhausted. rewrite (async_for_ending _ _ _ _ iterable _ _ _ _ Hloop), Hloop, Hend.
  cbn. unfold log_early_end. split; [|by eexists].
  destruct (is_CancelledError err); [done|]. by destruct Hkind as [? | ->].
Qed.


(** X3.  An end of the sequence before its first record.  [export_csv] fetches
    the first record outside the blocks that catch a cancellation: a
    cancellation there is raised to the caller of [export_csv], with nothing
    written; [export_json] and [export_txt] on standard output return their
    counter; [export] returns its counter in every case, with nothing
    tallied. *)
Theorem cancelled_before_first_record (iterable : AsyncIterable) (filename format : string)
    (force append : bool) (w : World) (err : Exn) :
  filename ≠ "" →
  yielded iterable = [] → ending iterable = Some err → is_CancelledError err = true →
  export_csv iterable filename force append w = (debug w "starting", Raise err)
  ∧ export_json iterable "-" force append w
    = (debug w "Cancelled", Ok (EventCounter.new "JSON"))
  ∧ export_txt iterable "-" force append w
    = (debug w "Cancelled", Ok (EventCounter.new "Text"))
  ∧ (resolve_format format filename = "csv" →
     export iterable format filename force append w
     = (debug (debug w "starting") "starting", Ok (EventCounter.new "write"))).
Proof.
  intros Hname Hnil Hend Hcancel.
  assert (Hbase : is_Exception err = false).
  { unfold is_CancelledError in Hcancel. unfold is_Exception.
    by destruct (exn_class err). }
  assert (Hcsv : ∀ w, export_csv iterable filename force append w
                      = (debug w "starting", Raise err)).
  { intros w0. unfold Exportable.export_csv. rewrite decide_False by done.
    rewrite Hnil, Hend. unfold except_exception. by rewrite Hbase. }
  split; [done|]. split; [|split].
  - unfold export_json, async_for. rewrite Hnil, Hend.
    rewrite decide_False, decide_True by done. cbn [export_rows]. unfold finish.
    by rewrite Hcancel.
  - unfold export_txt, async_for. rewrite Hnil, Hend.
    rewrite decide_False, decide_True by done. cbn [export_rows]. unfold finish.
    by rewrite Hcancel.
  - intros Hformat. unfold Exportable.export. rewrite Hformat.
    rewrite !decide_False, decide_True by done. by rewrite Hcsv, Hbase.
Qed.

(** A destination that [export_csv] does not accept, or cannot open, is left
    as it is, whatever the sequence: the destination is looked at once the
    first record has given its headers, and nothing is written before. *)
Lemma export_csv_untouched (iterable : AsyncIterable) filename force append (w : World) :
  filename ≠ "" → filename ≠ "-" →
  cannot_export w (with_suffix filename "csv") force append = true
  ∨ is_Some (unopenable w !! with_suffix filename "csv") →
  let r := export_csv iterable filename force append w in
  fs r.1 = fs w ∧ stdout r.1 = stdout w.
Proof.
  intros Hname Hfile Hnot. unfold Exportable.export_csv.
  rewrite decide_False by done.
  assert (Hexc : ∀ (w' : World) err,
    fs w' = fs w → stdout w' = stdout w →
    let r := except_exception (w', EventCounter.new "CSV", Some err) in
    fs r.1 = fs w ∧ stdout r.1 = stdout w).
  { intros w' err Hfs Hout. cbn. by destruct (is_Exception err). }
  destruct (yielded iterable) as [|first rest].
  - destruct (ending iterable) as [err|]; [by apply Hexc | done].
  - destruct (csv_headers (exportable first)) as [fields|err]; [|by apply Hexc].
    rewrite decide_False by done.
    change (cannot_export (debug w "starting") (with_suffix filename "csv") force append)
      with (cannot_export w (with_suffix filename "csv") force append).
    destruct (cannot_export w (with_suffix filename "csv") force append) eqn:Hcan;
      [by apply Hexc|].
    destruct Hnot as [?|[err Herr]]; [done|].
    match goal with
    | |- context [open ?w1 (with_suffix filename "csv") ?mode] =>
        rewrite (open_accepted w1 (with_suffix filename "csv") force append mode Hcan);
        change (unopenable w1 !! with_suffix filename "csv")
          with (unopenable w !! with_suffix filename "csv")
    end.
    rewrite Herr. by apply Hexc.
Qed.

(** X4.  A destination that exists and is not a regular file is never written
    over, whatever the flags: [force] and [append] do not make an exporter
    accept it.  [export_json] and [export_txt] log [FileExistsError] and
    return their counter with nothing tallied, before any record is read;
    [export_csv] does so once the first record has given its headers, and
    leaves files and standard output as they are whatever the sequence. *)
Theorem not_a_file_refused (iterable : AsyncIterable) (filename : string)
    (force append : bool) (w : World) :
  filename ≠ "" → filename ≠ "-" →
  (let path := with_suffix filename "json" in
   fs w !! path = Some Directory →
   export_json iterable filename force append w
   = (error w ("Cannot export to " ++ path), Ok (EventCounter.new "JSON")))
  ∧ (let path := with_suffix filename "txt" in
     fs w !! path = Some Directory →
     export_txt iterable filename force append w
     = (error w ("Cannot export to " ++ path), Ok (EventCounter.new "Text")))
  ∧ (let path := with_suffix filename "csv" in
     fs w !! path = Some Directory →
     (let r := export_csv iterable filename force append w in
      fs r.1 = fs w ∧ stdout r.1 = stdout w)
     ∧ ∀ first rest fields,
         yielded iterable = first :: rest → csv_headers (exportable first) = Ok fields →
         export_csv iterable filename force append w
         = (error (debug w "starting") ("Cannot export to " ++ path),
            Ok (EventCounter.new "CSV"))).
Proof.
  intros Hname Hfile.
  assert (Hcan : ∀ path, fs w !! path = Some Directory →
                         cannot_export w path force append = true).
  { intros path Hdir. unfold cannot_export, exists_, isfile. rewrite Hdir.
    by rewrite bool_decide_eq_true_2 by (by eexists). }
  split; [|split].
  - intros path Hdir. unfold export_json. rewrite !decide_False by done.
    fold path. by rewrite (Hcan path Hdir).
  - intros path Hdir. unfold export_txt. rewrite !decide_False by done.
    fold path. by rewrite (Hcan path Hdir).
  - intros path Hdir. split; [apply export_csv_untouched; [done | done | left; by apply Hcan]|].
    intros first rest fields Hyield Hheaders. unfold Exportable.export_csv.
    rewrite decide_False by done. rewrite Hyield, Hheaders, decide_False by done.
    fold path.
    change (cannot_export (debug w "starting") path force append)
      with (cannot_export w path force append).
    by rewrite (Hcan path Hdir).
Qed.

(** X28.  A file that cannot be opened.  When the destination is accepted
    and [open] raises an ordinary exception (the directory is missing, the
    permission is refused), no record is read and nothing is written:
    [export_json] and [export_txt] log the exception and return their
    counter with nothing tallied; [export_csv] does so once the first record
    has given its headers, after the debug line that announces the opening,
    and leaves files and standard output as they are whatever the sequence. *)
Theorem unopenable_file_writes_nothing (iterable : AsyncIterable) (filename : string)
    (force append : bool) (w : World) (err : Exn) :
  filename ≠ "" → filename ≠ "-" → is_Exception err = true →
  (let path := with_suffix filename "json" in
   cannot_export w path force append = false → unopenable w !! path = Some err →
   export_json iterable filename force append w
   = (error w (exn_msg err), Ok (EventCounter.new "JSON")))
  ∧ (let path := with_suffix filename "txt" in
     cannot_export w path force append = false → unopenable w !! path = Some err →
     export_txt iterable filename force append w
     = (error w (exn_msg err), Ok (EventCounter.new "Text")))
  ∧ (let path := with_suffix filename "csv" in
     cannot_export w path force append = false → unopenable w !! path = Some err →
     (let r := export_csv iterable filename force append w in
      fs r.1 = fs w ∧ stdout r.1 = stdout w)
     ∧ ∀ first rest fields,
         yielded iterable = first :: rest → csv_headers (exportable first) = Ok fields →
         export_csv iterable filename force append w
         = (error (debug (debug w "starting")
                     ("opening " ++ path ++ " for writing in mode="
                      ++ repr_mode (open_mode w path append)))
              (exn_msg err),
            Ok (EventCounter.new "CSV"))).
Proof.
  intros Hname Hfile Herr. split; [|split].
  - intros path Hcan Hopen. unfold export_json. rewrite !decide_False by done.
    fold path. rewrite Hcan, (open_accepted w path force append _ Hcan), Hopen.
    by apply finish_ordinary.
  - intros path Hcan Hopen. unfold export_txt. rewrite !decide_False by done.
    fold path. rewrite Hcan, (open_accepted w path force append _ Hcan), Hopen.
    by apply finish_ordinary.
  - intros path Hcan Hopen. split.
    { apply export_csv_untouched; [done | done | right; by eexists]. }
    intros first rest fields Hyield Hheaders. unfold Exportable.export_csv.
    rewrite decide_False by done. rewrite Hyield, Hheaders, decide_False by done.
    fold path.
    change (cannot_export (debug w "starting") path force append)
      with (cannot_export w path force append).
    rewrite Hcan.
    change (open_mode (debug w "starting") path append) with (open_mode w path append).
    match goal with
    | |- context [open ?w1 path ?mode] =>
        rewrite (open_accepted w1 path force append mode Hcan);
        change (unopenable w1 !! path) with (unopenable w !! path)
    end.
    rewrite Hopen. unfold except_exception. by rewrite Herr.
Qed.

(** X5.  [export] returns its counter whatever happens: nothing is raised to its
    caller, not even the failed assertion on an empty file name, which is
    tallied as one error, with no file written. *)
Theorem export_always_returns (iterable : AsyncIterable) (format filename : string)
    (force append : bool) (w : World) :
  returns (export iterable format filename force append w).2
  ∧ (filename = "" → format ∈ EXPORT_FORMATS →
     let r := export iterable format filename force append w in
     r.2 = Ok (log (EventCounter.new "write") "errors")
     ∧ fs r.1 = fs w ∧ stdout r.1 = stdout w
     ∧ errors_logged r.1 = (errors_logged w ++ ["filename has to be str"])%list).
Proof.
  split; [apply export_returns|].
  intros -> Hformat. unfold Exportable.export, EXPORT_FORMATS in *.
  assert (resolve_format format "" = format) as -> by reflexivity.
  rewrite !elem_of_cons, elem_of_nil in Hformat.
  assert (Htxt : ∀ w0, export_txt iterable "" force append w0 = (w0, Raise assertion_error))
    by (intros w0; unfold export_txt; by rewrite decide_True).
  assert (Hjson : ∀ w0, export_json iterable "" force append w0 = (w0, Raise assertion_error))
    by (intros w0; unfold export_json; by rewrite decide_True).
  assert (Hcsv : ∀ w0, export_csv iterable "" force append w0
                       = (debug w0 "starting", Raise assertion_error))
    by (intros w0; unfold Exportable.export_csv; by rewrite decide_True).
  cbv zeta. rewrite Htxt, Hjson, Hcsv.
  destruct Hformat as [->|[->|[->|[]]]]; repeat case_decide; try done; cbn;
    (split; [done|]); (split; [done|]); (split; [done|]);
    unfold errors_logged; cbn; rewrite !omap_app; cbn; by rewrite ?app_nil_r.
Qed.

Lemma list_ascii_of_string_app (a b : string) :
  list_ascii_of_string (a ++ b) = (list_ascii_of_string a ++ list_ascii_of_string b)%list.
Proof.
  induction a as [|x a IH]; [done|].
  change (x :: list_ascii_of_string (a ++ b)
          = x :: (list_ascii_of_string a ++ list_ascii_of_string b)%list).
  by rewrite IH.
Qed.

Lemma lower_app (a b : string) : lower (a ++ b) = lower a ++ lower b.
Proof.
  induction a as [|x a IH]; [done|].
  change (String (lower_ascii x) (lower (a ++ b))
          = String (lower_ascii x) (lower a ++ lower b)).
  by rewrite IH.
Qed.

(** X6.  The name of the file an exporter writes to ends with the suffix of the
    exporter, whatever the case of its letters, and is the name given when
    that one does; so passing the name over again changes nothing. *)
Theorem with_suffix_ends_with_suffix (filename suffix : string) :
  lower suffix = suffix →
  endswith (lower (with_suffix filename suffix)) suffix = true
  ∧ with_suffix (with_suffix filename suffix) suffix = with_suffix filename suffix.
Proof.
  intros Hlower.
  assert (Hends : endswith (lower (with_suffix filename suffix)) suffix = true).
  { unfold with_suffix. destruct (endswith (lower filename) suffix) eqn:Hsuffix; [done|].
    unfold endswith. apply bool_decide_eq_true.
    rewrite !lower_app, Hlower, !list_ascii_of_string_app. apply suffix_app_r.
    by apply suffix_app_r. }
  split; [done|]. unfold with_suffix at 1. by rewrite Hends.
Qed.

(** X7.  The format [export] goes by, for a file: the one of the three formats
    the file name ends with, in lower case and with or without a dot before
    it; the format asked for when the name ends with none. *)
Theorem format_by_suffix (format filename : string) :
  filename ≠ "-" →
  (∀ ext, ext ∈ EXPORT_FORMATS → endswith filename ext = true →
          resolve_format format filename = ext)
  ∧ ((∀ ext, ext ∈ EXPORT_FORMATS → endswith filename ext = false) →
     resolve_format format filename = format).
Proof.
  intros Hne. unfold resolve_format, EXPORT_FORMATS. rewrite decide_True by done.
  cbn [foldl]. split.
  - intros ext Hext Hsuffix. rewrite !elem_of_cons, elem_of_nil in Hext.
    assert (Hends : ∀ other : string,
      ¬ list_ascii_of_string ext `suffix_of` list_ascii_of_string other →
      endswith filename other
      = bool_decide (list_ascii_of_string other `suffix_of` list_ascii_of_string ext))
      by (intros other; by apply endswith_known).
    destruct Hext as [->|[->|[->|[]]]]; rewrite Hsuffix.
    + rewrite (Hends "json"), (Hends "csv")
        by (apply (bool_decide_unpack _); vm_compute; exact I).
      vm_compute. reflexivity.
    + rewrite (Hends "csv") by (apply (bool_decide_unpack _); vm_compute; exact I).
      vm_compute. reflexivity.
    + vm_compute. reflexivity.
  - intros Hnone.
    rewrite (Hnone "txt"), (Hnone "json"), (Hnone "csv") by (repeat constructor).
    done.
Qed.

(** X8.  CSV null normalization.  [csv_row] has the keys of [_csv_row], in the
    same order; under a key that [_csv_row] gives without a value it has the
    empty string, which is printed as nothing, and under every other key the
    value itself. *)
Theorem csv_row_without_None (self : Exportable) (res : list (string * option Cell)) :
  _csv_row self = Ok res →
  ∃ row, csv_row self = Ok row
    ∧ row.*1 = res.*1
    ∧ (∀ key, dict_get row key = default (CStr "") <$> dict_get res key)
    ∧ (∀ key, dict_get res key = Some None → str <$> dict_get row key = Some "").
Proof.
  intros Hres. unfold csv_row. rewrite Hres. cbn. eexists. split; [done|].
  clear Hres.
  assert (Hget : ∀ key, dict_get (_clear_None res) key
                        = default (CStr "") <$> dict_get res key).
  { intros key. unfold _clear_None.
    induction res as [|[k v] res' IH]; [done|].
    rewrite fmap_cons. cbn [dict_get]. destruct (decide (k = key)); [by destruct v | apply IH]. }
  split; [|split].
  - unfold _clear_None. rewrite <-list_fmap_compose. apply list_fmap_ext.
    by intros _ [k v] _.
  - done.
  - intros key Hnone. by rewrite Hget, Hnone.
Qed.

End ExporterEdges.

(** ** Keyed collections: items, and what [update] keeps *)

Section DictMoreFacts.

Context {K V : Type} `{EqDecision K}.
Implicit Types (d : list (K * V)) (k : K) (v : V).

Lemma dict_del_sublist d k : dict_del d k `sublist_of` d.
Proof.
  induction d as [|[k0 v0] d IH]; [done|].
  cbn [dict_del]. destruct (decide (k0 = k)); [by apply sublist_cons | by apply sublist_skip].
Qed.

Lemma dict_get_del_ne d k k' : k ≠ k' → dict_get (dict_del d k) k' = dict_get d k'.
Proof.
  intros Hne. induction d as [|[k0 v0] d IH]; [done|].
  cbn [dict_del dict_get]. destruct (decide (k0 = k)) as [->|Hne0].
  - by rewrite decide_False.
  - cbn [dict_get]. by rewrite IH.
Qed.

Lemma dict_get_del_eq d k : NoDup d.*1 → dict_get (dict_del d k) k = None.
Proof.
  induction d as [|[k0 v0] d IH]; [done|].
  rewrite fmap_cons, NoDup_cons. cbn [fst dict_del]. intros [Hnotin Hnodup].
  destruct (decide (k0 = k)) as [->|Hne].
  - by apply dict_get_None.
  - cbn [dict_get]. rewrite decide_False by done. by apply IH.
Qed.

Lemma dict_del_length d k :
  is_Some (dict_get d k) → S (length (dict_del d k)) = length d.
Proof.
  induction d as [|[k0 v0] d IH]; [by intros [? ?]|].
  cbn [dict_del dict_get]. destruct (decide (k0 = k)); [done|].
  intros Hsome. cbn. by rewrite IH.
Qed.

Lemma dict_set_length d k v :
  length (dict_set d k v) = if decide (k ∈ d.*1) then length d else S (length d).
Proof.
  rewrite <-(length_fmap fst (dict_set d k v)), dict_set_keys.
  destruct (decide (k ∈ d.*1)); rewrite ?length_app, length_fmap; cbn; lia.
Qed.

Lemma dict_set_NoDup d k v : NoDup d.*1 → NoDup (dict_set d k v).*1.
Proof.
  intros Hnodup. rewrite dict_set_keys. destruct (decide (k ∈ d.*1)); [done|].
  apply NoDup_app. split; [done|]. split; [|apply NoDup_singleton].
  intros k' Hin Hk'. apply list_elem_of_singleton in Hk'. by subst.
Qed.

End DictMoreFacts.

Section RootDictItems.

Import JSONExportable JSONExportableRootDict.

Context {IdxType : Type} `{Countable IdxType}.
Variable str : IdxType → string.
Variable index : Model → Exc IdxType.

#[local] Abbreviation RootDict := (RootDict IdxType).
#[local] Abbreviation add := (add index).
#[local] Abbreviation __setitem__ := (__setitem__ index).
#[local] Abbreviation __getitem__ := (__getitem__ str).
#[local] Abbreviation __delitem__ := (__delitem__ str).

(** X9.  [add] and [__getitem__].  A record that has an index is stored under
    its index: it is what [__getitem__] gives there afterwards, the records
    under the other keys are as before, the keys stay unique, and the
    collection has one record more exactly when the index was not a key.  A
    record without index is not stored: [add] raises what [index] raises. *)
Theorem add_then_getitem (self : RootDict) (item : Model) :
  NoDup (keys self) →
  (∀ i, index item = Ok i →
     let self' := (add self item).1 in
     (add self item).2 = Ok ()
     ∧ __getitem__ self' i = Ok item
     ∧ (∀ key, key ≠ i → __getitem__ self' key = __getitem__ self key)
     ∧ NoDup (keys self')
     ∧ __len__ self' = (if __contains__ self i then __len__ self else S (__len__ self))
     ∧ _sorted self' = _sorted self)
  ∧ (∀ err, index item = Raise err → add self item = (self, Raise err)).
Proof.
  intros Hnodup. split.
  - intros i Hi. unfold JSONExportableRootDict.add. rewrite Hi. cbn.
    unfold JSONExportableRootDict.__getitem__, keys, __len__, __contains__. cbn.
    split; [done|]. split; [by rewrite dict_get_set_eq|].
    split; [intros key Hne; by rewrite dict_get_set_ne|].
    split; [by apply dict_set_NoDup|]. split; [|done].
    rewrite dict_set_length. destruct (decide (i ∈ (root self).*1)) as [Hin|Hnotin].
    + by rewrite bool_decide_eq_true_2 by (by apply dict_get_is_Some).
    + by rewrite bool_decide_eq_false_2 by (by rewrite dict_get_is_Some).
  - intros err Herr. unfold JSONExportableRootDict.add. by rewrite Herr.
Qed.

(** X10.  [__setitem__] does not use the key it is given: the record goes under
    its own index.  So after [self[key] = item] with a key that is neither
    the index of the record nor a key of the collection, [self[key]] raises
    [KeyError], and the record is found under its index. *)
Theorem setitem_ignores_key (self : RootDict) (key i : IdxType) (item : Model) :
  index item = Ok i → key ≠ i → key ∉ keys self →
  let self' := (__setitem__ self key item).1 in
  __getitem__ self' key = Raise (key_error str key)
  ∧ __getitem__ self' i = Ok item.
Proof.
  intros Hi Hne Hnotin. unfold JSONExportableRootDict.__setitem__,
    JSONExportableRootDict.add. rewrite Hi. cbn.
  unfold JSONExportableRootDict.__getitem__. cbn.
  rewrite dict_get_set_eq, dict_get_set_ne by done. split; [|done].
  by apply dict_get_None in Hnotin as ->.
Qed.

(** X11.  [__delitem__].  Deleting a key of the collection removes the record
    under it and nothing else: the key is no longer found, the other records
    are as before and in the same order, and the collection has one record
    less.  Deleting a key that is not there raises [KeyError] and changes
    nothing. *)
Theorem delitem_removes_one (self : RootDict) (key : IdxType) :
  NoDup (keys self) →
  (key ∈ keys self →
     let self' := (__delitem__ self key).1 in
     (__delitem__ self key).2 = Ok ()
     ∧ __getitem__ self' key = Raise (key_error str key)
     ∧ (∀ key', key' ≠ key → __getitem__ self' key' = __getitem__ self key')
     ∧ root self' `sublist_of` root self
     ∧ S (__len__ self') = __len__ self)
  ∧ (key ∉ keys self → __delitem__ self key = (self, Raise (key_error str key))).
Proof.
  intros Hnodup. unfold JSONExportableRootDict.__delitem__. split.
  - intros Hin. apply dict_get_is_Some in Hin as Hsome. destruct Hsome as [item Hitem].
    rewrite Hitem. cbn. unfold JSONExportableRootDict.__getitem__, __len__. cbn.
    split; [done|]. split; [by rewrite dict_get_del_eq|].
    split; [intros key' Hne; by rewrite dict_get_del_ne|].
    split; [apply dict_del_sublist|]. apply dict_del_length. by eexists.
  - intros Hnotin. by apply dict_get_None in Hnotin as ->.
Qed.

End RootDictItems.

Section RootDictUpdate.

Import JSONExportable JSONExportableRootDict.

Context {IdxType : Type} `{Countable IdxType}.
Variable key_le : relation IdxType.
Context `{!RelDecision key_le}.
Variable str : IdxType → string.
Variable index : Model → Exc IdxType.
Variable class_property : string → string → option (Model → Value → Model * Exc ()).
Variable model_ne : Model → Model → bool.

#[local] Abbreviation RootDict := (RootDict IdxType).
#[local] Abbreviation update := (update key_le str index class_property model_ne).
#[local] Abbreviation merge := (JSONExportable.update index class_property).
#[local] Abbreviation __getitem__ := (__getitem__ str).

Lemma getitem_dict_get (self self' : RootDict) key key' :
  dict_get (root self') key' = dict_get (root self) key →
  key' = key →
  __getitem__ self' key' = __getitem__ self key.
Proof. unfold JSONExportableRootDict.__getitem__. by intros -> ->. Qed.

Lemma update_records_lookup (new : RootDict) match_index (l : list IdxType) :
  NoDup l →
  ∀ (self self' : RootDict) acc r,
  update_records str index class_property self new match_index l acc = (self', r) →
  (∀ key, key ∉ l → dict_get (root self') key = dict_get (root self) key)
  ∧ (∀ s, r = Ok s → ∀ key, key ∈ l →
       ∃ old item, dict_get (root self) key = Some old
                   ∧ dict_get (root new) key = Some item
                   ∧ dict_get (root self') key = Some (merge old item match_index).1).
Proof.
  induction 1 as [|k l Hnotin Hnodup IH]; intros self self' acc r; cbn [update_records].
  - intros [= <- <-]. split; [done|]. intros s _ key Hin. by apply elem_of_nil in Hin.
  - unfold JSONExportableRootDict.__getitem__ at 1 2.
    destruct (dict_get (root self) k) as [old|] eqn:Hold.
    2:{ intros [= <- <-]. by split. }
    destruct (dict_get (root new) k) as [item|] eqn:Hitem.
    2:{ intros [= <- <-]. by split. }
    destruct (merge old item match_index) as [old' [changed|err]] eqn:Hmerge.
    + intros Hrec. apply IH in Hrec as [Hother Hkeys]. split.
      * intros key Hkey. apply not_elem_of_cons in Hkey as [Hne Hkey].
        rewrite (Hother key Hkey). cbn. by apply dict_get_set_ne.
      * intros s -> key Hkey. apply elem_of_cons in Hkey as [->|Hkey].
        -- exists old, item. rewrite Hmerge. split; [done|]. split; [done|].
           rewrite (Hother k Hnotin). cbn. apply dict_get_set_eq.
        -- destruct (Hkeys s eq_refl key Hkey) as (old2 & item2 & Hold2 & Hitem2 & Hnew).
           exists old2, item2. split; [|done]. rewrite <-Hold2. cbn.
           symmetry. apply dict_get_set_ne. by intros ->.
    + intros [= <- <-]. split; [|done].
      intros key Hkey. apply not_elem_of_cons in Hkey as [Hne Hkey]. cbn.
      by apply dict_get_set_ne.
Qed.

Lemma update_records_returns (new : RootDict) match_index (l : list IdxType) :
  NoDup l →
  ∀ (self : RootDict) acc,
  (∀ key, key ∈ l → key ∈ keys self ∧ key ∈ keys new) →
  (∀ key old item, key ∈ l → dict_get (root self) key = Some old →
     dict_get (root new) key = Some item → returns (merge old item match_index).2) →
  returns (update_records str index class_property self new match_index l acc).2.
Proof.
  induction 1 as [|k l Hnotin Hnodup IH]; intros self acc Hin Hmerge; cbn [update_records].
  - by eexists.
  - destruct (Hin k) as [Hself Hnew]; [left|].
    apply dict_get_is_Some in Hself as [old Hold]. apply dict_get_is_Some in Hnew as [item Hitem].
    unfold JSONExportableRootDict.__getitem__ at 1 2. rewrite Hold, Hitem.
    destruct (Hmerge k old item) as [changed Hchanged]; [left | done | done |].
    destruct (merge old item match_index) as [old' res]. cbn in Hchanged. subst res.
    apply IH.
    + intros key Hkey. destruct (Hin key) as [Hs Hn]; [by right|]. split; [|done].
      unfold keys, root_set. cbn. rewrite dict_set_keys.
      by destruct (decide (k ∈ (root self).*1)); [|apply elem_of_app; left].
    + intros key old2 item2 Hkey Hold2. apply Hmerge; [by right|].
      rewrite <-Hold2. cbn. symmetry. apply dict_get_set_ne. by intros ->.
Qed.

Lemma add_records_spec (new : RootDict) (l : list IdxType) :
  NoDup l →
  ∀ (self self' : RootDict) r,
  (∀ key, key ∈ l → key ∉ keys self) →
  add_records str self new l = (self', r) →
  keys self `prefix_of` keys self'
  ∧ (∀ key, key ∉ l → dict_get (root self') key = dict_get (root self) key)
  ∧ (r = Ok () →
     keys self' = (keys self ++ l)%list
     ∧ ∀ key, key ∈ l → is_Some (dict_get (root new) key)
                        ∧ dict_get (root self') key = dict_get (root new) key)
  ∧ ((∀ key, key ∈ l → key ∈ keys new) → r = Ok ()).
Proof.
  induction 1 as [|k l Hnotin Hnodup IH]; intros self self' r Hfresh; cbn [add_records].
  - intros [= <- <-]. split; [done|]. split; [done|]. split; [|done].
    intros _. split; [by rewrite app_nil_r|]. intros key Hin. by apply elem_of_nil in Hin.
  - unfold JSONExportableRootDict.__getitem__.
    destruct (dict_get (root new) k) as [item|] eqn:Hitem.
    2:{ intros [= <- <-]. split; [done|]. split; [done|]. split; [done|].
        intros Hnew. assert (Hk : k ∈ keys new) by (apply Hnew; left).
        apply dict_get_is_Some in Hk as [? Hk]. unfold keys in *. congruence. }
    intros Hrec.
    assert (Hkeys1 : keys (root_set self k item) = (keys self ++ [k])%list).
    { unfold keys, root_set. cbn. rewrite dict_set_keys.
      rewrite decide_False; [done|]. apply Hfresh. left. }
    apply IH in Hrec as (Hprefix & Hother & Hok & Hret).
    2:{ intros key Hkey. rewrite Hkeys1, not_elem_of_app, not_elem_of_cons.
        split; [apply Hfresh; by right|]. split; [by intros ->|apply not_elem_of_nil]. }
    split; [|split; [|split]].
    + etrans; [|exact Hprefix]. rewrite Hkeys1. by apply prefix_app_r.
    + intros key Hkey. apply not_elem_of_cons in Hkey as [Hne Hkey].
      rewrite (Hother key Hkey). cbn. by apply dict_get_set_ne.
    + intros ->. destruct (Hok eq_refl) as [Hkeys Hin]. split.
      * by rewrite Hkeys, Hkeys1, <-List.app_assoc.
      * intros key Hkey. apply elem_of_cons in Hkey as [->|Hkey]; [|by apply Hin].
        rewrite (Hother k Hnotin), Hitem. cbn. split; [by eexists|]. apply dict_get_set_eq.
    + intros Hnew. apply Hret. intros key Hkey. apply Hnew. by right.
Qed.

Lemma set_comprehension_returns (cond : IdxType → Exc bool) (l : list IdxType) :
  (∀ key, key ∈ l → returns (cond key)) → returns (set_comprehension cond l).
Proof.
  induction l as [|k l IH]; intros Hcond; cbn; [by eexists|].
  destruct (Hcond k) as [b ->]; [left|].
  destruct IH as [s ->]; [intros key Hkey; apply Hcond; by right|]. by eexists.
Qed.

(** The keys and the records of a collection after [update]. *)
Lemma update_keys_and_records (self new self' : RootDict) (match_index : bool)
    (r : Exc (gset IdxType * gset IdxType)) :
  NoDup (keys self) →
  update self new match_index = (self', r) →
  keys self `prefix_of` keys self'
  ∧ (∀ added updated, r = Ok (added, updated) →
       (∃ tail, keys self' = (keys self ++ tail)%list ∧ tail ≡ₚ elements added)
       ∧ NoDup (keys self')
       ∧ (∀ key, key ∈ added →
            returns (__getitem__ new key) ∧ __getitem__ self' key = __getitem__ new key)
       ∧ (∀ key, key ∈ updated →
            ∃ old item, __getitem__ self key = Ok old ∧ __getitem__ new key = Ok item
                        ∧ __getitem__ self' key = Ok (merge old item match_index).1)
       ∧ (∀ key, key ∉ added → key ∉ updated → __getitem__ self' key = __getitem__ self key))
  ∧ ((∀ key old item,
        __getitem__ self key = Ok old → __getitem__ new key = Ok item →
        returns (merge old item match_index).2) →
     returns r).
Proof.
  intros Hnodup. unfold JSONExportableRootDict.update.
  set (new_ids := list_to_set (__iter__ key_le new) : gset IdxType).
  set (old_ids := list_to_set (__iter__ key_le self) : gset IdxType).
  assert (Hold_ids : ∀ key, key ∈ old_ids ↔ key ∈ keys self)
    by (intros key; unfold old_ids; by rewrite elem_of_list_to_set, (elem_of_iter key_le)).
  assert (Hnew_ids : ∀ key, key ∈ new_ids ↔ key ∈ keys new)
    by (intros key; unfold new_ids; by rewrite elem_of_list_to_set, (elem_of_iter key_le)).
  assert (Hcomp : returns (set_comprehension (differ str model_ne self new)
                             (elements (new_ids ∩ old_ids)))).
  { apply set_comprehension_returns. intros key Hkey.
    apply elem_of_elements, elem_of_intersection in Hkey as [Hn Ho].
    apply Hnew_ids, (getitem_returns str) in Hn as [item Hitem].
    apply Hold_ids, (getitem_returns str) in Ho as [old Hold].
    unfold differ. rewrite Hitem, Hold. by eexists. }
  destruct Hcomp as [updated Hcomp]. rewrite Hcomp.
  pose proof (set_comprehension_spec str class_property _ _ _ Hcomp) as Hupd.
  destruct (update_records _ _ _ _ _ _ _ _) as [self1 r1] eqn:Hrec.
  pose proof (update_records_root_keys str index class_property _ _ _ _ _ _ _ Hrec) as Hkeys1.
  destruct (update_records_lookup new match_index (elements updated) (NoDup_elements _)
              _ _ _ _ Hrec) as [Hother1 Hmerged1].
  assert (Hret1 : (∀ key old item,
            __getitem__ self key = Ok old → __getitem__ new key = Ok item →
            returns (merge old item match_index).2) → returns r1).
  { intros Hmerge.
    pose proof (update_records_returns new match_index (elements updated) (NoDup_elements _)
                  self ∅) as Hret. rewrite Hrec in Hret. apply Hret.
    - intros key Hkey. apply elem_of_elements, Hupd in Hkey as [Hkey _].
      apply elem_of_elements, elem_of_intersection in Hkey as [Hn Ho].
      split; [by apply Hold_ids | by apply Hnew_ids].
    - intros key old item _ Hold Hitem. apply (Hmerge key);
        unfold JSONExportableRootDict.__getitem__; by rewrite ?Hold, ?Hitem. }
  destruct r1 as [updated_idx|err].
  2:{ intros [= <- <-]. split; [by rewrite Hkeys1|]. split; [done|].
      intros Hmerge. by destruct (Hret1 Hmerge). }
  apply (update_records_spec str index class_property model_ne) in Hrec as Hidx.
  destruct (add_records str self1 new (elements (new_ids ∖ old_ids))) as [self2 r2] eqn:Hadd.
  apply add_records_spec in Hadd as (Hprefix & Hother2 & Hok2 & Hret2);
    [|apply NoDup_elements|].
  2:{ intros key Hkey. apply elem_of_elements, elem_of_difference in Hkey as [_ Hkey].
      rewrite Hkeys1. by rewrite Hold_ids in Hkey. }
  assert (r2 = Ok ()) as ->.
  { apply Hret2. intros key Hkey.
    apply elem_of_elements, elem_of_difference in Hkey as [Hkey _]. by apply Hnew_ids. }
  intros [= <- <-]. rewrite Hkeys1 in Hprefix. split; [done|].
  destruct (Hok2 eq_refl) as [Hkeys2 Hadded].
  split; [|intros _; by eexists].
  intros added updated' [= <- <-]. rewrite Hkeys1 in Hkeys2.
  split; [eexists; split; [exact Hkeys2 | done]|]. split.
  { rewrite Hkeys2. apply NoDup_app. split; [done|]. split; [|apply NoDup_elements].
    intros key Hkey Hkey'. apply elem_of_elements, elem_of_difference in Hkey' as [_ Hkey'].
    by apply Hkey', Hold_ids. }
  split.
  { intros key Hkey. apply elem_of_elements in Hkey.
    destruct (Hadded key Hkey) as [[item Hitem] Hget]. split.
    - exists item. unfold JSONExportableRootDict.__getitem__. by rewrite Hitem.
    - by apply getitem_dict_get. }
  split.
  - intros key Hkey. rewrite Hidx in Hkey.
    apply elem_of_union in Hkey as [Hkey|Hkey]; [by apply elem_of_empty in Hkey|].
    apply elem_of_list_to_set in Hkey.
    destruct (Hmerged1 _ eq_refl key Hkey) as (old & item & Hold & Hitem & Hnew).
    exists old, item. unfold JSONExportableRootDict.__getitem__.
    rewrite Hold, Hitem. split; [done|]. split; [done|].
    rewrite Hother2, Hnew; [done|].
    rewrite elem_of_elements, elem_of_difference. intros [_ Hnot]. apply Hnot, Hold_ids.
    apply dict_get_is_Some. by eexists.
  - intros key Hnadded Hnupdated. apply getitem_dict_get; [|done].
    rewrite Hother2 by (by rewrite elem_of_elements).
    apply Hother1. rewrite Hidx in Hnupdated.
    intros Hkey. apply Hnupdated, elem_of_union. right. by apply elem_of_list_to_set.
Qed.

(** X12.  What [update] does to the collection.  It never removes a key and
    never moves one: the keys of the collection before the call are the first
    keys after it, in the same order, also when the call raises.  When the
    call returns [(added, updated)], the keys added come after them, in the
    order in which the set is gone through; a key
    added holds the record of [new], a key updated holds the record it held
    merged with the record of [new], and every other key holds the record it
    held.  The call returns whenever the merges of the records it merges
    return. *)
Theorem update_keeps_and_adds (self new self' : RootDict) (match_index : bool)
    (r : Exc (gset IdxType * gset IdxType)) :
  NoDup (keys self) →
  update self new match_index = (self', r) →
  keys self `prefix_of` keys self'
  ∧ (∀ added updated, r = Ok (added, updated) →
       (∃ tail, keys self' = (keys self ++ tail)%list ∧ tail ≡ₚ elements added)
       ∧ NoDup (keys self')
       ∧ (∀ key, key ∈ added →
            returns (__getitem__ new key) ∧ __getitem__ self' key = __getitem__ new key)
       ∧ (∀ key, key ∈ updated →
            ∃ old item, __getitem__ self key = Ok old ∧ __getitem__ new key = Ok item
                        ∧ __getitem__ self' key = Ok (merge old item match_index).1)
       ∧ (∀ key, key ∉ added → key ∉ updated → __getitem__ self' key = __getitem__ self key))
  ∧ ((∀ key old item,
        __getitem__ self key = Ok old → __getitem__ new key = Ok item →
        returns (merge old item match_index).2) →
     returns r).
Proof.
  apply update_keys_and_records.
Qed.

Lemma set_comprehension_none (cond : IdxType → Exc bool) (l : list IdxType) :
  (∀ key, key ∈ l → cond key = Ok false) → set_comprehension cond l = Ok ∅.
Proof.
  induction l as [|k l IH]; intros Hcond; cbn; [done|].
  rewrite (Hcond k) by left. rewrite IH; [done|]. intros key Hkey. apply Hcond. by right.
Qed.

(** X13.  An update that finds nothing new is a no-op.  When every key of [new] is
    a key of the collection and holds a record equal to the one the
    collection holds, [update] merges nothing, changes nothing and returns two
    empty sets; so does the update of a collection with itself. *)
Theorem update_without_difference (self new : RootDict) (match_index : bool) :
  (∀ key, key ∈ keys new → key ∈ keys self) →
  (∀ key item old,
     __getitem__ new key = Ok item → __getitem__ self key = Ok old →
     model_ne item old = false) →
  update self new match_index = (self, Ok (∅, ∅)).
Proof.
  intros Hkeys Hequal. unfold JSONExportableRootDict.update.
  set (new_ids := list_to_set (__iter__ key_le new) : gset IdxType).
  set (old_ids := list_to_set (__iter__ key_le self) : gset IdxType).
  assert (Hsub : new_ids ⊆ old_ids).
  { intros key. unfold new_ids, old_ids.
    rewrite !elem_of_list_to_set, !(elem_of_iter key_le). apply Hkeys. }
  assert (new_ids ∖ old_ids = ∅) as -> by set_solver.
  rewrite set_comprehension_none.
  - by rewrite !elements_empty.
  - intros key Hkey. apply elem_of_elements, elem_of_intersection in Hkey as [Hn Ho].
    unfold new_ids, old_ids in Hn, Ho.
    rewrite elem_of_list_to_set, (elem_of_iter key_le) in Hn, Ho.
    apply (getitem_returns str) in Hn as [item Hitem].
    apply (getitem_returns str) in Ho as [old Hold].
    unfold differ. rewrite Hitem, Hold. cbn. by rewrite (Hequal key item old).
Qed.

(** X27.  A second update with the same collection adds nothing: the keys
    the first call added are keys of the collection now, so the second call
    adds no key and leaves the order of the keys as it is; and, a record of
    [new] being equal to itself, it does not update the records the first
    call added. *)
Theorem update_again_adds_nothing (self new self' self'' : RootDict) (match_index : bool)
    (added updated added' updated' : gset IdxType) :
  NoDup (keys self) →
  (∀ key item, __getitem__ new key = Ok item → model_ne item item = false) →
  update self new match_index = (self', Ok (added, updated)) →
  update self' new match_index = (self'', Ok (added', updated')) →
  added' = ∅
  ∧ keys self'' = keys self'
  ∧ updated' ## added.
Proof.
  intros Hnodup Hrefl Hfirst Hsecond.
  destruct (update_keys_and_records self new self' match_index _ Hnodup Hfirst)
    as (_ & Hok & _).
  destruct (Hok added updated eq_refl) as ((tail & Hkeys & Htail) & Hnodup' & Hadded & _ & _).
  apply (update_sets key_le str index class_property model_ne) in Hfirst as (Hadd & _).
  destruct (update_keys_and_records self' new self'' match_index _ Hnodup' Hsecond)
    as (_ & Hok' & _).
  destruct (Hok' added' updated' eq_refl) as ((tail' & Hkeys' & Htail') & _).
  apply (update_sets key_le str index class_property model_ne) in Hsecond
    as (Hadd' & Hupd' & _).
  assert (Hempty : added' = ∅).
  { rewrite Hadd'. apply set_eq. intros key. rewrite elem_of_difference, !elem_of_list_to_set.
    split; [|by intros ?%elem_of_empty]. intros [Hnew Hnot]. exfalso. apply Hnot.
    rewrite Hkeys. apply elem_of_app.
    destruct (decide (key ∈ keys self)) as [?|Hself]; [by left|]. right.
    rewrite Htail, elem_of_elements, Hadd, elem_of_difference, !elem_of_list_to_set. done. }
  split; [done|]. split.
  - rewrite Hempty, elements_empty in Htail'. apply Permutation_nil_r in Htail' as ->.
    by rewrite Hkeys', app_nil_r.
  - intros key Hupdated Hkey. apply Hupd' in Hupdated as (_ & _ & Hdiffer).
    destruct (Hadded key Hkey) as [[item Hitem] Hsame].
    unfold differ in Hdiffer. fold (__getitem__ new key) in Hdiffer.
    fold (__getitem__ self' key) in Hdiffer.
    rewrite Hsame, Hitem in Hdiffer. cbn in Hdiffer.
    by rewrite (Hrefl key item Hitem) in Hdiffer.
Qed.

End RootDictUpdate.

Section RootDictViews.

Import JSONExportable JSONExportableRootDict.

Context {IdxType : Type} `{Countable IdxType}.
Variable str : IdxType → string.
Variable record_json_src record_json_db : Model → Exc string.

Lemma json_entries_first_failure (render : Model → Exc string) (before after : list (IdxType * Model)) key value err :
  (∀ v, v ∈ before.*2 → returns (render v)) →
  render value = Raise err →
  json_entries str render (before ++ (key, value) :: after) = Raise err.
Proof.
  induction before as [|[k v] before IH]; intros Hbefore Hvalue; cbn.
  - by rewrite Hvalue.
  - destruct (Hbefore v) as [text ->]; [left|]. cbn.
    rewrite IH; [done | | done]. intros v' Hv'. apply Hbefore. by right.
Qed.

(** X14.  The whole-collection JSON views are all or nothing.  The view of an
    empty collection is a pair of braces; when a record cannot be rendered,
    the view raises the exception of the first such record in the order of
    the backing dict, and gives no text for the records before it. *)
Theorem json_view_all_or_nothing (sorted : bool) :
  json_src str record_json_src (mkRootDict [] sorted) = Ok "{}"
  ∧ json_db str record_json_db (mkRootDict [] sorted) = Ok "{}"
  ∧ ∀ (before after : list (IdxType * Model)) key value err,
      let self := mkRootDict (before ++ (key, value) :: after) sorted in
      ((∀ v, v ∈ before.*2 → returns (record_json_src v)) →
       record_json_src value = Raise err → json_src str record_json_src self = Raise err)
      ∧ ((∀ v, v ∈ before.*2 → returns (record_json_db v)) →
         record_json_db value = Raise err → json_db str record_json_db self = Raise err).
Proof.
  split; [done|]. split; [done|]. intros before after key value err self. split.
  - intros Hbefore Hvalue. unfold json_src, items. cbn [root self].
    by rewrite (json_entries_first_failure record_json_src before after key value err).
  - intros Hbefore Hvalue. unfold json_db, items. cbn [root self].
    by rewrite (json_entries_first_failure record_json_db before after key value err).
Qed.

End RootDictViews.

(** ** Records: what a merge keeps, and merging twice *)

Section MergeKeeps.

Import JSONExportable Merge.

Context {IdxType : Type} `{EqDecision IdxType}.
Variable index : Model → Exc IdxType.
Variable class_property : string → string → option (Model → Value → Model * Exc ()).
Variable match_index : bool.

#[local] Abbreviation update := (update index class_property).
#[local] Abbreviation round := (round index class_property match_index).
#[local] Abbreviation field_merges := (field_merges index class_property match_index).

Lemma getattr_returns_set (s : Model) key value fs k :
  returns (getattr s k) →
  returns (getattr (mkModel (cls s) (dict_set (dict s) key value) fs) k).
Proof.
  unfold getattr. cbn. destruct (decide (key = k)) as [->|Hne].
  - rewrite dict_get_set_eq. by eexists.
  - by rewrite dict_get_set_ne.
Qed.

(** One round keeps the class, the attributes and the fields set, and sets
    no other field than its own. *)
Lemma round_keeps (b s s1 : Model) (u : bool) (key : string) (r1 : Exc bool) :
  class_property (cls s) key = None →
  round b s u key = (s1, r1) →
  cls s1 = cls s
  ∧ (∀ k, returns (getattr s k) → returns (getattr s1 k))
  ∧ model_fields_set s ⊆ model_fields_set s1
  ∧ model_fields_set s1 ⊆ model_fields_set s ∪ {[ key ]}
  ∧ (returns r1 → field_merges s b key).
Proof.
  intros Hprop. unfold Merge.round, Merge.field_merges, _set_skip_validation.
  rewrite Hprop.
  assert (Hkeep : ∀ value fs,
    model_fields_set s ⊆ fs → fs ⊆ model_fields_set s ∪ {[ key ]} →
    let s' := mkModel (cls s) (dict_set (dict s) key value) fs in
    cls s' = cls s
    ∧ (∀ k, returns (getattr s k) → returns (getattr s' k))
    ∧ model_fields_set s ⊆ model_fields_set s'
    ∧ model_fields_set s' ⊆ model_fields_set s ∪ {[ key ]}).
  { intros value fs Hsub Hsup. cbn. split; [done|]. split; [|done].
    intros k. apply getattr_returns_set. }
  assert (Hsame : cls s = cls s
    ∧ (∀ k, returns (getattr s k) → returns (getattr s k))
    ∧ model_fields_set s ⊆ model_fields_set s
    ∧ model_fields_set s ⊆ model_fields_set s ∪ {[ key ]}) by set_solver.
  destruct (getattr b key) as [value|e].
  2:{ intros [= <- <-]. destruct Hsame as (? & ? & ? & ?).
      repeat (split; [done|]). by intros [? ?]. }
  assert (Hover : ∀ s1 r1,
    (mkModel (cls s) (dict_set (dict s) key value) ({[ key ]} ∪ model_fields_set s), Ok true)
    = (s1, r1) →
    cls s1 = cls s
    ∧ (∀ k, returns (getattr s k) → returns (getattr s1 k))
    ∧ model_fields_set s ⊆ model_fields_set s1
    ∧ model_fields_set s1 ⊆ model_fields_set s ∪ {[ key ]}).
  { intros ? ? [= <- <-]. apply Hkeep; set_solver. }
  destruct value as [| | | |value']; try (intros Heq; apply Hover in Heq;
    destruct Heq as (? & ? & ? & ?); by repeat (split; [done|])).
  destruct (getattr s key) as [[| | | |old]|e]; try (intros Heq; apply Hover in Heq;
    destruct Heq as (? & ? & ? & ?); by repeat (split; [done|])).
  - destruct (JSONExportable.update index class_property old value' match_index)
      as [old' [changed|e]]; intros [= <- <-];
      (destruct (Hkeep (VModel old') (model_fields_set s)) as (? & ? & ? & ?);
       [set_solver | set_solver |]); repeat (split; [done|]).
    + intros _. by eexists.
    + by intros [? ?].
  - intros [= <- <-]. destruct Hsame as (? & ? & ? & ?).
    repeat (split; [done|]). by intros [? ?].
Qed.

Lemma for_keys_keeps (b : Model) (keys : list string) :
  ∀ (s s' : Model) (u : bool) (r : Exc bool),
  (∀ key, key ∈ keys → class_property (cls s) key = None) →
  for_keys (round b) keys s u = (s', r) →
  cls s' = cls s
  ∧ (∀ k, returns (getattr s k) → returns (getattr s' k))
  ∧ model_fields_set s ⊆ model_fields_set s'
  ∧ model_fields_set s' ⊆ model_fields_set s ∪ list_to_set keys.
Proof.
  induction keys as [|key keys IH]; intros s s' u r Hprop; cbn [for_keys].
  - intros [= <- <-]. set_solver.
  - destruct (round b s u key) as [s1 r1] eqn:Hround.
    apply round_keeps in Hround as (Hcls1 & Hattr1 & Hsub1 & Hsup1 & _); [|apply Hprop; left].
    destruct r1 as [u1|e].
    + intros Hloop. apply IH in Hloop as (Hcls & Hattr & Hsub & Hsup).
      2:{ intros k Hk. rewrite Hcls1. apply Hprop. by right. }
      split; [congruence|]. split; [intros k Hk; by apply Hattr, Hattr1|].
      split; [set_solver|]. cbn. set_solver.
    + intros [= <- <-]. split; [done|]. split; [done|]. split; [done|]. cbn. set_solver.
Qed.

(** X15.  What a merge keeps, whether it returns or raises: the class of the
    record, every attribute the record had, and every field that was set;
    the fields set afterwards are among those set on either record.  A
    record on which no field is set merges into another as nothing: no
    change is made or reported, once the identities agree. *)
Theorem merge_keeps (a b a' : Model) (r : Exc bool) :
  (∀ key, key ∈ model_fields_set b → class_property (cls a) key = None) →
  update a b match_index = (a', r) →
  cls a' = cls a
  ∧ (∀ key, returns (getattr a key) → returns (getattr a' key))
  ∧ model_fields_set a ⊆ model_fields_set a'
  ∧ model_fields_set a' ⊆ model_fields_set a ∪ model_fields_set b
  ∧ (model_fields_set b = ∅ →
     match_index = false ∨ same_identity index a b →
     a' = a ∧ r = Ok false).
Proof.
  intros Hprop. rewrite update_unfold.
  destruct (if match_index then index_ne index a b else Ok false) as [[|]|e] eqn:Hguard.
  - intros [= <- <-]. split; [done|]. split; [done|]. split; [done|]. split; [set_solver|].
    intros _ [->|(i & Ha & Hb)]; [done|]. destruct match_index; [|done].
    unfold index_ne in Hguard. rewrite Ha, Hb in Hguard.
    by rewrite bool_decide_eq_false_2 in Hguard by (by intros ?).
  - intros Hloop. apply for_keys_keeps in Hloop as Hkeeps.
    2:{ intros key Hkey. apply Hprop. by apply elem_of_elements. }
    destruct Hkeeps as (Hcls & Hattr & Hsub & Hsup).
    split; [done|]. split; [done|]. split; [done|]. split.
    { intros k Hk. apply Hsup in Hk. rewrite list_to_set_elements_L in Hk. done. }
    intros Hempty _. rewrite Hempty, elements_empty in Hloop. by injection Hloop as <- <-.
  - intros [= <- <-]. split; [done|]. split; [done|]. split; [done|]. split; [set_solver|].
    intros _ [->|(i & Ha & Hb)]; [done|]. destruct match_index; [|done].
    unfold index_ne in Hguard. by rewrite Ha, Hb in Hguard.
Qed.

End MergeKeeps.

Section MergeTwice.

Import JSONExportable Merge Records.

Context {IdxType : Type} `{EqDecision IdxType}.
Variable index : Model → Exc IdxType.
Variable class_property : string → string → option (Model → Value → Model * Exc ()).

#[local] Abbreviation update := (update index class_property).
#[local] Abbreviation round := (round index class_property false).
#[local] Abbreviation field_merges := (field_merges index class_property false).
#[local] Abbreviation merged_field := (merged_field index class_property false).

Lemma dict_set_same {K V} `{EqDecision K} (d : list (K * V)) key value :
  dict_get d key = Some value → dict_set d key value = d.
Proof.
  induction d as [|[k v] d IH]; cbn; [done|].
  destruct (decide (k = key)); [by intros [= ->]|]. intros Hd. by rewrite IH.
Qed.

Lemma fields_set_are_fields_getattr (b : Model) key :
  fields_set_are_fields b = true → key ∈ model_fields_set b →
  ∃ value, getattr b key = Ok value.
Proof.
  destruct b as [c d fs]. cbn [fields_set_are_fields model_fields_set].
  intros [Hset _]%andb_true_iff Hkey.
  rewrite forallb_forall in Hset.
  specialize (Hset key). rewrite <- list_elem_of_In, elem_of_elements in Hset.
  apply Hset, bool_decide_eq_true in Hkey as [value Hvalue].
  exists value. unfold getattr. cbn. by rewrite Hvalue.
Qed.

Lemma fields_set_are_fields_nested (b v : Model) key :
  fields_set_are_fields b = true → getattr b key = Ok (VModel v) →
  fields_set_are_fields v = true ∧ model_size v < model_size b.
Proof.
  destruct b as [c d fs]. cbn [fields_set_are_fields model_size].
  intros [_ Hnested]%andb_true_iff. unfold getattr. cbn [dict].
  destruct (dict_get d key) as [value|] eqn:Hget; [|done]. intros [= ->].
  induction d as [|[k x] d IH]; [done|]. cbn in Hget.
  destruct (decide (k = key)) as [->|Hne].
  - injection Hget as ->. apply andb_true_iff in Hnested as [Hv _]. split; [done|lia].
  - destruct x as [| | | |m]; try (destruct (IH Hnested Hget); split; [done|lia]).
    apply andb_true_iff in Hnested as [_ Hnested].
    destruct (IH Hnested Hget). split; [done|lia].
Qed.

Lemma getattr_Ok_dict_get (s : Model) key value :
  getattr s key = Ok value → dict_get (dict s) key = Some value.
Proof. unfold getattr. destruct (dict_get (dict s) key); by intros [= ->]. Qed.

Lemma store_nested_same (s old : Model) key :
  getattr s key = Ok (VModel old) → store_nested s key old = s.
Proof.
  intros Hget%getattr_Ok_dict_get. unfold store_nested.
  rewrite dict_set_same by done. by destruct s.
Qed.

Lemma overwrite_same (s : Model) key value :
  class_property (cls s) key = None →
  getattr s key = Ok value → key ∈ model_fields_set s →
  _set_skip_validation class_property s key value = (s, Ok ()).
Proof.
  intros Hprop Hget%getattr_Ok_dict_get Hkey. unfold _set_skip_validation.
  rewrite Hprop, dict_set_same by done.
  replace ({[ key ]} ∪ model_fields_set s) with (model_fields_set s) by set_solver.
  by destruct s.
Qed.

(** A loop whose rounds leave the instance as it is. *)
Lemma for_keys_fixed (b s : Model) (keys : list string) :
  (∀ key u, key ∈ keys → ∃ u', round b s u key = (s, Ok u')) →
  ∀ u, ∃ u', for_keys (round b) keys s u = (s, Ok u').
Proof.
  induction keys as [|key keys IH]; intros Hround u; cbn [for_keys]; [by eexists|].
  destruct (Hround key u) as [u1 ->]; [left|].
  apply IH. intros k u0 Hk. apply Hround. by right.
Qed.

(** A loop that returns has met no field that fails to merge. *)
Lemma for_keys_merges (b : Model) (keys : list string) :
  NoDup keys →
  ∀ (s s' : Model) (u u' : bool),
  (∀ key, key ∈ keys → class_property (cls s) key = None) →
  for_keys (round b) keys s u = (s', Ok u') →
  ∀ key, key ∈ keys → field_merges s b key.
Proof.
  induction 1 as [|key keys Hnotin Hnodup IH]; intros s s' u u' Hprop Hloop k Hk.
  { by apply elem_of_nil in Hk. }
  cbn [for_keys] in Hloop.
  destruct (round b s u key) as [s1 r1] eqn:Hround.
  pose proof Hround as Hkeeps.
  apply round_keeps in Hkeeps as (_ & _ & _ & _ & Hmerges); [|apply Hprop; left].
  apply round_spec in Hround as (Hcls1 & Hother1 & _); [|apply Hprop; left].
  destruct r1 as [u1|e]; [|done].
  apply elem_of_cons in Hk as [->|Hk]; [apply Hmerges; by eexists|].
  eapply IH in Hloop; [|intros k' Hk'; rewrite Hcls1; apply Hprop; by right|done].
  destruct (field_spec_ext index class_property false b s s1 k) as (_ & _ & _ & Hiff).
  { apply Hother1. by intros ->. }
  by apply Hiff.
Qed.

(** Merging a record into itself, and merging a second time. *)
Lemma merge_settled (n : nat) :
  (∀ c key, class_property c key = None) →
  ∀ b, model_size b < n → fields_set_are_fields b = true →
  (∃ changed, update b b false = (b, Ok changed))
  ∧ (∀ a a' changed, update a b false = (a', Ok changed) →
       ∃ changed', update a' b false = (a', Ok changed')).
Proof.
  intros Hprop. induction n as [|n IH]; intros b Hsize Hwf; [lia|]. split.
  - rewrite update_unfold. apply for_keys_fixed. intros key u Hkey%elem_of_elements.
    destruct (fields_set_are_fields_getattr b key Hwf Hkey) as [value Hvalue].
    unfold Merge.round. rewrite Hvalue.
    assert (Hover : match _set_skip_validation class_property b key value with
                    | (self', Ok _) => (self', Ok true)
                    | (self', Raise e) => (self', Raise e)
                    end = (b, Ok true)) by (by rewrite overwrite_same).
    destruct value as [| | | |v]; try (rewrite Hover; by eexists).
    destruct (fields_set_are_fields_nested b v key Hwf Hvalue) as [Hwfv Hlt].
    destruct (IH v) as [[changed ->] _]; [lia|done|].
    rewrite store_nested_same by done. by eexists.
  - intros a a' changed. rewrite !update_unfold. intros Hloop.
    pose proof (NoDup_elements (model_fields_set b)) as Hnodup.
    pose proof (for_keys_merges b _ Hnodup a a' false changed
                  (λ key _, Hprop (cls a) key) Hloop) as Hmerges.
    apply for_keys_spec in Hloop as (Hcls & _ & Hfields & _); [|done|by intros].
    destruct (Hfields changed eq_refl) as [Hfield _].
    apply for_keys_fixed. intros key u Hkey.
    specialize (Hmerges key Hkey). destruct (Hfield key Hkey) as [Hget Hset].
    unfold Merge.field_merges in Hmerges. unfold Merge.merged_field, nested_pair in Hget.
    unfold nested_pair in Hset. unfold Merge.round.
    destruct (getattr b key) as [value|e] eqn:Hvalue; [|done].
    assert (Hover : ∀ x, getattr a' key = Ok x → key ∈ model_fields_set a' →
                    match _set_skip_validation class_property a' key x with
                    | (self', Ok _) => (self', Ok true)
                    | (self', Raise e) => (self', Raise e)
                    end = (a', Ok true)).
    { intros x Hx Hin. by rewrite overwrite_same. }
    destruct value as [| | | |v];
      try (rewrite Hover; [by eexists | done | by apply Hset; right]).
    destruct (fields_set_are_fields_nested b v key Hwf Hvalue) as [Hwfv Hlt].
    destruct (IH v) as [[changed1 Hself] Htwice]; [lia|done|].
    destruct (getattr a key) as [[| | | |old]|e] eqn:Hold; try done;
      try (rewrite Hget, Hself, store_nested_same by done; by eexists).
    destruct (update old v false) as [old' r] eqn:Hnested.
    destruct Hmerges as [changed2 Hr]. cbn in Hr, Hget. subst r.
    rewrite Hget. destruct (Htwice old old' changed2 Hnested) as [changed3 ->].
    rewrite store_nested_same by done. by eexists.
Qed.

(** X16.  Merging the same record a second time changes nothing more: the record
    is left as the first merge made it, and the call returns (its flag need
    not be the one of the first call).  Merging a record into itself leaves
    it as it is. *)
Theorem merge_twice (a b a' : Model) (changed : bool) :
  (∀ c key, class_property c key = None) →
  fields_set_are_fields b = true →
  update a b false = (a', Ok changed) →
  (∃ changed', update a' b false = (a', Ok changed'))
  ∧ (∃ changed', update b b false = (b, Ok changed')).
Proof.
  intros Hprop Hwf Hfirst.
  destruct (merge_settled (S (model_size b)) Hprop b) as [Hself Htwice]; [lia|done|].
  split; [by eapply Htwice | done].
Qed.

End MergeTwice.

(** ** Transformations *)

Section Transformations.

Import JSONExportable.

Lemma transform_failed_spec (c : Class) in_obj calls err ev r :
  transform_failed c in_obj calls err = (ev, r) →
  (is_Exception err = true ∧ r = Ok VNone
   ∧ ev = app calls [Logged_error ("failed to transform " ++ repr_type (type in_obj)
                                   ++ " to " ++ repr_type (TClass (__name__ c)));
                     Logged_debug (exn_msg err)])
  ∨ (is_Exception err = false ∧ r = Raise err ∧ ev = calls).
Proof.
  unfold transform_failed. destruct (is_Exception err); intros [= <- <-]; [left|right]; done.
Qed.

(** X17.  A registered function is the one [transform] calls for a value of its
    type, the last one registered for that type, and for no other type; a
    value that is an instance of the class is returned as it is, whatever is
    registered. *)
Theorem transform_uses_register (c : Class) (obj_type : PyType)
    (earlier method : Value → Exc Value) (in_obj : Value) :
  let c' := register_transformation (register_transformation c obj_type earlier)
              obj_type method in
  (type in_obj = TClass (__name__ c) → transform c' in_obj = ([], Ok in_obj))
  ∧ (type in_obj ≠ TClass (__name__ c) → type in_obj = obj_type →
     ∀ out, method in_obj = Ok out →
     transform c' in_obj = ([Called obj_type in_obj], Ok out))
  ∧ (type in_obj ≠ obj_type → transform c' in_obj = transform c in_obj).
Proof.
  cbn zeta. unfold transform, register_transformation. cbn [__name__ _transformations].
  split; [|split].
  - intros Htype. by rewrite decide_True.
  - intros Hne <- out Hout. rewrite decide_False by done.
    by rewrite dict_get_set_eq, Hout.
  - intros Hne. rewrite !dict_get_set_ne by done.
    unfold transform_failed. cbn [__name__]. done.
Qed.

(** X18.  [transform] raises no [Exception]: a value of a type nothing is
    registered for, and a registered function that raises one, give [None]
    and two log lines, one at level [ERROR] and one at level [DEBUG].  What it can raise is what the registered function
    raised, when that is no [Exception]. *)
Theorem transform_catches (c : Class) (in_obj : Value) :
  (∀ err, (transform c in_obj).2 = Raise err →
     is_Exception err = false
     ∧ ∃ method, dict_get (_transformations c) (type in_obj) = Some method
                 ∧ method in_obj = Raise err)
  ∧ (type in_obj ≠ TClass (__name__ c) →
     (dict_get (_transformations c) (type in_obj) = None
      ∨ ∃ method err, dict_get (_transformations c) (type in_obj) = Some method
                      ∧ method in_obj = Raise err ∧ is_Exception err = true) →
     (transform c in_obj).2 = Ok VNone
     ∧ ∃ calls msg detail,
         (transform c in_obj).1 = app calls [Logged_error msg; Logged_debug detail]).
Proof.
  unfold transform. split.
  - intros err. destruct (decide (type in_obj = TClass (__name__ c))); [done|].
    destruct (dict_get (_transformations c) (type in_obj)) as [method|]; [|done].
    destruct (method in_obj) as [out|e] eqn:Hcall; [done|].
    destruct (transform_failed c in_obj [Called (type in_obj) in_obj] e) as [ev r] eqn:Hfail.
    apply transform_failed_spec in Hfail as [(_ & -> & _)|(Hexc & -> & _)]; [done|].
    intros [= <-]. split; [done|]. by exists method.
  - intros Hne Hcase. rewrite decide_False by done.
    destruct Hcase as [->|(method & err & -> & -> & Hexc)];
      unfold transform_failed; [cbn [is_Exception exn_class]|rewrite Hexc];
      (split; [done|]); by eexists _, _, _.
Qed.

Lemma transform_instance (c : Class) (obj : Value) :
  type obj = TClass (__name__ c) → transform c obj = ([], Ok obj) ∧ obj ≠ VNone.
Proof.
  intros Htype. unfold transform. rewrite decide_True by done.
  split; [done|]. by intros ->.
Qed.

(** X19.  [transform_many] keeps the order of its input and leaves out what
    [transform] gave [None] for: the result holds no [None] and is no longer
    than the input; a list of instances of the class is returned as it is,
    and none of the registered functions is called. *)
Theorem transform_many_filters (c : Class) (in_objs : list Value) :
  (∀ ev outs, transform_many c in_objs = (ev, Ok outs) →
     (VNone ∉ outs) ∧ (length outs ≤ length in_objs)%nat
     ∧ outs = omap (λ obj, match (transform c obj).2 with
                           | Ok VNone | Raise _ => None
                           | Ok out => Some out
                           end) in_objs)
  ∧ ((∀ obj, obj ∈ in_objs → type obj = TClass (__name__ c)) →
     transform_many c in_objs = ([], Ok in_objs))
  ∧ ((∀ obj, obj ∈ in_objs → returns (transform c obj).2) →
     returns (transform_many c in_objs).2).
Proof.
  split; [|split].
  - induction in_objs as [|obj in_objs IH]; intros ev outs; cbn [transform_many].
    + intros [= <- <-]. split; [by intros ?%elem_of_nil|]. done.
    + destruct (transform c obj) as [ev1 [out|e]] eqn:Hobj; [|done].
      destruct (transform_many c in_objs) as [ev2 [outs2|e]]; [|done].
      destruct (IH ev2 outs2 eq_refl) as (Hnone & Hlen & Houts).
      intros [= <- <-]. cbn [omap list_omap]. rewrite Hobj. cbn [snd].
      rewrite <- Houts.
      destruct out; cbn [length];
        try (split; [|split; [lia|done]]; intros [?|?]%elem_of_cons; done).
      split; [done|]. split; [lia|done].
  - induction in_objs as [|obj in_objs IH]; intros Hall; cbn [transform_many]; [done|].
    destruct (transform_instance c obj) as [-> Hne]; [apply Hall; left|].
    rewrite IH by (intros o Ho; apply Hall; by right).
    by destruct obj.
  - induction in_objs as [|obj in_objs IH]; intros Hall; cbn [transform_many]; [by eexists|].
    destruct (Hall obj) as [out Hout]; [left|].
    destruct (transform c obj) as [ev1 r1]. cbn in Hout. subst r1.
    destruct IH as [outs Houts]; [intros o Ho; apply Hall; by right|].
    destruct (transform_many c in_objs) as [ev2 r2]. cbn in Houts. subst r2.
    by eexists.
Qed.

End Transformations.

(** ** The parameters of a dump: what is passed on, and what stays with the class *)

Section ExportParamsFacts.

Import ExportParams.

Lemma dict_get_update {K V} `{EqDecision K} (other d : list (K * V)) key :
  NoDup other.*1 →
  dict_get (dict_update d other) key
  = match dict_get other key with Some v => Some v | None => dict_get d key end.
Proof.
  unfold dict_update. revert d.
  induction other as [|[k v] other IH]; intros d; [done|].
  rewrite fmap_cons, NoDup_cons. cbn [fst foldl dict_get snd]. intros [Hnotin Hnodup].
  rewrite IH by done. destruct (decide (k = key)) as [->|Hne].
  - apply dict_get_None in Hnotin. by rewrite Hnotin, dict_get_set_eq.
  - by rewrite dict_get_set_ne.
Qed.

Lemma dict_get_include_of (fields : list string) (f : string) :
  dict_get (include_of fields) f = if decide (f ∈ fields) then Some (PBool true) else None.
Proof.
  unfold include_of.
  assert (Hgen : ∀ d, dict_get (foldl (λ d f, dict_set d f (PBool true)) d fields) f
                      = if decide (f ∈ fields) then Some (PBool true) else dict_get d f).
  { induction fields as [|f0 fields IH]; intros d; cbn [foldl].
    - rewrite decide_False; [done | apply not_elem_of_nil].
    - rewrite IH. destruct (decide (f ∈ fields)) as [Hin|Hnotin].
      + rewrite decide_True; [done | by right].
      + destruct (decide (f0 = f)) as [->|Hne].
        * rewrite decide_True by left. apply dict_get_set_eq.
        * rewrite decide_False by (rewrite not_elem_of_cons; naive_solver).
          by apply dict_get_set_ne. }
  by rewrite Hgen.
Qed.

Lemma merge_kwarg_absent h params kwargs f :
  dict_get kwargs f = None → (merge_kwarg h params kwargs f).1 = (h, kwargs).
Proof.
  intros Hnone. unfold merge_kwarg. rewrite Hnone.
  destruct (dict_get params f) as [obj|]; [|done]. by destruct (update_method obj).
Qed.

Lemma merge_logged_silent f h params kwargs log :
  (merge_logged f h params kwargs log).1 = Pyutils.merge_silent f h params kwargs.
Proof.
  unfold merge_logged, Pyutils.merge_silent. case_bool_decide as Hin.
  - by destruct (merge_kwarg h params kwargs f) as [[h' kwargs'] [err|]].
  - rewrite merge_kwarg_absent; [done|]. by apply eq_None_not_Some.
Qed.

(** X20.  The helper of [pyutils] and the helper of [pydantic_exportables] give
    the same parameters and change the same dicts, whatever they are given:
    the second one logs what the first one passes over in silence. *)
Theorem helpers_agree h params fields kwargs :
  Pyutils._export_helper h params fields kwargs
  = ((_export_helper h params fields kwargs).1.1, (_export_helper h params fields kwargs).2).
Proof.
  unfold Pyutils._export_helper, _export_helper. destruct fields as [fields|].
  - by destruct (only_fields h params fields) as [h' [params'|e]].
  - cbn [foldl].
    pose proof (merge_logged_silent "exclude" h params kwargs []) as H1.
    destruct (merge_logged "exclude" h params kwargs []) as [[h1 kwargs1] log1].
    cbn in H1. rewrite <- H1.
    pose proof (merge_logged_silent "include" h1 params kwargs1 log1) as H2.
    destruct (merge_logged "include" h1 params kwargs1 log1) as [[h2 kwargs2] log2].
    cbn in H2. by rewrite <- H2.
Qed.

Section DumpFacts.

Context {A : Type}.
Variable dump : Heap → list (string * Param) → Exc A.
Variable c : Settings.

(** X21.  With [fields] given, the dump is of these fields and of nothing else:
    the class-level [exclude] and [include] are not passed on (the dicts of
    the class are left as they are), [include] is a new dict with [True] at
    each of the fields, and the three [exclude_...] switches are off.  A
    keyword argument of the caller goes before all of this. *)
Theorem fields_replace_class_params (params : list (string * Param)) (h : Heap)
    (fields : list string) (kwargs : list (string * Param)) :
  class_params c params →
  NoDup kwargs.*1 → dict_get kwargs "params" = None →
  let l := fresh (dom h) in
  let h' := <[ l := include_of fields ]> h in
  ∃ params',
    dump_with dump params h (Some fields) kwargs = (h', [], dump h' params')
    ∧ (∀ l0, l0 ∈ dom h → h' !! l0 = h !! l0)
    ∧ (∀ f, dict_get (deref h' l) f
            = if decide (f ∈ fields) then Some (PBool true) else None)
    ∧ (∀ key v, dict_get kwargs key = Some v → dict_get params' key = Some v)
    ∧ (∀ key, dict_get kwargs key = None →
         dict_get params' key
         = if decide (key = "include") then Some (PRef l)
           else if decide (key ∈ ["exclude_defaults"; "exclude_unset"; "exclude_none"])
                then Some (PBool false)
           else if decide (key = "by_alias") then dict_get params "by_alias"
           else None).
Proof.
  intros Hparams Hnodup Hnot l h'.
  assert (Hfresh : l ∉ dom h) by apply is_fresh.
  unfold dump_with. rewrite Hnot. rewrite bool_decide_eq_false_2 by (by intros [? ?]).
  unfold _export_helper, only_fields, alloc. fold l. fold h'.
  assert (Hexclude : ∃ v, dict_get params "exclude" = Some v).
  { destruct Hparams as [-> | ->]; by eexists. }
  destruct Hexclude as [v ->]. eexists. split; [done|].
  split. { intros l0 Hl0. unfold h'. rewrite lookup_insert_ne; [done|]. by intros <-. }
  split. { intros f. unfold deref, h'. rewrite lookup_insert_eq. apply dict_get_include_of. }
  split. { intros key v0 Hkey. by rewrite dict_get_update, Hkey. }
  intros key Hkey. rewrite dict_get_update, Hkey by done.
  destruct (decide (key = "exclude_none")) as [->|H1]; [by rewrite dict_get_set_eq|].
  rewrite dict_get_set_ne by done.
  destruct (decide (key = "exclude_unset")) as [->|H2]; [by rewrite dict_get_set_eq|].
  rewrite dict_get_set_ne by done.
  destruct (decide (key = "exclude_defaults")) as [->|H3]; [by rewrite dict_get_set_eq|].
  rewrite dict_get_set_ne by done.
  destruct (decide (key = "include")) as [->|H4]; [by rewrite dict_get_set_eq|].
  rewrite dict_get_set_ne by done.
  rewrite (decide_False (P := key ∈ _)) by (rewrite !not_elem_of_cons; repeat split; [done..|apply not_elem_of_nil]).
  destruct (decide (key = "by_alias")) as [->|H5].
  - by destruct Hparams as [-> | ->].
  - destruct (decide (key = "exclude")) as [->|H6].
    + apply dict_get_del_eq.
      destruct Hparams as [-> | ->]; apply (bool_decide_unpack _); by vm_compute.
    + rewrite dict_get_del_ne by done. apply dict_get_None.
      destruct Hparams as [-> | ->]; cbn; rewrite !not_elem_of_cons;
        repeat split; try done; apply not_elem_of_nil.
Qed.

Lemma merge_logged_absent f h params kwargs log :
  dict_get kwargs f = None → merge_logged f h params kwargs log = (h, kwargs, log).
Proof.
  intros Hnone. unfold merge_logged. rewrite Hnone.
  by rewrite bool_decide_eq_false_2 by (by intros [? ?]).
Qed.

Lemma merge_logged_dict f h params kwargs log l k :
  dict_get params f = Some (PRef l) → dict_get kwargs f = Some (PRef k) →
  merge_logged f h params kwargs log
  = (<[ l := dict_update (deref h l) (deref h k) ]> h, dict_del kwargs f, log).
Proof.
  intros Hparams Hkwargs. unfold merge_logged, merge_kwarg.
  rewrite Hkwargs, Hparams. by rewrite bool_decide_eq_true_2 by (by eexists).
Qed.

Lemma merge_logged_None f h params kwargs log v :
  dict_get params f = Some PNone → dict_get kwargs f = Some v →
  merge_logged f h params kwargs log
  = (h, kwargs,
     app log ["'" ++ f ++ "' caused an error: 'NoneType' object has no attribute 'update'"]).
Proof.
  intros Hparams Hkwargs. unfold merge_logged, merge_kwarg.
  rewrite Hkwargs, Hparams. by rewrite bool_decide_eq_true_2 by (by eexists).
Qed.

(** X22.  An [exclude] (or [include]) given to one call is merged into the dict of
    the class, when the class has one: the dump of this call sees it, and so
    does every later call, on any record of the class, that gives none. *)
Theorem kwarg_merges_into_class_dict (params : list (string * Param)) (h : Heap)
    (f g : string) (l k : Loc) (kwargs : list (string * Param)) :
  class_params c params →
  (f = "exclude" ∧ g = "include") ∨ (f = "include" ∧ g = "exclude") →
  dict_get params f = Some (PRef l) →
  dict_get kwargs f = Some (PRef k) →
  dict_get kwargs g = None → dict_get kwargs "params" = None →
  let h1 := <[ l := dict_update (deref h l) (deref h k) ]> h in
  dump_with dump params h None kwargs
  = (h1, [], dump h1 (dict_update params (dict_del kwargs f)))
  ∧ dump_with dump params h1 None [] = (h1, [], dump h1 params)
  ∧ (NoDup (deref h k).*1 →
     ∀ key, dict_get (deref h1 l) key
            = match dict_get (deref h k) key with
              | Some v => Some v
              | None => dict_get (deref h l) key
              end).
Proof.
  intros _ Hfg Hparams Hf Hg Hnot h1. split; [|split].
  - unfold dump_with. rewrite Hnot, bool_decide_eq_false_2 by (by intros [? ?]).
    unfold _export_helper. destruct Hfg as [[-> ->]|[-> ->]].
    + rewrite (merge_logged_dict "exclude" h params kwargs [] l k) by done.
      rewrite merge_logged_absent; [done|]. by rewrite dict_get_del_ne.
    + rewrite merge_logged_absent by done.
      by rewrite (merge_logged_dict "include" h params kwargs [] l k).
  - unfold dump_with. cbn [dict_get]. rewrite bool_decide_eq_false_2 by (by intros [? ?]).
    unfold _export_helper. by rewrite !merge_logged_absent.
  - intros Hnodup key. unfold deref at 1. unfold h1. rewrite lookup_insert_eq. cbn [default].
    by apply dict_get_update.
Qed.

(** X23.  When the class has no such dict (the attribute is [None], as in the base
    class), the [exclude] (or [include]) given to a call is passed to the
    dump as it is, after a line in the debug log; nothing is kept for later
    calls. *)
Theorem kwarg_replaces_missing_class_dict (params : list (string * Param)) (h : Heap)
    (f g : string) (v : Param) (kwargs : list (string * Param)) :
  class_params c params →
  (f = "exclude" ∧ g = "include") ∨ (f = "include" ∧ g = "exclude") →
  dict_get params f = Some PNone →
  dict_get kwargs f = Some v →
  dict_get kwargs g = None → dict_get kwargs "params" = None →
  NoDup kwargs.*1 →
  ∃ params',
    dump_with dump params h None kwargs
    = (h, ["'" ++ f ++ "' caused an error: 'NoneType' object has no attribute 'update'"],
       dump h params')
    ∧ dict_get params' f = Some v
    ∧ (∀ key, dict_get params' key
              = match dict_get kwargs key with
                | Some v => Some v
                | None => dict_get params key
                end).
Proof.
  intros _ Hfg Hparams Hf Hg Hnot Hnodup. exists (dict_update params kwargs).
  split; [|split].
  - unfold dump_with. rewrite Hnot, bool_decide_eq_false_2 by (by intros [? ?]).
    unfold _export_helper. destruct Hfg as [[-> ->]|[-> ->]].
    + rewrite (merge_logged_None "exclude" h params kwargs [] v) by done.
      by rewrite merge_logged_absent.
    + rewrite merge_logged_absent by done.
      by rewrite (merge_logged_None "include" h params kwargs [] v).
  - by rewrite dict_get_update, Hf.
  - intros key. by apply dict_get_update.
Qed.

End DumpFacts.

End ExportParamsFacts.

(** ** Parsing: what [from_obj] and [from_objs] catch and keep *)

Section ParsingFacts.

Import JSONExportable Parsing.

Context {Obj : Type}.
Variable model_validate : string → Obj → Exc Model.

#[local] Abbreviation from_obj := (from_obj model_validate).
#[local] Abbreviation from_objs := (from_objs model_validate).

Lemma ValidationError_is_Exception (err : Exn) :
  is_ValidationError err = true → is_Exception err = true.
Proof.
  unfold is_ValidationError, is_Exception. intros Hv%bool_decide_eq_true. by rewrite Hv.
Qed.

Lemma transform_raises_no_Exception (c : Class) (in_obj : Value) (err : Exn) :
  (transform c in_obj).2 = Raise err → is_Exception err = false.
Proof.
  unfold transform. destruct (decide (type in_obj = TClass (__name__ c))); [done|].
  assert (Hfail : ∀ calls e, (transform_failed c in_obj calls e).2 = Raise err →
                             is_Exception err = false).
  { intros calls e. unfold transform_failed.
    destruct (is_Exception e) eqn:He; [done|]. by intros [= <-]. }
  destruct (dict_get (_transformations c) (type in_obj)) as [method|]; [|apply Hfail].
  destruct (method in_obj); [done | apply Hfail].
Qed.

(** X24.  [from_obj] raises no [ValidationError]: an object that fails the
    validation gives [None], after one line in the error log and one in the
    debug log, and no registered function is called. *)
Theorem from_obj_catches_validation (c : Class) (obj : Obj) (in_type : option string) :
  (∀ err, (from_obj c obj in_type).2 = Raise err → is_ValidationError err = false)
  ∧ (∀ err, model_validate (default (__name__ c) in_type) obj = Raise err →
       is_ValidationError err = true →
       ∃ msg, from_obj c obj in_type
              = ([Logged_error msg; Logged_debug (exn_msg err)], Ok VNone)).
Proof.
  split.
  - intros err. unfold Parsing.from_obj. destruct in_type as [in_name|].
    + destruct (model_validate in_name obj) as [obj_in|e].
      * intros Hraise%transform_raises_no_Exception.
        destruct (is_ValidationError err) eqn:Hv; [|done].
        apply ValidationError_is_Exception in Hv. congruence.
      * destruct (is_ValidationError e) eqn:He; [done|]. by intros [= <-].
    + destruct (model_validate (__name__ c) obj) as [m|e]; [done|].
      destruct (is_ValidationError e) eqn:He; [done|]. by intros [= <-].
  - intros err Hraise Hv. unfold Parsing.from_obj.
    destruct in_type as [in_name|]; simpl in Hraise; rewrite Hraise, Hv; by eexists.
Qed.

(** X25.  Validating with the class itself as [in_type] gives what validating
    with no [in_type] gives: the validated record, as it is and with no
    registered function called, or the same [None] or exception. *)
Theorem from_obj_with_own_class (c : Class) (obj : Obj) :
  (∀ m, model_validate (__name__ c) obj = Ok m → cls m = __name__ c) →
  (from_obj c obj (Some (__name__ c))).2 = (from_obj c obj None).2
  ∧ (∀ m, model_validate (__name__ c) obj = Ok m →
       from_obj c obj (Some (__name__ c)) = ([], Ok (VModel m))).
Proof.
  intros Hinstance. unfold Parsing.from_obj.
  destruct (model_validate (__name__ c) obj) as [m|err].
  - assert (Ht : transform c (VModel m) = ([], Ok (VModel m))).
    { unfold transform. rewrite decide_True; [done|]. cbn. by rewrite (Hinstance m). }
    rewrite Ht. split; [done|]. by intros ? [= <-].
  - split; [|done]. by destruct (is_ValidationError err).
Qed.


End ParsingFacts.

(** ** The edge cases on sample inputs *)

Section SampleEdgeFacts.

Import EventCounter Exportable Rows Endings SampleExport SampleEdges.

Lemma export_of_empty_sequence_witness :
  export_csv nothing "out" false false empty_world
  = (debug (debug empty_world "starting") "empty iterable given", Ok (EventCounter.new "CSV"))
  ∧ (export_json nothing "out" false false empty_world).2 = Ok (EventCounter.new "JSON")
  ∧ fs (export_json nothing "out" false false empty_world).1
    = <[ with_suffix "out" "json"
         := RegularFile (kept empty_world (with_suffix "out" "json") false) ]>
        (fs empty_world).
Proof.
  assert (Hname : "out" ≠ "") by done.
  assert (Hfile : "out" ≠ "-") by done.
  assert (Hcan : cannot_export empty_world (with_suffix "out" "json") false false = false)
    by (vm_compute; reflexivity).
  assert (Hopen : unopenable empty_world !! with_suffix "out" "json" = None)
    by (vm_compute; reflexivity).
  destruct (export_of_empty_sequence dictwriter_header dictwriter_row nothing "out"
              false false empty_world Hname Hfile eq_refl eq_refl) as (Hcsv & Hjson & _).
  split; [exact Hcsv|]. exact (Hjson Hcan Hopen).
Defined.


Lemma cancelled_before_first_record_witness :
  export_csv cancelled_at_once "out" false false empty_world
  = (debug empty_world "starting", Raise cancelled).
Proof.
  assert (Hname : "out" ≠ "") by done.
  exact (proj1 (cancelled_before_first_record dictwriter_header dictwriter_row
                  cancelled_at_once "out" "csv" false false empty_world cancelled
                  Hname eq_refl eq_refl eq_refl)).
Defined.

Lemma not_a_file_refused_witness :
  fs world_with_directory !! with_suffix "out.json" "json" = Some Directory
  ∧ export_json five "out.json" true true world_with_directory
    = (error world_with_directory ("Cannot export to " ++ with_suffix "out.json" "json"),
       Ok (EventCounter.new "JSON")).
Proof.
  assert (Hname : "out.json" ≠ "") by done.
  assert (Hfile : "out.json" ≠ "-") by done.
  assert (Hdir : fs world_with_directory !! with_suffix "out.json" "json" = Some Directory)
    by (vm_compute; reflexivity).
  split; [exact Hdir|].
  exact (proj1 (not_a_file_refused dictwriter_header dictwriter_row five "out.json" true true
                  world_with_directory Hname Hfile) Hdir).
Defined.

Lemma unopenable_file_writes_nothing_witness :
  cannot_export world_without_directory (with_suffix "nodir/out" "json") false false = false
  ∧ export_json five "nodir/out" false false world_without_directory
    = (error world_without_directory (exn_msg no_such_directory),
       Ok (EventCounter.new "JSON")).
Proof.
  assert (Hname : "nodir/out" ≠ "") by done.
  assert (Hfile : "nodir/out" ≠ "-") by done.
  assert (Herr : is_Exception no_such_directory = true) by (vm_compute; reflexivity).
  assert (Hcan : cannot_export world_without_directory (with_suffix "nodir/out" "json")
                   false false = false) by (vm_compute; reflexivity).
  assert (Hopen : unopenable world_without_directory !! with_suffix "nodir/out" "json"
                  = Some no_such_directory) by (vm_compute; reflexivity).
  split; [exact Hcan|].
  exact (proj1 (unopenable_file_writes_nothing dictwriter_header dictwriter_row five
                  "nodir/out" false false world_without_directory no_such_directory
                  Hname Hfile Herr) Hcan Hopen).
Defined.

Lemma with_suffix_ends_with_suffix_witness :
  endswith (lower (with_suffix "Out.JSON" "json")) "json" = true
  ∧ with_suffix (with_suffix "Out.JSON" "json") "json" = with_suffix "Out.JSON" "json".
Proof.
  assert (Hlower : lower "json" = "json") by (vm_compute; reflexivity).
  exact (with_suffix_ends_with_suffix "Out.JSON" "json" Hlower).
Defined.

Lemma format_by_suffix_witness : resolve_format "csv" "data.json" = "json".
Proof.
  assert (Hfile : "data.json" ≠ "-") by done.
  assert (Hin : "json" ∈ EXPORT_FORMATS) by (apply (bool_decide_unpack _); vm_compute; exact I).
  assert (Hends : endswith "data.json" "json" = true) by (vm_compute; reflexivity).
  exact (proj1 (format_by_suffix "csv" "data.json" Hfile) "json" Hin Hends).
Defined.

Lemma csv_row_without_None_witness :
  ∃ row, csv_row with_gap = Ok row
    ∧ row.*1 = ["n"; "note"]
    ∧ str <$> dict_get row "note" = Some "".
Proof.
  destruct (csv_row_without_None with_gap [("n", Some (CInt 1)); ("note", None)] eq_refl)
    as (row & Hrow & Hkeys & _ & Hnone).
  exists row. split; [exact Hrow|]. split; [exact Hkeys|].
  apply Hnone. vm_compute. reflexivity.
Defined.

End SampleEdgeFacts.

Section SampleCollectionFacts.

Import JSONExportable JSONExportableRootDict Sample SampleDict.

Lemma descending_NoDup : NoDup (keys descending).
Proof. apply (bool_decide_unpack _). vm_compute. exact I. Qed.

Lemma add_then_getitem_witness :
  (add index descending (tank 3 "c" ["id"; "name"])).2 = Ok ()
  ∧ __getitem__ str (add index descending (tank 3 "c" ["id"; "name"])).1 3%Z
    = Ok (tank 3 "c" ["id"; "name"]).
Proof.
  assert (Hi : index (tank 3 "c" ["id"; "name"]) = Ok 3%Z) by (vm_compute; reflexivity).
  destruct (proj1 (add_then_getitem str index descending (tank 3 "c" ["id"; "name"])
                     descending_NoDup) 3%Z Hi) as (Hret & Hget & _).
  split; [exact Hret | exact Hget].
Defined.

Lemma setitem_ignores_key_witness :
  __getitem__ str (__setitem__ index descending 7%Z (tank 3 "c" ["id"; "name"])).1 7%Z
  = Raise (key_error str 7%Z)
  ∧ __getitem__ str (__setitem__ index descending 7%Z (tank 3 "c" ["id"; "name"])).1 3%Z
    = Ok (tank 3 "c" ["id"; "name"]).
Proof.
  assert (Hi : index (tank 3 "c" ["id"; "name"]) = Ok 3%Z) by (vm_compute; reflexivity).
  assert (Hne : 7%Z ≠ 3%Z) by lia.
  assert (Hnotin : 7%Z ∉ keys descending)
    by (apply (bool_decide_unpack _); vm_compute; exact I).
  exact (setitem_ignores_key str index descending 7%Z 3%Z (tank 3 "c" ["id"; "name"])
           Hi Hne Hnotin).
Defined.

Lemma delitem_removes_one_witness :
  (__delitem__ str descending 2%Z).2 = Ok ()
  ∧ __getitem__ str (__delitem__ str descending 2%Z).1 2%Z = Raise (key_error str 2%Z).
Proof.
  assert (Hin : 2%Z ∈ keys descending)
    by (apply (bool_decide_unpack _); vm_compute; exact I).
  destruct (proj1 (delitem_removes_one str descending 2%Z descending_NoDup) Hin)
    as (Hret & Hget & _).
  split; [exact Hret | exact Hget].
Defined.

Lemma update_keeps_and_adds_witness :
  keys descending
  `prefix_of` keys (update descending (new_RootDict [(3%Z, tank 3 "c" ["id"; "name"])]) true).1.
Proof.
  exact (proj1 (update_keeps_and_adds Z.le str index no_property model_ne descending
                  (new_RootDict [(3%Z, tank 3 "c" ["id"; "name"])]) _ true _
                  descending_NoDup (surjective_pairing _))).
Defined.

Lemma update_without_difference_witness :
  update descending descending true = (descending, Ok (∅, ∅)).
Proof.
  apply (update_without_difference Z.le str index no_property model_ne descending descending
           true).
  - intros key Hkey. exact Hkey.
  - intros key item old Hitem Hold. rewrite Hitem in Hold. injection Hold as <-.
    unfold __getitem__, descending, new_RootDict in Hitem. cbn in Hitem.
    repeat case_decide; simplify_eq; vm_compute; reflexivity.
Defined.

Lemma update_again_adds_nothing_witness :
  let new := new_RootDict [(3%Z, tank 3 "c" ["id"; "name"])] in
  let self' := (update descending new true).1 in
  (update self' new true).2 = Ok (∅, ∅) ∧ keys (update self' new true).1 = keys self'.
Proof.
  intros new self'.
  assert (Hrefl : ∀ key item, __getitem__ str new key = Ok item → model_ne item item = false).
  { intros key item Hitem. unfold __getitem__, new, new_RootDict in Hitem. cbn in Hitem.
    repeat case_decide; simplify_eq; vm_compute; reflexivity. }
  assert (Hfirst : update descending new true = (self', Ok ({[ 3%Z ]}, ∅)))
    by (vm_compute; reflexivity).
  assert (Hsecond : update self' new true = ((update self' new true).1, Ok (∅, ∅)))
    by (vm_compute; reflexivity).
  destruct (update_again_adds_nothing Z.le str index no_property model_ne descending new
              self' _ true _ _ _ _ descending_NoDup Hrefl Hfirst Hsecond) as (_ & Hkeys & _).
  split; [|exact Hkeys]. rewrite Hsecond. reflexivity.
Defined.

End SampleCollectionFacts.

Section SampleMergeFacts.

Import JSONExportable Sample Records.

Lemma merge_keeps_witness :
  cls (update index no_property (tank 1 "a" ["id"]) (tank 1 "b" ["name"]) true).1 = "Tank"
  ∧ model_fields_set (tank 1 "a" ["id"])
    ⊆ model_fields_set
        (update index no_property (tank 1 "a" ["id"]) (tank 1 "b" ["name"]) true).1.
Proof.
  assert (Hprop : ∀ key, key ∈ model_fields_set (tank 1 "b" ["name"]) →
                         no_property (cls (tank 1 "a" ["id"])) key = None)
    by (intros key _; reflexivity).
  destruct (merge_keeps index no_property true (tank 1 "a" ["id"]) (tank 1 "b" ["name"]) _ _
              Hprop (surjective_pairing _)) as (Hcls & _ & Hsub & _).
  split; [exact Hcls | exact Hsub].
Defined.

Lemma merge_twice_witness :
  let b := tank_with 1 "b" (turret 5 ["gun"]) ["name"; "turret"] in
  let a' := (update index no_property (tank 1 "a" ["id"]) b false).1 in
  fields_set_are_fields b = true
  ∧ ∃ changed', update index no_property a' b false = (a', Ok changed').
Proof.
  intros b a'.
  assert (Hprop : ∀ c key, no_property c key = None) by (intros c key; reflexivity).
  assert (Hwf : fields_set_are_fields b = true) by (vm_compute; reflexivity).
  assert (Hfirst : update index no_property (tank 1 "a" ["id"]) b false = (a', Ok true))
    by (vm_compute; reflexivity).
  split; [exact Hwf|].
  exact (proj1 (merge_twice index no_property (tank 1 "a" ["id"]) b a' true
                  Hprop Hwf Hfirst)).
Defined.

End SampleMergeFacts.

Section SampleParamsFacts.

Import ExportParams SampleParams.

Lemma fields_replace_class_params_witness :
  ∃ params',
    obj_db show_params with_exclude heap (Some ["id"; "name"]) []
    = (<[ fresh (dom heap) := include_of ["id"; "name"] ]> heap, [],
       show_params (<[ fresh (dom heap) := include_of ["id"; "name"] ]> heap) params')
    ∧ dict_get params' "exclude" = None.
Proof.
  assert (Hparams : class_params with_exclude (params_db with_exclude)) by (left; reflexivity).
  assert (Hnodup : NoDup ([] : list (string * Param)).*1) by constructor.
  destruct (fields_replace_class_params show_params with_exclude (params_db with_exclude) heap
              ["id"; "name"] [] Hparams Hnodup eq_refl)
    as (params' & Hdump & _ & _ & _ & Hrest).
  exists params'. split; [exact Hdump|]. exact (Hrest "exclude" eq_refl).
Defined.

Lemma kwarg_merges_into_class_dict_witness :
  let h1 := <[ 1%positive := dict_update (deref heap 1) (deref heap 2) ]> heap in
  obj_db show_params with_exclude heap None [("exclude", PRef 2)]
  = (h1, [], show_params h1 (dict_update (params_db with_exclude)
                               (dict_del [("exclude", PRef 2)] "exclude")))
  ∧ obj_db show_params with_exclude h1 None [] = (h1, [], show_params h1 (params_db with_exclude)).
Proof.
  assert (Hparams : class_params with_exclude (params_db with_exclude)) by (left; reflexivity).
  assert (Hfg : ("exclude" = "exclude" ∧ "include" = "include")
                ∨ ("exclude" = "include" ∧ "include" = "exclude"))
    by (left; split; reflexivity).
  destruct (kwarg_merges_into_class_dict show_params with_exclude (params_db with_exclude) heap
              "exclude" "include" 1%positive 2%positive [("exclude", PRef 2)]
              Hparams Hfg eq_refl eq_refl eq_refl eq_refl) as (Hfirst & Hlater & _).
  split; [exact Hfirst | exact Hlater].
Defined.

Lemma kwarg_replaces_missing_class_dict_witness :
  ∃ params',
    obj_db show_params base heap None [("exclude", PRef 2)]
    = (heap, ["'" ++ "exclude"
              ++ "' caused an error: 'NoneType' object has no attribute 'update'"],
       show_params heap params')
    ∧ dict_get params' "exclude" = Some (PRef 2).
Proof.
  assert (Hparams : class_params base (params_db base)) by (left; reflexivity).
  assert (Hfg : ("exclude" = "exclude" ∧ "include" = "include")
                ∨ ("exclude" = "include" ∧ "include" = "exclude"))
    by (left; split; reflexivity).
  assert (Hnodup : NoDup [("exclude", PRef 2)].*1)
    by (apply (bool_decide_unpack _); vm_compute; exact I).
  destruct (kwarg_replaces_missing_class_dict show_params base (params_db base) heap
              "exclude" "include" (PRef 2) [("exclude", PRef 2)]
              Hparams Hfg eq_refl eq_refl eq_refl eq_refl Hnodup)
    as (params' & Hdump & Hexclude & _).
  exists params'. split; [exact Hdump | exact Hexclude].
Defined.

End SampleParamsFacts.

Section SampleParsingFacts.

Import JSONExportable Sample Parsing SampleParsing.

Lemma from_obj_with_own_class_witness :
  from_obj model_validate Tank 7%Z (Some "Tank") = ([], Ok (VModel (tank 7 "" ["id"]))).
Proof.
  assert (Hinstance : ∀ m, model_validate (__name__ Tank) 7%Z = Ok m → cls m = __name__ Tank)
    by (intros m [= <-]; reflexivity).
  exact (proj2 (from_obj_with_own_class model_validate Tank 7%Z Hinstance)
           (tank 7 "" ["id"]) eq_refl).
Defined.

End SampleParsingFacts.
